(** * mysqltuner.py: the rule evaluation engine

    A shallow embedding of [src/mysqltuner.py]: the value model and display
    rounding ([is_numeric_string], [round2_if_numeric]), the expression
    helpers [substr] and [pretty_uptime], the substitution engine
    ([substitute_expr_variables]), the condition compiler
    ([build_condition_expression]), the line parser ([parse_config_line]),
    the rule processor ([evaluate_and_print]) and the variables read from
    files ([get_mysql_kv_from_files]).

    Conventions.
    - A Python [str] is a Rocq [string]; each [ascii] stands for the code
      point of the same number, so the model covers text in U+0000..U+00FF.
      The character classes below are those of Python 3 on that range
      ([str.isspace], and [\s], [\w], [\d] of [re] on [str] patterns).
    - A Python [float] is a binary64 number, a [spec_float] at precision 53
      and maximal exponent 1024, always in canonical form.
    - [print] appends one entry to the list of printed texts and does not
      fail; the newline that terminates each [print] is left implicit.
    - An exception that the source does not catch ends the run: functions
      that can raise return [option], or an [outcome]. What [eval] raises
      is an exception that the handler around the call catches.
    - The conversion of an [int] to text has the limit of CPython, 4300
      digits.
    - The formatting helpers [hr_bytime], [hr_bytes] and [hr_num] are
      names of the evaluation environment only; the connection to a live
      server and the command line are left out. *)

From Stdlib Require Import ZArith Ascii String SpecFloat DecimalString Lia.
From stdpp Require Import base option list strings gmap.

Open Scope string_scope.

(** ** Characters and Python's [str] methods *)

Module PyStr.

Definition code (c : ascii) : N := N_of_ascii c.

Definition in_range (lo hi : N) (c : ascii) : bool :=
  (lo <=? code c)%N && (code c <=? hi)%N.

(** [\d] and [[0-9]] *)
Definition is_digit (c : ascii) : bool := in_range 48 57 c.

(** [[A-Za-z]] *)
Definition is_alpha (c : ascii) : bool := in_range 65 90 c || in_range 97 122 c.

(** [[A-Za-z_]] *)
Definition ident_start (c : ascii) : bool := is_alpha c || (code c =? 95)%N.

(** [[A-Za-z0-9_]] *)
Definition ident_char (c : ascii) : bool := ident_start c || is_digit c.

(** [str.isspace] and [\s]: TAB..CR, FS..US, space, NEL, NBSP. *)
Definition is_space (c : ascii) : bool :=
  in_range 9 13 c || in_range 28 32 c || (code c =? 133)%N || (code c =? 160)%N.

(** [\w]: alphanumeric code points and the underscore. Outside ASCII these
    are the letters and the numeric signs of Latin-1. *)
Definition is_word (c : ascii) : bool :=
  ident_char c
  || (code c =? 170)%N || in_range 178 179 c || (code c =? 181)%N
  || in_range 185 186 c || in_range 188 190 c
  || in_range 192 214 c || in_range 216 246 c || in_range 248 255 c.

(** [.] of [re] without DOTALL: everything but the newline. *)
Definition is_dot (c : ascii) : bool := negb (code c =? 10)%N.

Definition lower_char (c : ascii) : ascii :=
  if in_range 65 90 c || in_range 192 214 c || in_range 216 222 c
  then ascii_of_N (code c + 32) else c.

(** [s.lower()] *)
Fixpoint lower (s : string) : string :=
  match s with
  | EmptyString => EmptyString
  | String c s' => String (lower_char c) (lower s')
  end.

(** [s.startswith(p)] *)
Fixpoint startswith (p s : string) : bool :=
  match p, s with
  | EmptyString, _ => true
  | String a p', String b s' => Ascii.eqb a b && startswith p' s'
  | String _ _, EmptyString => false
  end.

(** [p in s] *)
Fixpoint contains (p s : string) : bool :=
  startswith p s
  || match s with
     | EmptyString => false
     | String _ s' => contains p s'
     end.

Fixpoint all_chars (f : ascii -> bool) (s : string) : bool :=
  match s with
  | EmptyString => true
  | String c s' => f c && all_chars f s'
  end.

(** [s.lstrip()] *)
Fixpoint lstrip (s : string) : string :=
  match s with
  | EmptyString => EmptyString
  | String c s' => if is_space c then lstrip s' else s
  end.

(** [s.rstrip()] *)
Fixpoint rstrip (s : string) : string :=
  match s with
  | EmptyString => EmptyString
  | String c s' =>
      match rstrip s' with
      | EmptyString => if is_space c then EmptyString else String c EmptyString
      | r => String c r
      end
  end.

(** [s.strip()] *)
Definition strip (s : string) : string := rstrip (lstrip s).

(** [s.split("|||")]: cut at each occurrence of the delimiter, found from
    the left and without overlap. The result is never empty. *)
Fixpoint split_bars (s : string) : list string :=
  match s with
  | EmptyString => [EmptyString]
  | String "|" (String "|" (String "|" rest)) => EmptyString :: split_bars rest
  | String c rest =>
      match split_bars rest with
      | f :: fs => String c f :: fs
      | [] => [String c EmptyString]
      end
  end.

(** Python's slice [text[start:stop]] with an optional stop: a negative
    index counts from the end, and both ends are clamped to the text. *)
Definition slice_index (len i : Z) : Z :=
  if (i <? 0)%Z then Z.max 0 (len + i) else Z.min len i.

Definition slice (text : string) (start : Z) (stop : option Z) : string :=
  let len := Z.of_nat (String.length text) in
  let lo := slice_index len start in
  let hi := match stop with
            | None => len
            | Some j => slice_index len j
            end in
  String.substring (Z.to_nat lo) (Z.to_nat (hi - lo)) text.

End PyStr.

(** ** Python's [int] and [float] conversions

    [float] is binary64. The conversions below are the correctly rounded
    ones of CPython (round to nearest, ties to even), computed on exact
    integers. *)

Module PyFloat.

Definition float := spec_float.

Definition prec : Z := 53.
Definition emax : Z := 1024.

Definition float_eqb (x y : float) : bool :=
  match x, y with
  | S754_zero a, S754_zero b => Bool.eqb a b
  | S754_infinity a, S754_infinity b => Bool.eqb a b
  | S754_nan, S754_nan => true
  | S754_finite a m e, S754_finite b n f =>
      Bool.eqb a b && Pos.eqb m n && Z.eqb e f
  | _, _ => false
  end.

(** The binary64 number nearest to [(-1)^s * p / q]. *)
Definition of_ratio (s : bool) (p q : positive) : float :=
  let '(m, e, l) := SFdiv_core_binary prec emax (Zpos p) 0 (Zpos q) 0 in
  binary_round_aux prec emax s m e l.

(** The binary64 number nearest to [(-1)^s * d * 10^k]. *)
Definition of_decimal (s : bool) (d : Z) (k : Z) : float :=
  match d with
  | Zpos p =>
      if (0 <=? k)%Z
      then of_ratio s (p * Z.to_pos (10 ^ k)) 1
      else of_ratio s p (Z.to_pos (10 ^ (- k)))
  | _ => S754_zero s
  end.

(** [float(n)] for an [int]: [None] is OverflowError, raised when the
    rounded value is not finite. *)
Definition of_Z (n : Z) : option float :=
  match binary_normalize prec emax n 0 false with
  | S754_infinity _ | S754_nan => None
  | x => Some x
  end.

(** [str(n)] for an [int]. *)
Definition str_of_Z (n : Z) : string :=
  NilZero.string_of_int (Z.to_int n).

(** The value of a run of decimal digits, read after [acc]. *)
Fixpoint digits_value (acc : Z) (s : string) : Z :=
  match s with
  | EmptyString => acc
  | String c s' => digits_value (10 * acc + (Z.of_N (PyStr.code c) - 48)) s'
  end.

(** The longest prefix of [s] whose characters satisfy [f], and the rest. *)
Fixpoint span (f : ascii -> bool) (s : string) : string * string :=
  match s with
  | EmptyString => (EmptyString, EmptyString)
  | String c s' =>
      if f c then let '(a, b) := span f s' in (String c a, b)
      else (EmptyString, s)
  end.

(** [float(text)] on the texts the source converts: numeric strings
    (sign, digits, optional fraction, optional exponent) and the texts
    that the two-decimal format produces, [inf] and [nan] among them.
    [None] is ValueError. *)
Definition of_string (text : string) : option float :=
  let t := PyStr.lower (PyStr.strip text) in
  let '(neg, body) :=
    match t with
    | String "-" r => (true, r)
    | String "+" r => (false, r)
    | _ => (false, t)
    end in
  if String.eqb body "inf" || String.eqb body "infinity"
  then Some (S754_infinity neg)
  else if String.eqb body "nan" then Some S754_nan
  else
    let '(ip, r1) := span PyStr.is_digit body in
    let '(fp, r2) :=
      match r1 with
      | String "." r => span PyStr.is_digit r
      | _ => (EmptyString, r1)
      end in
    if String.eqb ip EmptyString && String.eqb fp EmptyString then None
    else
      let mant := digits_value 0 (ip ++ fp) in
      let scale := (- Z.of_nat (String.length fp))%Z in
      match r2 with
      | EmptyString => Some (of_decimal neg mant scale)
      | String "e" r =>
          let '(eneg, er) :=
            match r with
            | String "-" r' => (true, r')
            | String "+" r' => (false, r')
            | _ => (false, r)
            end in
          if String.eqb er EmptyString || negb (PyStr.all_chars PyStr.is_digit er)
          then None
          else
            let ex := digits_value 0 er in
            Some (of_decimal neg mant (scale + (if eneg then - ex else ex)))
      | _ => None
      end.

(** [n / d] rounded to the nearest integer, ties to even ([0 <= n], [0 < d]). *)
Definition div_half_even (n d : Z) : Z :=
  let q := (n / d)%Z in
  match (2 * (n mod d) ?= d)%Z with
  | Lt => q
  | Gt => (q + 1)%Z
  | Eq => if Z.even q then q else (q + 1)%Z
  end.

(** [m * 2^e * 10^k] as a fraction of two positive integers. *)
Definition scaled (m : positive) (e k : Z) : Z * Z :=
  let n1 := if (0 <=? e)%Z then (Zpos m * 2 ^ e)%Z else Zpos m in
  let d1 := if (0 <=? e)%Z then 1%Z else (2 ^ (- e))%Z in
  if (0 <=? k)%Z then ((n1 * 10 ^ k)%Z, d1) else (n1, (d1 * 10 ^ (- k))%Z).

Definition sign_text (s : bool) : string := if s then "-" else EmptyString.

(** [f"{x:.2f}"] *)
Definition to_fixed2 (x : float) : string :=
  match x with
  | S754_nan => "nan"
  | S754_infinity s => sign_text s ++ "inf"
  | S754_zero s => sign_text s ++ "0.00"
  | S754_finite s m e =>
      let '(n, d) := scaled m e 2 in
      let h := div_half_even n d in
      let cents := (h mod 100)%Z in
      sign_text s ++ str_of_Z (h / 100) ++ "."
      ++ (if (cents <? 10)%Z then "0" else EmptyString) ++ str_of_Z cents
  end.

(** The position of the decimal point of a positive fraction [n / d]: the
    [k] with [10^(k-1) <= n / d < 10^k], found by search. *)
Fixpoint decpt_up (fuel : nat) (n d k : Z) : Z :=
  match fuel with
  | O => k
  | S fuel' => if (n <? d * 10 ^ k)%Z then k else decpt_up fuel' n d (k + 1)
  end.

Fixpoint decpt_down (fuel : nat) (n d k : Z) : Z :=
  match fuel with
  | O => k
  | S fuel' =>
      if (d <=? n * 10 ^ (1 - k))%Z then k else decpt_down fuel' n d (k - 1)
  end.

Definition decpt (n d : Z) : Z :=
  if (d <=? n)%Z then decpt_up 400 n d 1 else decpt_down 400 n d 0.

(** The [ndigits]-digit decimals next to [x = m * 2^e] that read back as
    [x]; of two, the nearer one (the even one on a tie). The result is the
    integer [c] of the decimal [c * 10^(k - ndigits)]. *)
Definition short_candidate (m : positive) (e k ndigits : Z) : option Z :=
  let x := S754_finite false m e in
  let '(n, d) := scaled m e (ndigits - k) in
  let lo := (n / d)%Z in
  let hi := (lo + 1)%Z in
  let back c := float_eqb (of_decimal false c (k - ndigits)) x in
  match back lo, back hi with
  | false, false => None
  | true, false => Some lo
  | false, true => Some hi
  | true, true =>
      match (2 * (n mod d) ?= d)%Z with
      | Lt => Some lo
      | Gt => Some hi
      | Eq => Some (if Z.even lo then lo else hi)
      end
  end.

Fixpoint shortest (fuel : nat) (m : positive) (e k ndigits : Z) : Z * Z :=
  match fuel with
  | O => (Zpos m, 0%Z)
  | S fuel' =>
      match short_candidate m e k ndigits with
      | Some c => (c, ndigits)
      | None => shortest fuel' m e k (ndigits + 1)
      end
  end.

Fixpoint strip_zeros (fuel : nat) (c : Z) : Z :=
  match fuel with
  | O => c
  | S fuel' => if (c mod 10 =? 0)%Z then strip_zeros fuel' (c / 10) else c
  end.

Fixpoint zeros (n : nat) : string :=
  match n with
  | O => EmptyString
  | S n' => String "0" (zeros n')
  end.

(** [repr(x)] and [str(x)]: the shortest decimal that reads back as [x],
    in exponent notation when the decimal point lies before the fourth
    leading zero or after the sixteenth digit. *)
Definition repr (x : float) : string :=
  match x with
  | S754_nan => "nan"
  | S754_infinity s => sign_text s ++ "inf"
  | S754_zero s => sign_text s ++ "0.0"
  | S754_finite s m e =>
      let '(n, d) := scaled m e 0 in
      let k := decpt n d in
      let '(c, nd) := shortest 17 m e k 1 in
      let digits := str_of_Z (strip_zeros 18 c) in
      (* a candidate that reached [10^nd] moves the point one place *)
      let k := if (c =? 10 ^ nd)%Z then (k + 1)%Z else k in
      let len := Z.of_nat (String.length digits) in
      sign_text s ++
      if (k <=? -4)%Z || (16 <? k)%Z then
        let ex := (k - 1)%Z in
        String.substring 0 1 digits
        ++ (if (1 <? len)%Z
            then "." ++ String.substring 1 (String.length digits - 1) digits
            else EmptyString)
        ++ "e" ++ (if (ex <? 0)%Z then "-" else "+")
        ++ (if (Z.abs ex <? 10)%Z then "0" else EmptyString) ++ str_of_Z (Z.abs ex)
      else if (k <=? 0)%Z then
        "0." ++ zeros (Z.to_nat (- k)) ++ digits
      else if (len <=? k)%Z then
        digits ++ zeros (Z.to_nat (k - len)) ++ ".0"
      else
        String.substring 0 (Z.to_nat k) digits ++ "."
        ++ String.substring (Z.to_nat k) (Z.to_nat (len - k)) digits
  end.

End PyFloat.

(** ** Python's [re]: a backtracking matcher

    The constructs that the patterns of the source use, with the priorities
    of Python's matcher: a greedy repetition tries the longest run first, a
    lazy one the shortest, an optional part is tried before it is skipped.
    The matcher is written in continuation-passing style: the continuation
    receives the text consumed, the position reached and the groups
    captured, and a failure of the continuation makes the matcher try its
    next alternative. Repetition is over character classes only, which is
    all the source needs. *)

Module Re.

Inductive regex :=
  | Empty
  | Chars (f : ascii -> bool)       (* one character of a class *)
  | Cat (r1 r2 : regex)
  | Opt (r : regex)                 (* [r?] *)
  | Star (f : ascii -> bool)        (* [[f]*]  *)
  | LazyPlus (f : ascii -> bool)    (* [[f]+?] *)
  | Group (n : nat) (r : regex)     (* the [n]-th capturing group *)
  | Bol                             (* [^] *)
  | Eol                             (* [$] *)
  | WordB.                          (* [\b] *)

(** A position in the subject: the character before it ([None] at the
    start of the subject) and the text from it on. *)
Record state := State { prev : option ascii; rest : string }.

Definition captures := list (nat * string).

Definition is_char (c : ascii) : ascii -> bool := Ascii.eqb c.

(** A letter of the pattern under IGNORECASE ([c] is given in lower case). *)
Definition is_char_ci (c : ascii) : ascii -> bool :=
  fun x => Ascii.eqb c (PyStr.lower_char x).

Definition Plus (f : ascii -> bool) : regex := Cat (Chars f) (Star f).

Fixpoint Lit (s : string) : regex :=
  match s with
  | EmptyString => Empty
  | String c s' => Cat (Chars (is_char c)) (Lit s')
  end.

Fixpoint LitCi (s : string) : regex :=
  match s with
  | EmptyString => Empty
  | String c s' => Cat (Chars (is_char_ci c)) (LitCi s')
  end.

(** [r1 r2 ... rn] *)
Fixpoint seq (l : list regex) : regex :=
  match l with
  | [] => Empty
  | r :: l' => Cat r (seq l')
  end.

Definition newline : ascii := ascii_of_N 10.

Definition word_at (o : option ascii) : bool :=
  match o with
  | Some c => PyStr.is_word c
  | None => false
  end.

Definition next_char (s : string) : option ascii :=
  match s with
  | EmptyString => None
  | String c _ => Some c
  end.

(** [$] without MULTILINE: at the end of the subject, or just before a
    newline that ends it. *)
Definition at_eol (s : string) : bool :=
  match s with
  | EmptyString => true
  | String c EmptyString => Ascii.eqb c newline
  | _ => false
  end.

Section Run.
Context {R : Type}.

Definition cont := string -> state -> captures -> option R.

Fixpoint star (f : ascii -> bool) (p : option ascii) (s : string)
    (caps : captures) (k : cont) : option R :=
  match s with
  | String c s' =>
      if f c then
        match star f (Some c) s' caps (fun w => k (String c w)) with
        | Some r => Some r
        | None => k EmptyString (State p s) caps
        end
      else k EmptyString (State p s) caps
  | EmptyString => k EmptyString (State p s) caps
  end.

Fixpoint lazy_plus (f : ascii -> bool) (s : string)
    (caps : captures) (k : cont) : option R :=
  match s with
  | String c s' =>
      if f c then
        match k (String c EmptyString) (State (Some c) s') caps with
        | Some r => Some r
        | None => lazy_plus f s' caps (fun w => k (String c w))
        end
      else None
  | EmptyString => None
  end.

Fixpoint run (r : regex) (st : state) (caps : captures) (k : cont)
    : option R :=
  match r with
  | Empty => k EmptyString st caps
  | Chars f =>
      match rest st with
      | String c s' =>
          if f c then k (String c EmptyString) (State (Some c) s') caps
          else None
      | EmptyString => None
      end
  | Cat r1 r2 =>
      run r1 st caps (fun w1 st1 caps1 =>
        run r2 st1 caps1 (fun w2 => k (w1 ++ w2)))
  | Opt r1 =>
      match run r1 st caps k with
      | Some res => Some res
      | None => k EmptyString st caps
      end
  | Star f => star f (prev st) (rest st) caps k
  | LazyPlus f => lazy_plus f (rest st) caps k
  | Group n r1 =>
      run r1 st caps (fun w st' caps' => k w st' ((n, w) :: caps'))
  | Bol =>
      match prev st with
      | None => k EmptyString st caps
      | Some _ => None
      end
  | Eol => if at_eol (rest st) then k EmptyString st caps else None
  | WordB =>
      if xorb (word_at (prev st)) (word_at (next_char (rest st)))
      then k EmptyString st caps
      else None
  end.
End Run.

(** A match of [r] at a position: the text matched and the groups. *)
Definition match_at (r : regex) (st : state) : option (string * captures) :=
  run r st [] (fun w _ caps => Some (w, caps)).

(** [re.match(r, s)] *)
Definition match_ (r : regex) (s : string) : option (string * captures) :=
  match_at r (State None s).

(** [m.group(n)] for a group that took part in the match. *)
Fixpoint group (n : nat) (caps : captures) : string :=
  match caps with
  | [] => EmptyString
  | (i, w) :: caps' => if Nat.eqb i n then w else group n caps'
  end.

(** The subject cut into the leftmost non-overlapping matches of [r] and
    the characters between them. [skip] counts the characters that the
    last match still covers. A pattern of the source matches no empty
    text; an empty match counts as none. *)
Inductive piece :=
  | Kept (c : ascii)
  | Hit (w : string).

Fixpoint scan (r : regex) (p : option ascii) (s : string) (skip : nat)
    : list piece :=
  match s with
  | EmptyString => []
  | String c s' =>
      match skip with
      | S n => scan r (Some c) s' n
      | O =>
          match match_at r (State p s) with
          | Some (String a w, _) =>
              Hit (String a w) :: scan r (Some c) s' (String.length w)
          | _ => Kept c :: scan r (Some c) s' 0
          end
      end
  end.

Definition pieces (r : regex) (s : string) : list piece := scan r None s 0.

Definition piece_text (pc : piece) : string :=
  match pc with
  | Kept c => String c EmptyString
  | Hit w => w
  end.

Fixpoint flatten (l : list string) : string :=
  match l with
  | [] => EmptyString
  | x :: l' => x ++ flatten l'
  end.

(** [re.sub(r, repl, s)] with a function [repl] of the matched text. *)
Definition sub (r : regex) (repl : string -> string) (s : string) : string :=
  flatten (map (fun pc => match pc with
                          | Kept c => String c EmptyString
                          | Hit w => repl w
                          end) (pieces r s)).

End Re.

(** ** The value model

    What an expression evaluates to and what the variable table holds:
    Python's [int], [float], [bool] and [str]. *)

Inductive value :=
  | VInt (n : Z)
  | VFloat (x : PyFloat.float)
  | VBool (b : bool)
  | VStr (s : string).

Definition quote1 : ascii := ascii_of_N 39.
Definition quote2 : ascii := ascii_of_N 34.
Definition backslash : ascii := ascii_of_N 92.

Definition hex_digit (n : N) : ascii :=
  if (n <? 10)%N then ascii_of_N (48 + n) else ascii_of_N (87 + n).

(** One character inside [repr] of a [str] delimited by [q]. *)
Definition repr_char (q c : ascii) : string :=
  let n := PyStr.code c in
  if Ascii.eqb c backslash then String backslash (String backslash EmptyString)
  else if Ascii.eqb c q then String backslash (String q EmptyString)
  else if (n =? 9)%N then String backslash "t"
  else if (n =? 10)%N then String backslash "n"
  else if (n =? 13)%N then String backslash "r"
  else if (n <? 32)%N || ((127 <=? n)%N && (n <=? 160)%N) || (n =? 173)%N
  then String backslash
         (String "x" (String (hex_digit (n / 16)) (String (hex_digit (n mod 16))
          EmptyString)))
  else String c EmptyString.

Fixpoint repr_chars (q : ascii) (s : string) : string :=
  match s with
  | EmptyString => EmptyString
  | String c s' => repr_char q c ++ repr_chars q s'
  end.

(** [repr(s)] for a [str]: single quotes, unless the text has a single
    quote and no double quote. *)
Definition repr_str (s : string) : string :=
  let q :=
    if PyStr.contains (String quote1 EmptyString) s
       && negb (PyStr.contains (String quote2 EmptyString) s)
    then quote2 else quote1 in
  String q (repr_chars q s ++ String q EmptyString).

(** [str(v)], which is also what an f-string field [{v}] shows, where
    the conversion is defined: see [str_raises] for the one case in which
    it raises instead. *)
Definition py_str (v : value) : string :=
  match v with
  | VInt n => PyFloat.str_of_Z n
  | VFloat x => PyFloat.repr x
  | VBool b => if b then "True" else "False"
  | VStr s => s
  end.

(** CPython's limit on the conversion of an [int] to text: [str(n)], and
    an f-string field of [n], raise ValueError when [n] has more than
    4300 digits. A [bool] is shown by its name, without a conversion. *)
Definition int_max_str_digits : Z := 4300.

Definition str_raises (v : value) : bool :=
  match v with
  | VInt n => (10 ^ int_max_str_digits <=? Z.abs n)%Z
  | _ => false
  end.

(** [repr(v)] *)
Definition py_repr (v : value) : string :=
  match v with
  | VStr s => repr_str s
  | _ => py_str v
  end.

(** The pattern [^ -? \d+ \.? \d* ( e [+-]? \d+ )? $] under IGNORECASE,
    written here with spaces between its parts. *)
Definition numeric_re : Re.regex :=
  Re.seq [ Re.Bol;
        Re.Opt (Re.Chars (Re.is_char "-"));
        Re.Plus PyStr.is_digit;
        Re.Opt (Re.Chars (Re.is_char "."));
        Re.Star PyStr.is_digit;
        Re.Opt (Re.Group 1
          (Re.seq [ Re.Chars (Re.is_char_ci "e");
                 Re.Opt (Re.Chars (fun c => Re.is_char "+" c || Re.is_char "-" c));
                 Re.Plus PyStr.is_digit ]));
        Re.Eol ].

Definition is_numeric_string (value : string) : bool :=
  match Re.match_ numeric_re value with
  | Some _ => true
  | None => false
  end.

(** [float(f"{x:.2f}")] *)
Definition round2 (x : PyFloat.float) : option PyFloat.float :=
  PyFloat.of_string (PyFloat.to_fixed2 x).

(** [round2_if_numeric]. [None]: the conversion [float(value)] of an [int]
    raised OverflowError, which nothing on this path catches. In the
    string branch the source catches every exception and returns the
    value unchanged. *)
Definition round2_if_numeric (v : value) (expr_text : string) : option value :=
  match v with
  | VInt n =>
      match PyFloat.of_Z n with
      | Some x => option_map VFloat (round2 x)
      | None => None
      end
  | VBool b =>
      match PyFloat.of_Z (if b then 1 else 0) with
      | Some x => option_map VFloat (round2 x)
      | None => None
      end
  | VFloat x => option_map VFloat (round2 x)
  | VStr s =>
      if negb (PyStr.contains "version" (PyStr.lower expr_text))
         && is_numeric_string s
      then
        match PyFloat.of_string s with
        | Some x =>
            match round2 x with
            | Some y => Some (VFloat y)
            | None => Some v
            end
        | None => Some v
        end
      else Some v
  end.

(** [substr]: Perl-like substr supporting start and optional length. The
    text of [s] is [py_str s]; this is the result of the helper for a
    value whose conversion to text is defined ([str_raises]). *)
Definition substr (s : value) (start : Z) (length : option Z) : string :=
  let text := py_str s in
  match length with
  | None => PyStr.slice text start None
  | Some len => PyStr.slice text start (Some (start + len)%Z)
  end.

(** ** The evaluation environment *)

(** What a name of the environment is bound to. *)
Inductive binding :=
  | NoBuiltins                 (* [{}], the value of [__builtins__] *)
  | Builtin (name : string)    (* a function or type of Python *)
  | Helper (name : string)     (* a function of this program *)
  | ReModule                   (* the module [re] *)
  | Bound (v : value).

Definition base_env : gmap string binding :=
  list_to_map
    [ ("__builtins__", NoBuiltins);
      ("abs", Builtin "abs"); ("min", Builtin "min"); ("max", Builtin "max");
      ("int", Builtin "int"); ("float", Builtin "float");
      ("round", Builtin "round"); ("len", Builtin "len");
      ("hr_bytime", Helper "hr_bytime"); ("hr_bytes", Helper "hr_bytes");
      ("hr_num", Helper "hr_num"); ("pretty_uptime", Helper "pretty_uptime");
      ("substr", Helper "substr") ].

(** [build_safe_eval_env]: [env.update(extra_vars)] lets the extra
    bindings win. *)
Definition build_safe_eval_env (extra_vars : gmap string binding)
    : gmap string binding :=
  extra_vars ∪ base_env.

(** Python's [eval(text, env)]: [None] when it raises an exception. *)
Definition evaluator := string -> gmap string binding -> option value.

(** ** Substitution engine *)

(** The pattern [\b ( [A-Za-z_] [A-Za-z0-9_]* ) \b], written here with
    spaces between its parts. *)
Definition ident_re : Re.regex :=
  Re.seq [ Re.WordB;
        Re.Group 1 (Re.seq [ Re.Chars PyStr.ident_start; Re.Star PyStr.ident_char ]);
        Re.WordB ].

(** The inner function [repl] of [substitute_expr_variables]. *)
Definition repl (variables : gmap string value) (word : string) : string :=
  match variables !! word with
  | Some v =>
      match v with
      | VInt _ | VFloat _ | VBool _ => py_str v
      | VStr s => if is_numeric_string s then s else py_repr v
      end
  | None => word
  end.

Definition substitute_expr_variables (expr : string)
    (variables : gmap string value) : string :=
  Re.sub ident_re (repl variables) expr.

(** [substitute_expr_variables] raises: [repl] converts the value of a
    variable with [str], which raises for an [int] beyond the limit on
    the digits; no handler is around the call. The text that
    [substitute_expr_variables] gives is what the source returns when
    this is [false]. *)
Definition substitution_raises (expr : string)
    (variables : gmap string value) : bool :=
  existsb (fun pc =>
             match pc with
             | Re.Hit w =>
                 match variables !! w with
                 | Some v => str_raises v
                 | None => false
                 end
             | Re.Kept _ => false
             end)
          (Re.pieces ident_re expr).

(** ** Condition compiler *)

(** The patterns [=~ \s* / (.+?) / ( [a-zA-Z]* ) $] and
    [!~ \s* / (.+?) / ( [a-zA-Z]* ) $], written here with spaces between
    their parts. *)
Definition regex_condition_re (op : string) : Re.regex :=
  Re.seq [ Re.Lit op;
        Re.Star PyStr.is_space;
        Re.Chars (Re.is_char "/");
        Re.Group 1 (Re.LazyPlus PyStr.is_dot);
        Re.Chars (Re.is_char "/");
        Re.Group 2 (Re.Star PyStr.is_alpha);
        Re.Eol ].

(** [^[<>!=]] *)
Definition leading_operator_re : Re.regex :=
  Re.seq [ Re.Bol;
        Re.Chars (fun c => Re.is_char "<" c || Re.is_char ">" c
                           || Re.is_char "!" c || Re.is_char "=" c) ].

Definition flags_expr (flags : string) : string :=
  if negb (String.eqb flags EmptyString) && PyStr.contains "i" (PyStr.lower flags)
  then "re.I" else "0".

Definition build_condition_expression (comp_text value_alias : string) : string :=
  let text := PyStr.strip comp_text in
  match Re.match_ (regex_condition_re "=~") text with
  | Some (_, caps) =>
      "re.search(r'" ++ Re.group 1 caps ++ "', str(" ++ value_alias ++ "), "
      ++ flags_expr (Re.group 2 caps) ++ ") is not None"
  | None =>
  match Re.match_ (regex_condition_re "!~") text with
  | Some (_, caps) =>
      "re.search(r'" ++ Re.group 1 caps ++ "', str(" ++ value_alias ++ "), "
      ++ flags_expr (Re.group 2 caps) ++ ") is None"
  | None =>
      if PyStr.startswith "eq " text then
        value_alias ++ " == " ++ PyStr.strip (PyStr.slice text 3 None)
      else if PyStr.startswith "ne " text then
        value_alias ++ " != " ++ PyStr.strip (PyStr.slice text 3 None)
      else if PyStr.startswith "." text then
        "str(" ++ value_alias ++ ")" ++ text
      else
        match Re.match_ leading_operator_re text with
        | Some _ => value_alias ++ " " ++ text
        | None => text
        end
  end
  end.

(** ** Rule lines *)

(** [parse_config_line]: [None] is the ValueError of a line that does not
    have four fields. *)
Definition parse_config_line (line : string)
    : option (string * string * string * string) :=
  match PyStr.split_bars line with
  | [label; comp; expr; output] =>
      Some (PyStr.strip label, PyStr.strip comp, PyStr.strip expr,
            PyStr.strip output)
  | _ => None
  end.

(** The pattern [^ \s* # \s* Category \s* : \s* (.+?) \s* $] under
    IGNORECASE, written here with spaces between its parts. *)
Definition category_re : Re.regex :=
  Re.seq [ Re.Bol;
        Re.Star PyStr.is_space;
        Re.Chars (Re.is_char "#");
        Re.Star PyStr.is_space;
        Re.LitCi "category";
        Re.Star PyStr.is_space;
        Re.Chars (Re.is_char ":");
        Re.Star PyStr.is_space;
        Re.Group 1 (Re.LazyPlus PyStr.is_dot);
        Re.Star PyStr.is_space;
        Re.Eol ].

(** ** Rule processor *)

Record run_state := RunState {
  printed : list string;                         (* the texts printed so far *)
  recommendation_pairs : list (string * string);
  current_category : string
}.

Definition print (text : string) (st : run_state) : run_state :=
  RunState (printed st ++ [text]) (recommendation_pairs st) (current_category st).

Definition print_if (b : bool) (text : string) (st : run_state) : run_state :=
  if b then print text st else st.

(** The result of one pass of the loop body: the loop goes on, or an
    exception leaves [evaluate_and_print]. *)
Inductive step_result :=
  | Continue (st : run_state)
  | Abort (st : run_state).

Definition nl : string := String Re.newline EmptyString.
Definition tab : string := String (ascii_of_N 9) EmptyString.
Definition ANSI_BOLD : string := String (ascii_of_N 27) "[1m".
Definition ANSI_RESET : string := String (ascii_of_N 27) "[0m".

(** The result of a run: everything printed, and whether the run ended
    normally or by an exception that left [evaluate_and_print]. *)
Inductive outcome :=
  | Finished (out : list string)
  | Raised (out : list string).

Section Processor.
Variable eval : evaluator.
Variable variables : gmap string value.
Variable output_mode : string.
Variable debug : bool.

(** A comment line that has no rule delimiter. *)
Definition process_comment (st : run_state) (raw : string) : run_state :=
  match Re.match_ category_re raw with
  | Some (_, caps) =>
      let category_text := Re.group 1 caps in
      if negb (String.eqb category_text EmptyString)
         && negb (String.eqb category_text (current_category st))
      then
        let st := RunState (printed st) (recommendation_pairs st) category_text in
        if String.eqb output_mode "csv"
        then print ("Category," ++ category_text) st
        else print (nl ++ category_text) st
      else st
  | None => st
  end.

(** The condition of a rule against its value: [condition_ok]. *)
Definition condition_ok (comp_text : string) (v : value) : bool :=
  if negb (String.eqb comp_text EmptyString) then
    match eval (build_condition_expression comp_text "v")
               (build_safe_eval_env
                  {[ "re" := ReModule; "v" := Bound v; "_" := Bound v ]}) with
    | Some r =>
        (* [bool(r)] *)
        match r with
        | VBool b => b
        | VInt n => negb (n =? 0)%Z
        | VFloat x =>
            match x with
            | S754_zero _ => false
            | _ => true
            end
        | VStr s => negb (String.eqb s EmptyString)
        end
    | None => false
    end
  else false.

(** The loop body for a line that parsed as a rule. It is left by an
    exception where a conversion raises outside every handler: [str] of
    an [int] beyond the limit on the digits, in the substitution, in the
    debug text of the value and in the metric line of csv mode; and
    [float] of an [int] beyond the floats, in the display rounding of
    pretty mode. *)
Definition process_rule (st : run_state)
    (label comp expr output_text : string) : step_result :=
  let st := print_if debug ("expr starts as " ++ expr) st in
  if substitution_raises expr variables then Abort st else
  let parsed_expr := substitute_expr_variables expr variables in
  let st := print_if debug ("expr after parsing is " ++ parsed_expr) st in
  let v :=
    match eval parsed_expr (build_safe_eval_env ∅) with
    | Some v => v
    | None => VStr parsed_expr
    end in
  if debug && str_raises v then Abort st else
  let st := print_if debug ("expr evals to '" ++ py_str v ++ "'") st in
  let shown :=
    if String.eqb output_mode "csv" then
      if str_raises v then None else Some (label ++ "," ++ py_str v)
    else
      match round2_if_numeric v expr with
      | Some d => Some (label ++ ": " ++ py_str d)
      | None => None
      end in
  match shown with
  | None => Abort st
  | Some displayed_metric_line =>
      let st := print displayed_metric_line st in
      let comp_text := PyStr.strip comp in
      if condition_ok comp_text v then
        let st := print_if debug (tab ++ label ++ " matches " ++ comp_text) st in
        Continue (RunState (printed st)
                    (recommendation_pairs st ++ [(displayed_metric_line, output_text)])
                    (current_category st))
      else Continue st
  end.

(** The loop body. *)
Definition process_line (st : run_state) (raw : string) : step_result :=
  if String.eqb (PyStr.strip raw) EmptyString then Continue st
  else if PyStr.startswith "#" (PyStr.lstrip raw) then
    if negb (PyStr.contains "|||" raw) then Continue (process_comment st raw)
    else Continue st
  else
    match parse_config_line raw with
    | None => Continue st
    | Some (label, comp, expr, output_text) =>
        process_rule st label comp expr output_text
    end.

Fixpoint process_lines (st : run_state) (lines : list string) : step_result :=
  match lines with
  | [] => Continue st
  | raw :: lines' =>
      match process_line st raw with
      | Continue st' => process_lines st' lines'
      | Abort st' => Abort st'
      end
  end.

(** What the recommendation section prints for one pair. *)
Definition recommendation_lines (pair : string * string) : list string :=
  let '(metric_line, rec_text) := pair in
  if String.eqb output_mode "csv"
  then [metric_line; "Recommendation," ++ rec_text]
  else [ANSI_BOLD ++ metric_line ++ ANSI_RESET; rec_text; EmptyString].

Definition recommendation_section (show_recommendations : bool)
    (pairs : list (string * string)) : list string :=
  match pairs with
  | [] => []
  | _ =>
      if show_recommendations
      then (nl ++ nl ++ "RECOMMENDATIONS:") :: concat (map recommendation_lines pairs)
      else []
  end.

Definition initial_state : run_state := RunState [] [] EmptyString.

Definition evaluate_and_print (lines : list string)
    (show_recommendations : bool) : outcome :=
  match process_lines initial_state lines with
  | Continue st =>
      Finished (printed st
                ++ recommendation_section show_recommendations
                     (recommendation_pairs st))
  | Abort st => Raised (printed st)
  end.

End Processor.

(** ** A reference evaluator

    [eval] is Python's own. The properties of the processor that hold
    whatever [eval] returns are proved for an arbitrary [evaluator]. The
    scenarios need the value of a few concrete expressions, and for those
    [py_eval] computes Python's [eval] on a small fragment: one operand, or
    one comparison of two operands, where an operand is a decimal integer
    literal, a quoted string literal without escapes, [True], [False] or a
    name bound to a value. On a text of the fragment [py_eval] returns
    what Python returns, and [None] where Python raises; on any other
    text it returns [None], so that only its successes, and its failures
    on texts of the fragment, say anything about Python. *)

Module Frag.

Definition is_blank (c : ascii) : bool :=
  (PyStr.code c =? 32)%N || (PyStr.code c =? 9)%N.

Fixpoint skip_blanks (s : string) : string :=
  match s with
  | String c s' => if is_blank c then skip_blanks s' else s
  | EmptyString => s
  end.

(** The text up to the closing quote [q] and the text after it; no
    backslash, no line break (line feed or carriage return) and no NUL
    inside: Python refuses a source text with a NUL in it, and reads a
    carriage return as the end of the line. *)
Fixpoint string_body (q : ascii) (s : string) : option (string * string) :=
  match s with
  | EmptyString => None
  | String c s' =>
      if Ascii.eqb c q then Some (EmptyString, s')
      else if Ascii.eqb c backslash || Ascii.eqb c Re.newline
              || (PyStr.code c =? 13)%N || (PyStr.code c =? 0)%N then None
      else
        match string_body q s' with
        | Some (body, after) => Some (String c body, after)
        | None => None
        end
  end.

(** A decimal integer literal: no leading zero unless every digit is
    zero, and no more digits than [int_max_str_digits] otherwise (the
    parser raises SyntaxError beyond). *)
Definition int_literal (digits : string) : option Z :=
  match digits with
  | String "0" _ =>
      if PyStr.all_chars (Re.is_char "0") digits then Some 0%Z else None
  | _ =>
      if (int_max_str_digits <? Z.of_nat (String.length digits))%Z then None
      else Some (PyFloat.digits_value 0 digits)
  end.

(** One operand at the head of [s], and the text after it. *)
Definition operand (env : gmap string binding) (s : string)
    : option (value * string) :=
  match s with
  | EmptyString => None
  | String c s' =>
      if PyStr.is_digit c then
        let '(digits, after) := PyFloat.span PyStr.is_digit s in
        match Re.next_char after with
        | Some d =>
            if PyStr.is_word d || Re.is_char "." d then None
            else option_map (fun n => (VInt n, after)) (int_literal digits)
        | None => option_map (fun n => (VInt n, after)) (int_literal digits)
        end
      else if Ascii.eqb c quote1 || Ascii.eqb c quote2 then
        match string_body c s' with
        | Some (body, after) =>
            match Re.next_char (skip_blanks after) with
            | Some d =>
                if Ascii.eqb d quote1 || Ascii.eqb d quote2 then None
                else Some (VStr body, after)
            | None => Some (VStr body, after)
            end
        | None => None
        end
      else if PyStr.ident_start c then
        let '(name, after) := PyFloat.span PyStr.ident_char s in
        match Re.next_char after with
        | Some d => if PyStr.is_word d then None else
            if String.eqb name "True" then Some (VBool true, after)
            else if String.eqb name "False" then Some (VBool false, after)
            else match env !! name with
                 | Some (Bound v) => Some (v, after)
                 | _ => None
                 end
        | None =>
            if String.eqb name "True" then Some (VBool true, after)
            else if String.eqb name "False" then Some (VBool false, after)
            else match env !! name with
                 | Some (Bound v) => Some (v, after)
                 | _ => None
                 end
        end
      else None
  end.

Inductive cmp_op := OpLt | OpLe | OpGt | OpGe | OpEq | OpNe.

Definition operator (s : string) : option (cmp_op * string) :=
  match s with
  | String "<" (String "=" r) => Some (OpLe, r)
  | String ">" (String "=" r) => Some (OpGe, r)
  | String "=" (String "=" r) => Some (OpEq, r)
  | String "!" (String "=" r) => Some (OpNe, r)
  | String "<" r => Some (OpLt, r)
  | String ">" r => Some (OpGt, r)
  | _ => None
  end.

Definition of_comparison (op : cmp_op) (c : comparison) : bool :=
  match op, c with
  | OpLt, Lt | OpLe, Lt | OpLe, Eq | OpGt, Gt | OpGe, Gt | OpGe, Eq
  | OpEq, Eq | OpNe, Lt | OpNe, Gt => true
  | _, _ => false
  end.

Definition as_int (v : value) : option Z :=
  match v with
  | VInt n => Some n
  | VBool b => Some (if b then 1 else 0)%Z
  | _ => None
  end.

(** [a op b] on integers and on strings; [==] and [!=] also between an
    integer and a string. An order between an integer and a string is a
    TypeError; floats are outside the fragment. *)
Definition compare_values (op : cmp_op) (a b : value) : option value :=
  match as_int a, as_int b with
  | Some m, Some n => Some (VBool (of_comparison op (m ?= n)%Z))
  | _, _ =>
      match a, b with
      | VStr s, VStr t => Some (VBool (of_comparison op (String.compare s t)))
      | VFloat _, _ | _, VFloat _ => None
      | _, _ =>
          match op with
          | OpEq => Some (VBool false)
          | OpNe => Some (VBool true)
          | _ => None
          end
      end
  end.

Definition py_eval : evaluator := fun text env =>
  match operand env (skip_blanks text) with
  | None => None
  | Some (a, r) =>
      match skip_blanks r with
      | EmptyString => Some a
      | r1 =>
          match operator r1 with
          | None => None
          | Some (op, r2) =>
              match operand env (skip_blanks r2) with
              | None => None
              | Some (b, r3) =>
                  match skip_blanks r3 with
                  | EmptyString => compare_values op a b
                  | _ => None
                  end
              end
          end
      end
  end.

End Frag.

(** An evaluator that returns what [py_eval] returns wherever that one
    returns a value. *)
Definition extends_py_eval (eval : evaluator) : Prop :=
  forall text env v, Frag.py_eval text env = Some v -> eval text env = Some v.

(** ** Notions used to state the properties *)

(** The character before the position that is reached by reading [w] from
    a position whose previous character is [p]. *)
Fixpoint prev_after (p : option ascii) (w : string) : option ascii :=
  match w with
  | EmptyString => p
  | String c w' => prev_after (Some c) w'
  end.

(** An identifier: a letter or underscore, then letters, digits and
    underscores. *)
Definition is_identifier (w : string) : bool :=
  match w with
  | String c r => PyStr.ident_start c && PyStr.all_chars PyStr.ident_char r
  | EmptyString => false
  end.

(** [w] is a maximal identifier token at a position: an identifier with no
    word character right before it ([p], if any) and none right after it
    (the head of [after], if any). *)
Definition token_at (p : option ascii) (w after : string) : Prop :=
  is_identifier w = true
  /\ Re.word_at p = false
  /\ Re.word_at (Re.next_char after) = false.

(** The literal that stands for a value in an expression: the bare digits
    of a number or of a numeric string, a quoted literal for another
    string. *)
Definition literal (v : value) : string :=
  match v with
  | VStr s => if is_numeric_string s then s else repr_str s
  | _ => py_str v
  end.

(** [substituted variables p text out]: [out] is [text], read from a
    position whose previous character is [p], with each maximal identifier
    token that is a variable name replaced by the literal of its value,
    and everything else copied: the other maximal identifier tokens, and
    each character that starts no such token. *)
Inductive substituted (variables : gmap string value)
    : option ascii -> string -> string -> Prop :=
  | substituted_end p :
      substituted variables p EmptyString EmptyString
  | substituted_variable p w after out v :
      token_at p w after ->
      variables !! w = Some v ->
      substituted variables (prev_after p w) after out ->
      substituted variables p (w ++ after) (literal v ++ out)
  | substituted_other p w after out :
      token_at p w after ->
      variables !! w = None ->
      substituted variables (prev_after p w) after out ->
      substituted variables p (w ++ after) (w ++ out)
  | substituted_char p c s out :
      (forall w after, String c s = w ++ after -> ~ token_at p w after) ->
      substituted variables (Some c) s out ->
      substituted variables p (String c s) (String c out).

(** The suffix of [s] from offset [n] on. *)
Fixpoint drop_chars (n : nat) (s : string) : string :=
  match n, s with
  | O, _ => s
  | S n', String _ s' => drop_chars n' s'
  | S _, EmptyString => EmptyString
  end.

(** A rule line: not blank, not a comment. *)
Definition is_rule_candidate (raw : string) : Prop :=
  PyStr.strip raw <> EmptyString
  /\ PyStr.startswith "#" (PyStr.lstrip raw) = false.

(** A comment line without the rule delimiter. *)
Definition is_plain_comment (raw : string) : Prop :=
  PyStr.strip raw <> EmptyString
  /\ PyStr.startswith "#" (PyStr.lstrip raw) = true
  /\ PyStr.contains "|||" raw = false.

(** The category that a line names as a category header, if it is one. *)
Definition category_of (raw : string) : option string :=
  match Re.match_ category_re raw with
  | Some (_, caps) => Some (Re.group 1 caps)
  | None => None
  end.

(** What a change to category [name] prints. *)
Definition category_line (output_mode name : string) : string :=
  if String.eqb output_mode "csv" then "Category," ++ name else nl ++ name.

(** [matches r st caps w st' caps']: read from position [st] with the
    groups [caps], the pattern [r] can match the text [w], reaching the
    position [st'] with the groups [caps']. This is what a match is,
    whatever the order in which the matcher tries the alternatives. *)
Inductive matches
    : Re.regex -> Re.state -> Re.captures -> string -> Re.state -> Re.captures
      -> Prop :=
  | matches_empty st caps :
      matches Re.Empty st caps EmptyString st caps
  | matches_chars f p c s caps :
      f c = true ->
      matches (Re.Chars f) (Re.State p (String c s)) caps
        (String c EmptyString) (Re.State (Some c) s) caps
  | matches_cat r1 r2 st caps w1 st1 caps1 w2 st2 caps2 :
      matches r1 st caps w1 st1 caps1 ->
      matches r2 st1 caps1 w2 st2 caps2 ->
      matches (Re.Cat r1 r2) st caps (w1 ++ w2) st2 caps2
  | matches_opt_some r st caps w st' caps' :
      matches r st caps w st' caps' ->
      matches (Re.Opt r) st caps w st' caps'
  | matches_opt_none r st caps :
      matches (Re.Opt r) st caps EmptyString st caps
  | matches_star f p w s' caps :
      PyStr.all_chars f w = true ->
      matches (Re.Star f) (Re.State p (w ++ s')) caps
        w (Re.State (prev_after p w) s') caps
  | matches_lazy_plus f p w s' caps :
      w <> EmptyString ->
      PyStr.all_chars f w = true ->
      matches (Re.LazyPlus f) (Re.State p (w ++ s')) caps
        w (Re.State (prev_after p w) s') caps
  | matches_group n r st caps w st' caps' :
      matches r st caps w st' caps' ->
      matches (Re.Group n r) st caps w st' ((n, w) :: caps')
  | matches_bol s caps :
      matches Re.Bol (Re.State None s) caps EmptyString (Re.State None s) caps
  | matches_eol st caps :
      Re.at_eol (Re.rest st) = true ->
      matches Re.Eol st caps EmptyString st caps
  | matches_wordb st caps :
      xorb (Re.word_at (Re.prev st)) (Re.word_at (Re.next_char (Re.rest st))) = true ->
      matches Re.WordB st caps EmptyString st caps.

(** The suffix of [text] that starts at [start], a negative [start]
    counting from the end of the text as in a Python slice. *)
Definition suffix_from (text : string) (start : Z) : string :=
  drop_chars
    (Z.to_nat (if (start <? 0)%Z
               then (Z.of_nat (String.length text) + start)%Z
               else start))
    text.

(** ** The parts of a rule's processing *)

(** What a piece of the scanned expression becomes. *)
Definition render (variables : gmap string value) (pc : Re.piece) : string :=
  match pc with
  | Re.Kept c => String c EmptyString
  | Re.Hit w => repl variables w
  end.

(** The derived value of a rule: what its expression evaluates to after
    substitution, or the substituted text when the evaluation raises. *)
Definition derived_value (eval : evaluator) (variables : gmap string value)
    (expr : string) : value :=
  match eval (substitute_expr_variables expr variables) (build_safe_eval_env ∅) with
  | Some v => v
  | None => VStr (substitute_expr_variables expr variables)
  end.

(** The metric line of a rule; [None] when showing the value raises:
    [str] in csv mode, the display rounding in pretty mode. *)
Definition metric_line (output_mode label expr : string) (v : value)
    : option string :=
  if String.eqb output_mode "csv" then
    if str_raises v then None else Some (label ++ "," ++ py_str v)
  else
    match round2_if_numeric v expr with
    | Some d => Some (label ++ ": " ++ py_str d)
    | None => None
    end.

(** What a rule has printed when it is left by an exception before its
    value is shown: in the substitution, or in the debug text of the
    value. [None] when neither raises. *)
Definition rule_abort_trace (variables : gmap string value) (debug : bool)
    (expr : string) (v : value) : option (list string) :=
  if substitution_raises expr variables then
    Some (if debug then ["expr starts as " ++ expr] else [])
  else if debug && str_raises v then
    Some [ "expr starts as " ++ expr;
           "expr after parsing is " ++ substitute_expr_variables expr variables ]
  else None.

(** What debug mode prints for a rule before its metric line. *)
Definition trace_lines (debug : bool) (expr parsed_expr : string) (v : value)
    : list string :=
  if debug
  then [ "expr starts as " ++ expr;
         "expr after parsing is " ++ parsed_expr;
         "expr evals to '" ++ py_str v ++ "'" ]
  else [].

(** What debug mode prints for a rule whose condition is met. *)
Definition match_lines (debug ok : bool) (label comp_text : string)
    : list string :=
  if debug && ok then [tab ++ label ++ " matches " ++ comp_text] else [].

(** The decimal integer literal of [10^400], an [int] too large for a
    [float]. *)
Definition big_literal : string := String "1" (PyFloat.zeros 400).

(** ** Notions for the properties of a whole run *)

(** The state in which a pass of the loop ends, whether the loop goes on
    or an exception leaves it. *)
Definition final_state (r : step_result) : run_state :=
  match r with
  | Continue st => st
  | Abort st => st
  end.

(** A line that the loop passes over: a blank line, a comment with the
    rule delimiter (a disabled rule), or a comment that is no category
    header. *)
Definition is_inert (raw : string) : Prop :=
  PyStr.strip raw = EmptyString
  \/ (PyStr.startswith "#" (PyStr.lstrip raw) = true
      /\ (PyStr.contains "|||" raw = true \/ category_of raw = None)).

(** The category that a line names when the loop takes it as a category
    header. *)
Definition header_name (raw : string) : option string :=
  if String.eqb (PyStr.strip raw) EmptyString then None
  else if PyStr.startswith "#" (PyStr.lstrip raw)
          && negb (PyStr.contains "|||" raw)
  then category_of raw
  else None.

(** The category named by the last header among [lines], or [cur] when
    there is none. *)
Fixpoint last_category (cur : string) (lines : list string) : string :=
  match lines with
  | [] => cur
  | raw :: lines' =>
      last_category (match header_name raw with
                     | Some name => name
                     | None => cur
                     end) lines'
  end.

(** The number of entries that the recommendation section prints for one
    pair: two in csv mode, three in pretty mode. *)
Definition entries_per_pair (output_mode : string) : nat :=
  if String.eqb output_mode "csv" then 2 else 3.

(** [debug_refines st_d st]: the state [st] of a run without debug output
    against the state [st_d] of the same run in debug mode: the same
    pairs and category, and the printed texts of [st] among those of
    [st_d], in the same order. *)
Definition debug_refines (st_d st : run_state) : Prop :=
  printed st `sublist_of` printed st_d
  /\ recommendation_pairs st = recommendation_pairs st_d
  /\ current_category st = current_category st_d.

(** A rule line at which an exception leaves the run: the substitution
    raises; or the derived value is an [int] beyond the limit on the
    digits and it is converted to text, for the metric line of csv mode
    or for the debug text; or it is an [int] beyond the floats and
    display rounding converts it, outside csv mode. *)
Definition raising_rule (eval : evaluator) (variables : gmap string value)
    (output_mode : string) (debug : bool) (raw : string) : Prop :=
  is_rule_candidate raw
  /\ exists label comp expr output_text,
       parse_config_line raw = Some (label, comp, expr, output_text)
       /\ (substitution_raises expr variables = true
           \/ exists n,
                derived_value eval variables expr = VInt n
                /\ (((output_mode = "csv" \/ debug = true)
                     /\ (10 ^ int_max_str_digits <= Z.abs n)%Z)
                    \/ (output_mode <> "csv" /\ PyFloat.of_Z n = None))).

(** An evaluator that knows one expression, the power [10**4300], an
    [int] of 4301 digits; like [Frag.py_eval], it says something about
    Python where it returns a value. *)
Definition power_eval : evaluator := fun text _ =>
  if String.eqb text "10**4300" then Some (VInt (10 ^ 4300)) else None.

(** A line whose conversions to text stay within the limit on the digits:
    if it parses as a rule, the substitution does not raise and the
    derived value is no [int] beyond the limit. *)
Definition within_digit_limit (eval : evaluator)
    (variables : gmap string value) (raw : string) : Prop :=
  forall label comp expr output_text,
    parse_config_line raw = Some (label, comp, expr, output_text) ->
    substitution_raises expr variables = false
    /\ str_raises (derived_value eval variables expr) = false.

(** The characters of a decimal number: digits, point and minus sign. *)
Definition is_decimal_char (c : ascii) : bool :=
  PyStr.is_digit c || Re.is_char "." c || Re.is_char "-" c.

(** ** Notions for the fields of a line *)

(** No delimiter starts inside [a] when a delimiter follows [a]. *)
Definition cut_free (a : string) : Prop :=
  PyStr.contains "|||" (a ++ "||") = false.

(** [fields_of s fs]: [s] is the fields [fs] with the delimiter between
    them, each delimiter being the first one that can be read after the
    field before it. *)
Inductive fields_of : string -> list string -> Prop :=
  | fields_last d :
      PyStr.contains "|||" d = false -> fields_of d [d]
  | fields_cut a rest fs :
      cut_free a -> fields_of rest fs ->
      fields_of (a ++ "|||" ++ rest) (a :: fs).

(** ** Notions for numeric strings *)

(** The fraction part of a numeric string: nothing, or a point and
    digits. *)
Definition is_fraction (fr : string) : Prop :=
  fr = EmptyString
  \/ exists fp, fr = String "." fp /\ PyStr.all_chars PyStr.is_digit fp = true.

(** The exponent part of a numeric string: nothing, or the letter e in
    either case, an optional sign and one digit or more. *)
Definition is_exponent (ex : string) : Prop :=
  ex = EmptyString
  \/ exists e sg ds,
       ex = String e (sg ++ ds)
       /\ (e = "e"%char \/ e = "E"%char)
       /\ (sg = EmptyString \/ sg = "+" \/ sg = "-")
       /\ ds <> EmptyString /\ PyStr.all_chars PyStr.is_digit ds = true.

(** A decimal number as text: an optional minus sign, one digit or more,
    an optional fraction, an optional exponent, and possibly one newline
    at the very end. *)
Definition numeric_form (s : string) : Prop :=
  exists sg ip fr ex tl,
    s = sg ++ ip ++ fr ++ ex ++ tl
    /\ (sg = EmptyString \/ sg = "-")
    /\ ip <> EmptyString /\ PyStr.all_chars PyStr.is_digit ip = true
    /\ is_fraction fr /\ is_exponent ex
    /\ (tl = EmptyString \/ tl = nl).

(** ** Variables from files

    [get_mysql_kv_from_files]. A file system is what [open] and the
    iteration over the open file give: the lines of a file, each with the
    newline that ends it, or nothing when the file cannot be opened
    (OSError). *)

Definition file_system := string -> option (list string).

(** The pattern [( [A-Za-z_] [A-Za-z0-9_]* ) \s* ( .* )], written here
    with spaces between its parts. *)
Definition kv_re : Re.regex :=
  Re.seq [ Re.Group 1 (Re.seq [ Re.Chars PyStr.ident_start;
                                Re.Star PyStr.ident_char ]);
           Re.Star PyStr.is_space;
           Re.Group 2 (Re.Star PyStr.is_dot) ].

(** [raw.rstrip("\n")] *)
Fixpoint rstrip_newlines (s : string) : string :=
  match s with
  | EmptyString => EmptyString
  | String c s' =>
      match rstrip_newlines s' with
      | EmptyString =>
          if Ascii.eqb c Re.newline then EmptyString else String c EmptyString
      | r => String c r
      end
  end.

(** The body of the loop over the lines of a file: the key and the value
    that a line gives, if the pattern matches it. *)
Definition read_kv_line (raw : string) : option (string * string) :=
  match Re.match_ kv_re (rstrip_newlines raw) with
  | Some (_, caps) => Some (Re.group 1 caps, Re.group 2 caps)
  | None => None
  end.

(** The loop over the lines of a file. *)
Fixpoint read_kv_lines (kv : gmap string value) (lines : list string)
    : gmap string value :=
  match lines with
  | [] => kv
  | raw :: lines' =>
      read_kv_lines
        (match read_kv_line raw with
         | Some (key, value) => <[ key := VStr value ]> kv
         | None => kv
         end) lines'
  end.

(** [s.split(",")] *)
Fixpoint split_commas (s : string) : list string :=
  match s with
  | EmptyString => [EmptyString]
  | String c rest =>
      if Ascii.eqb c ","
      then EmptyString :: split_commas rest
      else
        match split_commas rest with
        | f :: fs => String c f :: fs
        | [] => [String c EmptyString]
        end
  end.

(** How [get_mysql_kv_from_files] ends: with the table, by [sys.exit(1)]
    after a message on the error stream, or by the ValueError that
    [open] raises for a file name with a NUL character in it, which the
    handler for OSError does not catch. *)
Inductive load_result :=
  | Loaded (kv : gmap string value)
  | Exit1 (message : string)
  | OpenValueError.

Definition NUL : string := String (ascii_of_N 0) EmptyString.

(** The loop over the file names. *)
Fixpoint read_files (fs : file_system) (kv : gmap string value)
    (names : list string) : load_result :=
  match names with
  | [] => Loaded kv
  | filename :: names' =>
      let filename := PyStr.strip filename in
      if String.eqb filename EmptyString then read_files fs kv names'
      else if PyStr.contains NUL filename then OpenValueError
      else
        match fs filename with
        | Some lines => read_files fs (read_kv_lines kv lines) names'
        | None => Exit1 ("cannot open " ++ filename)
        end
  end.

(** [debug_print]: what it prints. *)
Definition debug_print (debug : bool) (message : string) : list string :=
  if debug then [message] else [].

(** [get_mysql_kv_from_files]: what it prints, and how it ends. *)
Definition get_mysql_kv_from_files (fs : file_system)
    (filelist_arg : string) (debug : bool) : list string * load_result :=
  (debug_print debug ("using filenames from list " ++ filelist_arg),
   read_files fs ∅ (split_commas filelist_arg)).

(** ** Notions for the lines of a variables file *)

(** The text [s] does not start with a character of the class [f]. *)
Definition no_head (f : ascii -> bool) (s : string) : Prop :=
  forall c, Re.next_char s = Some c -> f c = false.

(** The key that a line assigns, if it assigns one. *)
Definition key_of (raw : string) : option string :=
  option_map fst (read_kv_line raw).

(** What holds of every entry that a variables file can add: the key is
    an identifier, and the value is a string without a newline in it and
    without a blank at its start. *)
Definition file_entries (kv : gmap string value) : Prop :=
  forall key v, kv !! key = Some v ->
    is_identifier key = true
    /\ exists s, v = VStr s
         /\ PyStr.all_chars PyStr.is_dot s = true
         /\ no_head PyStr.is_space s.

(** ** The helper [pretty_uptime]

    For an [int] argument, as the signature of the helper says. *)

(** [int(x)] for a float: the integer part. [None] is the OverflowError
    of an infinity or the ValueError of a NaN. *)
Definition int_of_float (x : PyFloat.float) : option Z :=
  match x with
  | S754_zero _ => Some 0%Z
  | S754_finite s m e =>
      let a := if (0 <=? e)%Z then (Zpos m * 2 ^ e)%Z
               else (Zpos m / 2 ^ (- e))%Z in
      Some (if s then (- a)%Z else a)
  | S754_infinity _ | S754_nan => None
  end.

(** [a / b] for two [int]s, [b] positive: the float nearest to the
    quotient. [None] is the OverflowError of a quotient too large for a
    float. *)
Definition true_div (a : Z) (b : positive) : option PyFloat.float :=
  let finite x :=
    match x with
    | S754_infinity _ | S754_nan => None
    | _ => Some x
    end in
  match a with
  | Z0 => Some (S754_zero false)
  | Zpos p => finite (PyFloat.of_ratio false p b)
  | Zneg p => finite (PyFloat.of_ratio true p b)
  end.

(** [pretty_uptime]. [None]: the conversion [float(uptime_seconds)]
    raised OverflowError. *)
Definition pretty_uptime (uptime_seconds : Z) : option string :=
  x ← PyFloat.of_Z uptime_seconds;
  total ← int_of_float x;
  let seconds := (total mod 60)%Z in
  q ← true_div (total mod 3600) 60;
  minutes ← int_of_float q;
  q ← true_div (total mod 86400) 3600;
  hours ← int_of_float q;
  q ← true_div total 86400;
  days ← int_of_float q;
  Some
    (if (0 <? days)%Z then
       PyFloat.str_of_Z days ++ "d " ++ PyFloat.str_of_Z hours ++ "h "
       ++ PyFloat.str_of_Z minutes ++ "m " ++ PyFloat.str_of_Z seconds ++ "s"
     else if (0 <? hours)%Z then
       PyFloat.str_of_Z hours ++ "h " ++ PyFloat.str_of_Z minutes ++ "m "
       ++ PyFloat.str_of_Z seconds ++ "s"
     else if (0 <? minutes)%Z then
       PyFloat.str_of_Z minutes ++ "m " ++ PyFloat.str_of_Z seconds ++ "s"
     else PyFloat.str_of_Z seconds ++ "s").

(** The text for an uptime of [days], [hours], [minutes] and [seconds]:
    the units from the first one that is not zero on. *)
Definition uptime_text (days hours minutes seconds : Z) : string :=
  let s := PyFloat.str_of_Z seconds ++ "s" in
  let m := PyFloat.str_of_Z minutes ++ "m " ++ s in
  let h := PyFloat.str_of_Z hours ++ "h " ++ m in
  let d := PyFloat.str_of_Z days ++ "d " ++ h in
  if (0 <? days)%Z then d
  else if (0 <? hours)%Z then h
  else if (0 <? minutes)%Z then m
  else s.

(** The integer part of [m * 2^e], for [m] not negative. *)
Definition floor_scaled (m e : Z) : Z :=
  if (0 <=? e)%Z then (m * 2 ^ e)%Z else (m / 2 ^ (- e))%Z.

(** * Facts about strings *)

Lemma str_app_nil_r (s : string) : s ++ EmptyString = s.
Proof.
  induction s as [|c s IH]; [reflexivity|].
  change (String c (s ++ EmptyString) = String c s). by rewrite IH.
Qed.

Lemma str_app_assoc (a b c : string) : (a ++ b) ++ c = a ++ (b ++ c).
Proof.
  induction a as [|x a IH]; [reflexivity|].
  change (String x ((a ++ b) ++ c) = String x (a ++ (b ++ c))). by rewrite IH.
Qed.

Lemma str_app_nil_l (s : string) : EmptyString ++ s = s.
Proof. reflexivity. Qed.

Lemma str_app_cons (c : ascii) (a b : string) :
  String c a ++ b = String c (a ++ b).
Proof. reflexivity. Qed.

Lemma str_length_app (a b : string) :
  String.length (a ++ b) = String.length a + String.length b.
Proof.
  induction a as [|x a IH]; [reflexivity|].
  rewrite str_app_cons. simpl. by rewrite IH.
Qed.

Lemma prev_after_app p a b :
  prev_after p (a ++ b) = prev_after (prev_after p a) b.
Proof.
  revert p. induction a as [|x a IH]; intros p; [reflexivity|].
  rewrite str_app_cons. simpl. apply IH.
Qed.

Lemma all_chars_app f a b :
  PyStr.all_chars f (a ++ b) = PyStr.all_chars f a && PyStr.all_chars f b.
Proof.
  induction a as [|x a IH]; [reflexivity|].
  rewrite str_app_cons. simpl. rewrite IH. by rewrite andb_assoc.
Qed.

Ltac norm_str :=
  repeat (progress (rewrite ?str_app_nil_l, ?str_app_nil_r, ?str_app_cons in *;
                    simpl in *)).

(** * Facts about the matcher *)

Section MatcherFacts.
Context {R : Type}.
Implicit Types (k : @Re.cont R) (caps : Re.captures).

(** What a successful greedy repetition has read. *)
Lemma star_sound f s : forall p caps k res,
  Re.star f p s caps k = Some res ->
  exists w s', s = w ++ s' /\ PyStr.all_chars f w = true
    /\ k w (Re.State (prev_after p w) s') caps = Some res.
Proof.
  induction s as [|c s IH]; intros p caps k res H; simpl in H.
  - exists EmptyString, EmptyString. auto.
  - destruct (f c) eqn:Hc.
    + destruct (Re.star f (Some c) s caps (fun w => k (String c w))) eqn:Hs.
      * injection H as ->. apply IH in Hs as (w & s' & -> & Hw & Hk).
        exists (String c w), s'. simpl. rewrite Hc, Hw. auto.
      * exists EmptyString, (String c s). auto.
    + exists EmptyString, (String c s). auto.
Qed.

(** The longest run is tried first. *)
Lemma star_greedy f w : forall p s' caps k res,
  PyStr.all_chars f w = true ->
  k w (Re.State (prev_after p w) s') caps = Some res ->
  (forall c, Re.next_char s' = Some c -> f c = false) ->
  Re.star f p (w ++ s') caps k = Some res.
Proof.
  induction w as [|c w IH]; intros p s' caps k res Hw Hk Hnext.
  - change (EmptyString ++ s') with s'. destruct s' as [|c s']; simpl; [done|].
    by rewrite (Hnext c eq_refl).
  - rewrite str_app_cons. simpl in Hw |- *.
    apply andb_prop in Hw as [Hc Hw]. rewrite Hc.
    by rewrite (IH (Some c) s' caps (fun w0 => k (String c w0)) res).
Qed.

(** What a successful lazy repetition has read. *)
Lemma lazy_plus_sound f s : forall caps k res,
  Re.lazy_plus f s caps k = Some res ->
  exists w s', w <> EmptyString /\ s = w ++ s' /\ PyStr.all_chars f w = true
    /\ k w (Re.State (prev_after None w) s') caps = Some res.
Proof.
  induction s as [|c s IH]; intros caps k res H; simpl in H; [done|].
  destruct (f c) eqn:Hc; [|done].
  destruct (k (String c EmptyString) (Re.State (Some c) s) caps) eqn:Hk.
  - injection H as ->. exists (String c EmptyString), s. simpl. rewrite Hc. auto.
  - apply IH in H as (w & s' & Hne & -> & Hw & Hk').
    exists (String c w), s'. simpl. rewrite Hc, Hw.
    repeat split; [done|]. destruct w; [done|]. exact Hk'.
Qed.

(** The shortest run that lets the rest succeed is the one taken. *)
Lemma lazy_plus_first f w : forall s' caps k res,
  w <> EmptyString ->
  PyStr.all_chars f w = true ->
  k w (Re.State (prev_after None w) s') caps = Some res ->
  (forall w1 w2, w = w1 ++ w2 -> w1 <> EmptyString -> w2 <> EmptyString ->
     k w1 (Re.State (prev_after None w1) (w2 ++ s')) caps = None) ->
  Re.lazy_plus f (w ++ s') caps k = Some res.
Proof.
  induction w as [|c w IH]; intros s' caps k res Hne Hw Hk Hshort; [done|].
  rewrite str_app_cons. simpl in Hw |- *.
  apply andb_prop in Hw as [Hc Hw]. rewrite Hc.
  destruct w as [|d w].
  - simpl in Hk. change (EmptyString ++ s') with s'. by rewrite Hk.
  - pose proof (Hshort (String c EmptyString) (String d w) eq_refl) as H0.
    simpl in H0. rewrite H0; [|done..].
    apply (IH s' caps (fun w0 => k (String c w0)) res); [done|done|exact Hk|].
    intros w1 w2 E Hw1 Hw2.
    specialize (Hshort (String c w1) w2). rewrite str_app_cons, E in Hshort.
    destruct w1; [done|]. by apply Hshort.
Qed.
End MatcherFacts.

(** Whatever the matcher returns comes from a match. *)
Lemma run_sound {R : Type} (r : Re.regex) :
  forall st caps (k : @Re.cont R) res,
  Re.run r st caps k = Some res ->
  exists w st' caps', matches r st caps w st' caps' /\ k w st' caps' = Some res.
Proof.
  induction r as [|f|r1 IH1 r2 IH2|r IH|f|f|n r IH| | |];
    intros [p s] caps k res H; simpl in H.
  - eauto 8 using matches.
  - destruct s as [|c s]; [done|]. destruct (f c) eqn:Hc; [|done].
    eauto 8 using matches.
  - apply IH1 in H as (w1 & st1 & caps1 & M1 & H).
    apply IH2 in H as (w2 & st2 & caps2 & M2 & H).
    eauto 8 using matches.
  - destruct (Re.run r _ caps k) eqn:Hr.
    + injection H as ->. apply IH in Hr as (w & st' & caps' & M & Hk).
      eauto 8 using matches.
    + eauto 8 using matches.
  - apply star_sound in H as (w & s' & -> & Hw & Hk).
    exists w, (Re.State (prev_after p w) s'), caps. split; [by constructor|]. done.
  - apply lazy_plus_sound in H as (w & s' & Hne & -> & Hw & Hk).
    exists w, (Re.State (prev_after p w) s'), caps. split; [by constructor|].
    destruct w; [done|]. exact Hk.
  - apply IH in H as (w & st' & caps' & M & Hk). eauto 8 using matches.
  - destruct p; [done|]. eauto 8 using matches.
  - destruct (Re.at_eol s) eqn:He; [|done]. eauto 8 using matches.
  - destruct (xorb _ _) eqn:Hx; [|done]. eauto 8 using matches.
Qed.

(** A match reads a prefix of the text and ends after it. *)
Lemma matches_reads r st caps w st' caps' :
  matches r st caps w st' caps' ->
  Re.rest st = w ++ Re.rest st' /\ Re.prev st' = prev_after (Re.prev st) w.
Proof.
  induction 1 as [ | | r1 r2 st caps w1 st1 caps1 w2 st2 caps2 _ [E1 P1] _ [E2 P2]
                 | | | | | | | | ]; simpl in *; auto.
  rewrite E1, E2, P2, P1. by rewrite str_app_assoc, prev_after_app.
Qed.

Ltac invert_matches :=
  repeat match goal with
  | H : matches Re.Empty _ _ _ _ _ |- _ => inversion H; subst; clear H
  | H : matches (Re.Chars _) _ _ _ _ _ |- _ => inversion H; subst; clear H
  | H : matches (Re.Cat _ _) _ _ _ _ _ |- _ => inversion H; subst; clear H
  | H : matches (Re.Star _) _ _ _ _ _ |- _ => inversion H; subst; clear H
  | H : matches (Re.LazyPlus _) _ _ _ _ _ |- _ => inversion H; subst; clear H
  | H : matches (Re.Group _ _) _ _ _ _ _ |- _ => inversion H; subst; clear H
  | H : matches Re.Bol _ _ _ _ _ |- _ => inversion H; subst; clear H
  | H : matches Re.Eol _ _ _ _ _ |- _ => inversion H; subst; clear H
  | H : matches Re.WordB _ _ _ _ _ |- _ => inversion H; subst; clear H
  end.

Lemma ident_char_word c : PyStr.ident_char c = true -> PyStr.is_word c = true.
Proof. intros H. unfold PyStr.is_word. by rewrite H. Qed.

Lemma ident_start_char c : PyStr.ident_start c = true -> PyStr.ident_char c = true.
Proof. intros H. unfold PyStr.ident_char. by rewrite H. Qed.

Lemma word_after_ident p w :
  PyStr.all_chars PyStr.ident_char w = true -> Re.word_at p = true ->
  Re.word_at (prev_after p w) = true.
Proof.
  revert p. induction w as [|c w IH]; intros p Hw Hp; [done|].
  simpl in Hw |- *. apply andb_prop in Hw as [Hc Hw].
  apply IH; [done|]. simpl. by apply ident_char_word.
Qed.

(** A match of the identifier pattern is a maximal identifier token. *)
Lemma ident_match_token p s w caps :
  Re.match_at ident_re (Re.State p s) = Some (w, caps) ->
  exists after, s = w ++ after /\ token_at p w after.
Proof.
  unfold Re.match_at. intros H.
  apply run_sound in H as (w' & st' & caps' & M & H). injection H as -> ->.
  pose proof (matches_reads _ _ _ _ _ _ M) as [E _]. simpl in E.
  exists (Re.rest st'). split; [done|].
  cbv [ident_re Re.seq] in M. invert_matches. norm_str.
  assert (Hc : PyStr.is_word c = true)
    by by apply ident_char_word, ident_start_char.
  repeat split.
  - simpl. by rewrite H0.
  - rewrite Hc in H7. by destruct (Re.word_at p0).
  - rewrite word_after_ident in H by done. by destruct (Re.word_at _).
Qed.

(** A maximal identifier token is what the identifier pattern matches. *)
Lemma token_ident_match p w after :
  token_at p w after ->
  exists caps, Re.match_at ident_re (Re.State p (w ++ after)) = Some (w, caps).
Proof.
  intros (Hid & Hp & Hnext). destruct w as [|c w]; [done|].
  simpl in Hid. apply andb_prop in Hid as [Hc Hw].
  assert (Hcw : PyStr.is_word c = true)
    by by apply ident_char_word, ident_start_char.
  eexists. unfold Re.match_at. cbv [ident_re Re.seq]. simpl.
  rewrite Hp, Hcw, Hc. simpl.
  apply star_greedy; [done| |].
  - simpl. rewrite word_after_ident by done.
    rewrite Hnext. simpl. norm_str. reflexivity.
  - intros d Hd. rewrite Hd in Hnext. simpl in Hnext.
    destruct (PyStr.ident_char d) eqn:E; [|done].
    apply ident_char_word in E. congruence.
Qed.


(** * The substitution engine *)

Lemma scan_skip r w : forall p s,
  Re.scan r p (w ++ s) (String.length w) = Re.scan r (prev_after p w) s 0.
Proof.
  induction w as [|c w IH]; intros p s; [reflexivity|].
  rewrite str_app_cons. simpl. apply IH.
Qed.

Lemma repl_literal variables w v :
  variables !! w = Some v -> repl variables w = literal v.
Proof. intros H. unfold repl, literal. rewrite H. by destruct v. Qed.

Lemma repl_other variables w :
  variables !! w = None -> repl variables w = w.
Proof. intros H. unfold repl. by rewrite H. Qed.

Lemma scan_substituted variables n : forall s p,
  String.length s <= n ->
  substituted variables p s
    (Re.flatten (map (render variables) (Re.scan ident_re p s 0))).
Proof.
  induction n as [|n IH]; intros [|c s] p Hlen; simpl in Hlen;
    try lia; try (simpl; constructor).
  simpl.
  destruct (Re.match_at ident_re (Re.State p (String c s)))
    as [[[|a w] caps]|] eqn:Hm.
  - apply ident_match_token in Hm as (after & _ & Hid & _). done.
  - apply ident_match_token in Hm as (after & E & Htok).
    rewrite str_app_cons in E. injection E as <- ->.
    rewrite scan_skip. simpl.
    assert (Hafter : String.length after <= n).
    { rewrite str_length_app in Hlen. lia. }
    rewrite <- str_app_cons.
    destruct (variables !! String c w) as [v|] eqn:Hv.
    + rewrite (repl_literal _ _ _ Hv).
      apply substituted_variable; [done..|]. by apply IH.
    + rewrite (repl_other _ _ Hv).
      apply substituted_other; [done..|]. by apply IH.
  - simpl. apply substituted_char; [|apply IH; lia].
    intros w after E Htok. apply token_ident_match in Htok as [caps Hm'].
    rewrite <- E in Hm'. congruence.
Qed.

Lemma substitute_substituted variables expr :
  substituted variables None expr (substitute_expr_variables expr variables).
Proof. by apply (scan_substituted variables (String.length expr)). Qed.

Lemma substitute_identifier variables w :
  is_identifier w = true ->
  substitute_expr_variables w variables = repl variables w.
Proof.
  intros Hid. unfold substitute_expr_variables, Re.sub, Re.pieces.
  destruct w as [|c w]; [done|]. simpl.
  destruct (token_ident_match None (String c w) EmptyString) as [caps Hm].
  { by repeat split. }
  rewrite str_app_nil_r in Hm. rewrite Hm.
  pose proof (scan_skip ident_re w (Some c) EmptyString) as Hs.
  rewrite str_app_nil_r in Hs. rewrite Hs. simpl. by rewrite str_app_nil_r.
Qed.

Lemma str_app_inv_head (a b c : string) : a ++ b = a ++ c -> b = c.
Proof.
  induction a as [|x a IH]; [done|]. rewrite !str_app_cons. intros [=]. auto.
Qed.

(** At a position there is at most one maximal identifier token. *)
Lemma token_unique p w1 a1 w2 a2 :
  token_at p w1 a1 -> token_at p w2 a2 -> w1 ++ a1 = w2 ++ a2 ->
  w1 = w2 /\ a1 = a2.
Proof.
  intros [c1 H1]%token_ident_match [c2 H2]%token_ident_match E.
  rewrite E in H1. rewrite H1 in H2. injection H2 as -> _.
  split; [done|]. by apply str_app_inv_head in E.
Qed.

(** The relation [substituted] leaves no choice: it fixes the output. *)
Lemma substituted_functional variables p s out1 out2 :
  substituted variables p s out1 -> substituted variables p s out2 ->
  out1 = out2.
Proof.
  intros H1. revert out2.
  induction H1 as [p|p w after out v Htok Hv _ IH|p w after out Htok Hv _ IH
                  |p c s out Hno _ IH]; intros out2 H2.
  - inversion H2; subst; try done.
    all: match goal with
         | H : ?w ++ _ = EmptyString, T : token_at _ ?w _ |- _ =>
             destruct w; [by destruct T|done]
         end.
  - inversion H2; subst.
    all: try match goal with
         | T1 : token_at ?p ?w1 ?a1, T2 : token_at ?p ?w2 ?a2,
           E : ?w1 ++ ?a1 = ?w2 ++ ?a2 |- _ =>
             destruct (token_unique _ _ _ _ _ T1 T2 E) as [-> ->]
         end.
    + destruct w; [by destruct Htok|done].
    + f_equal; [congruence|by apply IH].
    + congruence.
    + match goal with
      | Hno : forall w after, String _ _ = _ -> _ |- _ =>
          by destruct (Hno w after)
      end.
  - inversion H2; subst.
    all: try match goal with
         | T1 : token_at ?p ?w1 ?a1, T2 : token_at ?p ?w2 ?a2,
           E : ?w1 ++ ?a1 = ?w2 ++ ?a2 |- _ =>
             destruct (token_unique _ _ _ _ _ T1 T2 E) as [-> ->]
         end.
    + destruct w; [by destruct Htok|done].
    + congruence.
    + f_equal. by apply IH.
    + match goal with
      | Hno : forall w after, String _ _ = _ -> _ |- _ =>
          by destruct (Hno w after)
      end.
  - inversion H2; subst.
    + match goal with
      | T : token_at _ ?w ?a |- _ => by destruct (Hno w a)
      end.
    + match goal with
      | T : token_at _ ?w ?a |- _ => by destruct (Hno w a)
      end.
    + f_equal. by apply IH.
Qed.

(** C3. Variable substitution is word-boundary exact. The result of
    [substitute_expr_variables] is the text in which the maximal identifier
    tokens that are variable names, and nothing else, are replaced (the
    relation [substituted], which fixes the result); a longer identifier
    that is no variable name stays as it is, whatever variable names occur
    inside it; and with Var1 = 5 and Variable1 = 9 the text Var1*2 becomes
    5*2. *)
Theorem substitution_word_boundary_exact
    (variables : gmap string value) (expr : string) :
  substituted variables None expr (substitute_expr_variables expr variables)
  /\ (forall out, substituted variables None expr out ->
        out = substitute_expr_variables expr variables)
  /\ (forall w, is_identifier w = true -> variables !! w = None ->
        substitute_expr_variables w variables = w)
  /\ substitute_expr_variables "Var1*2"
       {[ "Var1" := VInt 5; "Variable1" := VInt 9 ]} = "5*2".
Proof.
  split; [apply substitute_substituted|].
  split.
  { intros out H. symmetry.
    eapply substituted_functional; [apply substitute_substituted|exact H]. }
  split; [|by vm_compute].
  intros w Hid Hw. rewrite substitute_identifier by done. by apply repl_other.
Qed.

(** * The substring helper *)

Lemma length_drop_chars n : forall s,
  String.length (drop_chars n s) = String.length s - n.
Proof. induction n as [|n IH]; intros [|c s]; simpl; auto. Qed.

Lemma drop_chars_all n : forall s,
  String.length s <= n -> drop_chars n s = EmptyString.
Proof.
  induction n as [|n IH]; intros [|c s] H; simpl in *; try done; try lia.
  apply IH. lia.
Qed.

Lemma substring_drop n : forall m s,
  String.substring n m s = String.substring 0 m (drop_chars n s).
Proof.
  induction n as [|n IH]; intros m [|c s]; simpl; try done.
  all: try by destruct m.
Qed.

Lemma substring_prefix m : forall s,
  exists rest, s = String.substring 0 m s ++ rest
               /\ String.length rest = String.length s - m.
Proof.
  induction m as [|m IH]; intros [|c s]; simpl.
  - by exists EmptyString.
  - by exists (String c s).
  - by exists EmptyString.
  - destruct (IH s) as (rest & E & L). exists rest.
    split; [|done]. rewrite str_app_cons. by rewrite <- E.
Qed.

Lemma substring_whole m s :
  String.length s <= m -> String.substring 0 m s = s.
Proof.
  intros H. destruct (substring_prefix m s) as (rest & E & L).
  assert (rest = EmptyString) as -> by (destruct rest; [done|simpl in L; lia]).
  by rewrite str_app_nil_r in E.
Qed.

Lemma slice_to_end text start :
  PyStr.slice text start None = suffix_from text start.
Proof.
  unfold PyStr.slice, suffix_from, PyStr.slice_index.
  set (n := String.length text).
  rewrite substring_drop, substring_whole by (rewrite length_drop_chars; lia).
  destruct (start <? 0)%Z eqn:E.
  - f_equal. lia.
  - destruct (Z_le_gt_dec start (Z.of_nat n)).
    + f_equal. lia.
    + rewrite !drop_chars_all; [done|lia..].
Qed.

Lemma slice_negative_length text start len :
  (len < 0)%Z ->
  exists rest,
    suffix_from text start = PyStr.slice text start (Some (start + len)%Z) ++ rest
    /\ (suffix_from text start <> EmptyString -> rest <> EmptyString).
Proof.
  intros Hlen. rewrite <- slice_to_end.
  unfold PyStr.slice. set (n := Z.of_nat (String.length text)).
  set (lo := PyStr.slice_index n start).
  set (hi := PyStr.slice_index n (start + len)).
  rewrite (substring_drop _ (Z.to_nat (n - lo))), (substring_drop _ (Z.to_nat (hi - lo))).
  assert (Hlo : (0 <= lo <= n)%Z).
  { unfold lo, PyStr.slice_index. destruct (start <? 0)%Z eqn:E; lia. }
  assert (Hhi : (hi <= lo \/ hi < n)%Z).
  { unfold hi, lo, PyStr.slice_index.
    destruct (start <? 0)%Z eqn:E1; destruct (start + len <? 0)%Z eqn:E2; lia. }
  set (d := drop_chars (Z.to_nat lo) text).
  assert (Hd : String.length d = Z.to_nat (n - lo)).
  { unfold d. rewrite length_drop_chars. lia. }
  rewrite (substring_whole _ d) by lia.
  destruct (substring_prefix (Z.to_nat (hi - lo)) d) as (rest & E & L).
  exists rest. split; [done|].
  intros Hne Hrest. subst rest. simpl in L.
  destruct d as [|c d']; [done|]. simpl in Hd, L. lia.
Qed.

(** C9 at a failing input. With the negative length -1 the helper returns
    the empty text for hello from offset 1, where the claim has the
    suffix ello, which the helper returns when the length is omitted.
    The input is no special one: without a length the helper returns the
    suffix from the offset, and only then; with a negative length its
    result is never that suffix, unless the suffix is empty. *)
Theorem substr_negative_length_not_suffix :
  substr (VStr "hello") 1 None = "ello"
  /\ substr (VStr "hello") 1 (Some (-1)%Z) = EmptyString
  /\ (forall s start, substr s start None = suffix_from (py_str s) start)
  /\ (forall s start len, (len < 0)%Z ->
        suffix_from (py_str s) start <> EmptyString ->
        substr s start (Some len) <> suffix_from (py_str s) start).
Proof.
  split; [by vm_compute|]. split; [by vm_compute|].
  split; [intros s start; apply slice_to_end|].
  intros s start len Hlen Hne Heq.
  destruct (slice_negative_length (py_str s) start len Hlen) as (rest & E & Hrest).
  apply (Hrest Hne). unfold substr in Heq. rewrite Heq in E.
  apply (f_equal String.length) in E. rewrite str_length_app in E.
  destruct rest; [done|]. simpl in E. lia.
Qed.

(** * Stripping *)

Lemma lstrip_spec t :
  exists a, t = a ++ PyStr.lstrip t /\ PyStr.all_chars PyStr.is_space a = true
    /\ (forall c, Re.next_char (PyStr.lstrip t) = Some c -> PyStr.is_space c = false).
Proof.
  induction t as [|c t (a & E & Ha & Hn)]; simpl.
  - exists EmptyString. by repeat split.
  - destruct (PyStr.is_space c) eqn:Hc.
    + exists (String c a). rewrite str_app_cons, <- E. simpl. rewrite Hc, Ha. by repeat split.
    + exists EmptyString. repeat split. simpl. by intros ? [= <-].
Qed.

Lemma rstrip_spec s :
  exists b, s = PyStr.rstrip s ++ b /\ PyStr.all_chars PyStr.is_space b = true
    /\ (forall u v, PyStr.rstrip s = u ++ v -> v <> EmptyString ->
          PyStr.all_chars PyStr.is_space v = false).
Proof.
  induction s as [|c s (b & E & Hb & Hs)]; simpl.
  - exists EmptyString. repeat split. intros [|??] [|??]; done.
  - destruct (PyStr.rstrip s) as [|d r] eqn:Hr.
    + rewrite str_app_nil_l in E. subst b.
      destruct (PyStr.is_space c) eqn:Hc.
      * exists (String c s). simpl. rewrite Hc, Hb. repeat split.
        intros [|??] [|??]; done.
      * exists s. repeat split; [done|].
        intros [|x u] [|y v] E' Hv; try done.
        -- rewrite str_app_nil_l in E'. injection E' as <- <-. simpl. by rewrite Hc.
        -- rewrite str_app_cons in E'. injection E' as _ E'. by destruct u.
    + exists b. rewrite str_app_cons, <- E. repeat split; [done|].
      intros [|x u] v E' Hv.
      * rewrite str_app_nil_l in E'. subst v.
        change (PyStr.is_space c && PyStr.all_chars PyStr.is_space (String d r) = false).
        rewrite (Hs EmptyString (String d r)); [|done..].
        apply andb_false_r.
      * rewrite str_app_cons in E'. injection E' as _ E'. by apply (Hs u v).
Qed.

Lemma rstrip_head s c r :
  PyStr.rstrip s = String c r -> exists s', s = String c s'.
Proof.
  destruct s as [|d s]; simpl; [done|].
  destruct (PyStr.rstrip s); [destruct (PyStr.is_space d)|]; intros [= <- _]; eauto.
Qed.

(** A text whose stripped form is not empty: blanks, the stripped form,
    blanks; the stripped form neither starts nor ends with a blank. *)
Lemma strip_spec t :
  PyStr.strip t <> EmptyString ->
  exists a b, t = a ++ PyStr.strip t ++ b
    /\ PyStr.all_chars PyStr.is_space a = true
    /\ PyStr.all_chars PyStr.is_space b = true
    /\ (forall c, Re.next_char (PyStr.strip t) = Some c -> PyStr.is_space c = false)
    /\ (forall u v, PyStr.strip t = u ++ v -> v <> EmptyString ->
          PyStr.all_chars PyStr.is_space v = false).
Proof.
  intros Hne. unfold PyStr.strip in *.
  destruct (lstrip_spec t) as (a & Ea & Ha & Hfirst).
  destruct (rstrip_spec (PyStr.lstrip t)) as (b & Eb & Hb & Hlast).
  exists a, b. repeat split; try done.
  - by rewrite <- Eb.
  - intros c Hc. apply Hfirst.
    destruct (PyStr.rstrip (PyStr.lstrip t)) as [|d r] eqn:Hr; [done|].
    apply rstrip_head in Hr as [s' ->]. simpl in *. congruence.
Qed.

Lemma lstrip_blanks a s :
  PyStr.all_chars PyStr.is_space a = true ->
  (forall c, Re.next_char s = Some c -> PyStr.is_space c = false) ->
  PyStr.lstrip (a ++ s) = s.
Proof.
  intros Ha Hs. induction a as [|c a IH].
  - rewrite str_app_nil_l. destruct s as [|c s]; [done|]. simpl. by rewrite (Hs c).
  - simpl in Ha. apply andb_prop in Ha as [Hc Ha].
    rewrite str_app_cons. simpl. rewrite Hc. by apply IH.
Qed.

Lemma rstrip_nonempty c s :
  PyStr.is_space c = false -> PyStr.rstrip (String c s) <> EmptyString.
Proof. intros Hc. simpl. destruct (PyStr.rstrip s); [by rewrite Hc|done]. Qed.

(** * Category headers *)

(** The category that a header names is never empty. *)
Lemma category_of_nonempty raw name :
  category_of raw = Some name -> name <> EmptyString.
Proof.
  unfold category_of, Re.match_, Re.match_at.
  destruct (Re.run _ _ _ _) as [[w caps]|] eqn:H; [|done].
  intros [= <-].
  apply run_sound in H as (w' & st' & caps' & M & H). injection H as -> ->.
  cbv [category_re Re.seq Re.LitCi] in M. invert_matches. simpl.
  done.
Qed.

Lemma is_char_ci_lower c x :
  PyStr.lower_char x = c -> Re.is_char_ci c x = true.
Proof. intros <-. unfold Re.is_char_ci. apply Ascii.eqb_refl. Qed.

Lemma lower_letter_not_space x :
  PyStr.is_alpha (PyStr.lower_char x) = true -> PyStr.is_space x = false.
Proof. destruct x as [[] [] [] [] [] [] [] []]; by vm_compute. Qed.

(** After blanks and an end of line, nothing but blanks was left. *)
Lemma blanks_then_eol {R : Type} st caps (k : @Re.cont R) res :
  Re.run (Re.seq [Re.Star PyStr.is_space; Re.Eol]) st caps k = Some res ->
  PyStr.all_chars PyStr.is_space (Re.rest st) = true.
Proof.
  intros H. apply run_sound in H as (w & st' & caps' & M & _).
  cbv [Re.seq] in M. invert_matches. simpl in *.
  rewrite all_chars_app.
  match goal with H : PyStr.all_chars _ _ = true |- _ => rewrite H end.
  match goal with
  | H : Re.at_eol ?s = true |- _ =>
      destruct s as [|c [|d s]]; try done;
      simpl in H; apply Ascii.eqb_eq in H as ->
  end.
  reflexivity.
Qed.

Lemma lower_letter_not_blank x c :
  PyStr.lower_char x = c -> PyStr.is_alpha c = true -> PyStr.is_space x = false.
Proof. intros <-. apply lower_letter_not_space. Qed.

(** ** The matcher, one part of a sequence at a time *)

Section Steps.
Context {R : Type}.
Implicit Types (k : @Re.cont R) (caps : Re.captures) (l : list Re.regex).

Lemma step_nil st caps k : Re.run (Re.seq []) st caps k = k EmptyString st caps.
Proof. reflexivity. Qed.

Lemma step_bol l s caps k res :
  Re.run (Re.seq l) (Re.State None s) caps k = Some res ->
  Re.run (Re.seq (Re.Bol :: l)) (Re.State None s) caps k = Some res.
Proof. intros H. simpl. erewrite <- H. reflexivity. Qed.

Lemma step_eol l p s caps k res :
  Re.at_eol s = true ->
  Re.run (Re.seq l) (Re.State p s) caps k = Some res ->
  Re.run (Re.seq (Re.Eol :: l)) (Re.State p s) caps k = Some res.
Proof. intros He H. simpl. rewrite He. erewrite <- H. reflexivity. Qed.

Lemma step_chars f l p c s caps k res :
  f c = true ->
  Re.run (Re.seq l) (Re.State (Some c) s) caps
    (fun w => k (String c w)) = Some res ->
  Re.run (Re.seq (Re.Chars f :: l)) (Re.State p (String c s)) caps k = Some res.
Proof. intros Hc H. simpl. rewrite Hc. erewrite <- H. reflexivity. Qed.

Lemma step_star f l p w s' caps k res :
  PyStr.all_chars f w = true ->
  (forall c, Re.next_char s' = Some c -> f c = false) ->
  Re.run (Re.seq l) (Re.State (prev_after p w) s') caps
    (fun w2 => k (w ++ w2)) = Some res ->
  Re.run (Re.seq (Re.Star f :: l)) (Re.State p (w ++ s')) caps k = Some res.
Proof. intros Hw Hn H. simpl. by apply star_greedy. Qed.

Lemma step_lit_ci lit : forall l p kw s caps k res,
  PyStr.lower kw = lit ->
  Re.run (Re.seq l) (Re.State (prev_after p kw) s) caps
    (fun w2 => k (kw ++ w2)) = Some res ->
  Re.run (Re.seq (Re.LitCi lit :: l)) (Re.State p (kw ++ s)) caps k = Some res.
Proof.
  induction lit as [|c lit IH]; intros l p [|x kw] s caps k res Hl H;
    try discriminate Hl.
  - exact H.
  - injection Hl as Hx Hl.
    specialize (IH l (Some x) kw s caps (fun w => k (String x w)) res Hl H).
    rewrite str_app_cons. cbn [Re.LitCi Re.seq Re.run Re.rest] in IH |- *.
    rewrite (is_char_ci_lower _ _ Hx). exact IH.
Qed.

Lemma step_group_lazy n f l p w s' caps k res :
  w <> EmptyString ->
  PyStr.all_chars f w = true ->
  Re.run (Re.seq l) (Re.State (prev_after None w) s') ((n, w) :: caps)
    (fun w2 => k (w ++ w2)) = Some res ->
  (forall w1 w2, w = w1 ++ w2 -> w1 <> EmptyString -> w2 <> EmptyString ->
     Re.run (Re.seq l) (Re.State (prev_after None w1) (w2 ++ s'))
       ((n, w1) :: caps) (fun w' => k (w1 ++ w')) = None) ->
  Re.run (Re.seq (Re.Group n (Re.LazyPlus f) :: l)) (Re.State p (w ++ s')) caps k
    = Some res.
Proof. intros Hne Hw H Hshort. simpl. by apply lazy_plus_first. Qed.
End Steps.

(** The header pattern on a header line: blanks, [#], blanks, the word
    Category in any letter case, blanks, a colon, and a text whose stripped
    form is the name. *)
Lemma category_of_header w1 w2 kw w3 text :
  PyStr.all_chars PyStr.is_space w1 = true ->
  PyStr.all_chars PyStr.is_space w2 = true ->
  PyStr.all_chars PyStr.is_space w3 = true ->
  PyStr.lower kw = "category" ->
  PyStr.strip text <> EmptyString ->
  PyStr.all_chars PyStr.is_dot (PyStr.strip text) = true ->
  category_of (w1 ++ "#" ++ w2 ++ kw ++ w3 ++ ":" ++ text) = Some (PyStr.strip text).
Proof.
  intros Hw1 Hw2 Hw3 Hkw Hne Hdot.
  destruct (strip_spec text Hne) as (a & b & E & Ha & Hb & Hfirst & Hlast).
  remember (PyStr.strip text) as name eqn:Hname. clear Hname. subst text.
  assert (Hk1 : forall s c, Re.next_char (kw ++ s) = Some c -> PyStr.is_space c = false).
  { intros s c. destruct kw as [|x kw]; [done|]. rewrite str_app_cons.
    intros [= <-]. injection Hkw as Hx _. by apply (lower_letter_not_blank _ _ Hx). }
  enough (exists W, Re.match_ category_re
            (w1 ++ "#" ++ w2 ++ kw ++ w3 ++ ":" ++ a ++ name ++ b)
          = Some (W, [(1, name)])) as [W HW].
  { unfold category_of. by rewrite HW. }
  eexists. unfold Re.match_, Re.match_at, category_re.
  apply step_bol.
  apply step_star; [done|by intros c [= <-]|].
  rewrite str_app_cons, str_app_nil_l. apply step_chars; [done|].
  apply step_star; [done|apply Hk1|].
  apply step_lit_ci; [done|].
  apply step_star; [done|by intros c [= <-]|].
  rewrite str_app_cons, str_app_nil_l. apply step_chars; [done|].
  apply step_star; [done| |].
  { intros c. destruct name as [|x name]; [done|]. rewrite str_app_cons.
    intros [= <-]. by apply Hfirst. }
  apply step_group_lazy; [done|done| |].
  - rewrite <- (str_app_nil_r b) at 1.
    apply step_star; [done|by intros c [=]|].
    apply step_eol; [done|]. rewrite step_nil. reflexivity.
  - intros u v -> Hu Hv.
    destruct (Re.run _ _ _ _) eqn:Hrun; [|done].
    apply blanks_then_eol in Hrun. simpl in Hrun.
    rewrite all_chars_app in Hrun. apply andb_prop in Hrun as [Hrun _].
    by rewrite (Hlast u v) in Hrun.
Qed.

(** A header with nothing but blanks after the colon: the pattern takes
    the last blank before the end of the line as the name. *)
Lemma category_of_blank_text :
  category_of ("# Category:  " ++ nl) = Some " ".
Proof. vm_compute. reflexivity. Qed.

(** * Display rounding never fails on a float *)

Lemma string_of_uint_digits d :
  PyStr.all_chars PyStr.is_digit (NilEmpty.string_of_uint d) = true.
Proof. induction d; simpl; try done; by rewrite IHd. Qed.

(** [str(n)] of an integer that is not negative: a digit, then digits. *)
Lemma str_of_Z_digits n :
  (0 <= n)%Z ->
  exists c r, PyFloat.str_of_Z n = String c r
    /\ PyStr.is_digit c = true /\ PyStr.all_chars PyStr.is_digit r = true.
Proof.
  intros Hn. unfold PyFloat.str_of_Z.
  assert (Hd : forall d, exists c r,
            NilZero.string_of_uint d = String c r
            /\ PyStr.is_digit c = true
            /\ PyStr.all_chars PyStr.is_digit r = true).
  { intros d. pose proof (string_of_uint_digits d) as H.
    destruct d; simpl in *; eauto. }
  destruct n as [|p|p]; [|exact (Hd (Pos.to_uint p))|lia].
  exists "0"%char, EmptyString. by repeat split.
Qed.

Lemma span_all f s :
  PyStr.all_chars f s = true -> PyFloat.span f s = (s, EmptyString).
Proof.
  induction s as [|c s IH]; simpl; [done|].
  intros [Hc Hs]%andb_prop. by rewrite Hc, IH.
Qed.

Lemma span_app f a b :
  PyStr.all_chars f a = true ->
  (forall c, Re.next_char b = Some c -> f c = false) ->
  PyFloat.span f (a ++ b) = (a, b).
Proof.
  intros Ha Hb. induction a as [|c a IH].
  - rewrite str_app_nil_l. destruct b as [|c b]; simpl; [done|].
    by rewrite (Hb c).
  - simpl in Ha. apply andb_prop in Ha as [Hc Ha].
    rewrite str_app_cons. simpl. by rewrite Hc, IH.
Qed.

Lemma decimal_char_plain c :
  is_decimal_char c = true ->
  PyStr.is_space c = false /\ PyStr.lower_char c = c.
Proof. destruct c as [[] [] [] [] [] [] [] []]; by vm_compute. Qed.

Lemma digit_is_decimal_char c :
  PyStr.is_digit c = true -> is_decimal_char c = true.
Proof. intros H. unfold is_decimal_char. by rewrite H. Qed.

Lemma digits_are_decimal_chars s :
  PyStr.all_chars PyStr.is_digit s = true ->
  PyStr.all_chars is_decimal_char s = true.
Proof.
  induction s as [|c s IH]; simpl; [done|].
  intros [Hc Hs]%andb_prop. by rewrite digit_is_decimal_char, IH.
Qed.

Lemma lower_plain s :
  PyStr.all_chars is_decimal_char s = true -> PyStr.lower s = s.
Proof.
  induction s as [|c s IH]; simpl; [done|].
  intros [Hc Hs]%andb_prop.
  destruct (decimal_char_plain c Hc) as [_ ->]. by rewrite IH.
Qed.

Lemma rstrip_plain s :
  PyStr.all_chars is_decimal_char s = true -> PyStr.rstrip s = s.
Proof.
  induction s as [|c s IH]; simpl; [done|].
  intros [Hc Hs]%andb_prop.
  destruct (decimal_char_plain c Hc) as [-> _]. rewrite IH by done.
  by destruct s.
Qed.

Lemma strip_plain s :
  PyStr.all_chars is_decimal_char s = true -> PyStr.strip s = s.
Proof.
  intros H. unfold PyStr.strip.
  assert (PyStr.lstrip s = s) as ->; [|by apply rstrip_plain].
  destruct s as [|c s]; simpl in *; [done|].
  apply andb_prop in H as [Hc _].
  by destruct (decimal_char_plain c Hc) as [-> _].
Qed.

(** A text made of digits, a point and digits is read as a float. *)
Lemma of_string_fixed neg c q f :
  PyStr.is_digit c = true ->
  PyStr.all_chars PyStr.is_digit q = true ->
  PyStr.all_chars PyStr.is_digit f = true ->
  PyFloat.of_string (PyFloat.sign_text neg ++ String c q ++ "." ++ f)
  = Some (PyFloat.of_decimal neg
            (PyFloat.digits_value 0 (String c q ++ f))
            (- Z.of_nat (String.length f))).
Proof.
  intros Hc Hq Hf.
  assert (Hplain : PyStr.all_chars is_decimal_char
                     (PyFloat.sign_text neg ++ String c q ++ "." ++ f) = true).
  { rewrite !all_chars_app. rewrite (digits_are_decimal_chars f Hf).
    rewrite (digits_are_decimal_chars (String c q)) by (simpl; by rewrite Hc).
    by destruct neg. }
  unfold PyFloat.of_string. rewrite strip_plain, lower_plain by done.
  assert (Hsign :
    match PyFloat.sign_text neg ++ String c q ++ "." ++ f with
    | String "-" r => (true, r)
    | String "+" r => (false, r)
    | _ => (false, PyFloat.sign_text neg ++ String c q ++ "." ++ f)
    end = (neg, String c (q ++ "." ++ f))).
  { destruct neg; [reflexivity|].
    rewrite str_app_nil_l, str_app_cons.
    destruct c as [[] [] [] [] [] [] [] []]; try discriminate Hc; reflexivity. }
  rewrite Hsign.
  assert (Hnot : forall w, String.eqb (String c (q ++ "." ++ f)) w = false
                           \/ ~ PyStr.is_alpha (match w with
                                                | String d _ => d
                                                | _ => "a"%char
                                                end) = true).
  { intros [|d w]; [by left|]. simpl.
    destruct (Ascii.eqb c d) eqn:E; [|by left].
    apply Ascii.eqb_eq in E as <-. right.
    destruct c as [[] [] [] [] [] [] [] []]; try discriminate Hc; by vm_compute. }
  destruct (Hnot "inf") as [->|H]; [|by destruct H].
  destruct (Hnot "infinity") as [->|H]; [|by destruct H].
  destruct (Hnot "nan") as [->|H]; [|by destruct H].
  cbn [orb].
  rewrite <- str_app_cons.
  rewrite (span_app PyStr.is_digit (String c q) ("." ++ f));
    [|simpl; by rewrite Hc|by intros d [= <-]].
  rewrite str_app_cons, str_app_nil_l, span_all by done.
  reflexivity.
Qed.

Lemma scaled_pos m e k n d :
  PyFloat.scaled m e k = (n, d) -> (0 < n)%Z /\ (0 < d)%Z.
Proof.
  unfold PyFloat.scaled.
  destruct (0 <=? e)%Z eqn:He; destruct (0 <=? k)%Z eqn:Hk;
    intros [= <- <-]; split;
    repeat apply Z.mul_pos_pos; try apply Z.pow_pos_nonneg; lia.
Qed.

(** [float(f"{x:.2f}")] is defined for every float. *)
Lemma round2_total x : exists y, round2 x = Some y.
Proof.
  unfold round2. destruct x as [s|s| |s m e].
  - destruct s; eexists; vm_compute; reflexivity.
  - destruct s; eexists; vm_compute; reflexivity.
  - eexists; vm_compute; reflexivity.
  - unfold PyFloat.to_fixed2.
    destruct (PyFloat.scaled m e 2) as [n d] eqn:Hs.
    set (h := PyFloat.div_half_even n d).
    assert (Hh : (0 <= h)%Z).
    { unfold h, PyFloat.div_half_even.
      destruct (scaled_pos _ _ _ _ _ Hs) as [Hn Hd].
      assert (0 <= n / d)%Z by (apply Z.div_pos; lia).
      destruct (2 * (n mod d) ?= d)%Z; [destruct (Z.even _)| |]; lia. }
    destruct (str_of_Z_digits (h / 100)) as (c & q & -> & Hc & Hq).
    { apply Z.div_pos; lia. }
    destruct (str_of_Z_digits (h mod 100)) as (c' & q' & E & Hc' & Hq').
    { apply Z.mod_pos_bound. lia. }
    set (pad := if (h mod 100 <? 10)%Z then "0" else EmptyString).
    set (f := pad ++ PyFloat.str_of_Z (h mod 100)).
    assert (Hf : PyStr.all_chars PyStr.is_digit f = true).
    { unfold f, pad. rewrite all_chars_app, E. simpl. rewrite Hc', Hq'.
      by destruct (h mod 100 <? 10)%Z. }
    change (PyFloat.sign_text s ++ String c q ++ "." ++ pad
            ++ PyFloat.str_of_Z (h mod 100))
      with (PyFloat.sign_text s ++ String c q ++ "." ++ f).
    rewrite of_string_fixed by done. eauto.
Qed.

(** * Numeric strings *)

Section Succeeds.
Context {R : Type}.
Implicit Types (k : @Re.cont R) (caps : Re.captures) (l : list Re.regex).

(** An optional part that can be left out: the matcher succeeds when what
    follows succeeds without it. *)
Lemma opt_succeeds r l st caps k :
  is_Some (Re.run (Re.seq l) st caps (fun w2 => k (EmptyString ++ w2))) ->
  is_Some (Re.run (Re.seq (Re.Opt r :: l)) st caps k).
Proof.
  intros H. cbn [Re.seq Re.run].
  destruct (Re.run r st caps _); [done|exact H].
Qed.

Lemma opt_taken_succeeds r l st caps k :
  is_Some (Re.run (Re.seq (r :: l)) st caps k) ->
  is_Some (Re.run (Re.seq (Re.Opt r :: l)) st caps k).
Proof.
  intros [res H]. cbn [Re.seq Re.run] in H |- *. by rewrite H.
Qed.

Lemma chars_succeeds f l p c s caps k :
  f c = true ->
  is_Some (Re.run (Re.seq l) (Re.State (Some c) s) caps
             (fun w => k (String c w))) ->
  is_Some (Re.run (Re.seq (Re.Chars f :: l)) (Re.State p (String c s)) caps k).
Proof. intros Hc [res H]. exists res. by apply step_chars. Qed.

Lemma star_succeeds f l p w s' caps k :
  PyStr.all_chars f w = true ->
  (forall c, Re.next_char s' = Some c -> f c = false) ->
  is_Some (Re.run (Re.seq l) (Re.State (prev_after p w) s') caps
             (fun w2 => k (w ++ w2))) ->
  is_Some (Re.run (Re.seq (Re.Star f :: l)) (Re.State p (w ++ s')) caps k).
Proof. intros Hw Hn [res H]. exists res. by apply step_star. Qed.

Lemma star_empty_succeeds f l p s' caps k :
  (forall c, Re.next_char s' = Some c -> f c = false) ->
  is_Some (Re.run (Re.seq l) (Re.State p s') caps k) ->
  is_Some (Re.run (Re.seq (Re.Star f :: l)) (Re.State p s') caps k).
Proof. intros Hn H. by apply (star_succeeds f l p EmptyString s'). Qed.
End Succeeds.

Section Succeeds2.
Context {R : Type}.
Implicit Types (k : @Re.cont R) (caps : Re.captures) (l : list Re.regex).

Lemma bol_succeeds l s caps k :
  is_Some (Re.run (Re.seq l) (Re.State None s) caps k) ->
  is_Some (Re.run (Re.seq (Re.Bol :: l)) (Re.State None s) caps k).
Proof. intros [res H]. exists res. by apply step_bol. Qed.

Lemma eol_succeeds l p s caps k :
  Re.at_eol s = true ->
  is_Some (Re.run (Re.seq l) (Re.State p s) caps k) ->
  is_Some (Re.run (Re.seq (Re.Eol :: l)) (Re.State p s) caps k).
Proof. intros He [res H]. exists res. by apply step_eol. Qed.

Lemma plus_succeeds f l p c w s' caps k :
  f c = true ->
  PyStr.all_chars f w = true ->
  (forall x, Re.next_char s' = Some x -> f x = false) ->
  is_Some (Re.run (Re.seq l) (Re.State (prev_after (Some c) w) s') caps
             (fun w2 => k (String c w ++ w2))) ->
  is_Some (Re.run (Re.seq (Re.Plus f :: l)) (Re.State p (String c (w ++ s')))
             caps k).
Proof.
  intros Hc Hw Hn [res H]. exists res.
  cbn [Re.seq Re.Plus Re.run Re.rest Re.prev]. rewrite Hc.
  by apply star_greedy.
Qed.

Lemma group_succeeds n l' l st caps k :
  is_Some (Re.run (Re.seq l') st caps
             (fun w st' caps' =>
                Re.run (Re.seq l) st' ((n, w) :: caps')
                  (fun w2 => k (w ++ w2)))) ->
  is_Some (Re.run (Re.seq (Re.Group n (Re.seq l') :: l)) st caps k).
Proof. intros H. exact H. Qed.
End Succeeds2.

Lemma next_char_app a b :
  Re.next_char (a ++ b)
  = match a with
    | EmptyString => Re.next_char b
    | String c _ => Some c
    end.
Proof. by destruct a. Qed.
Ltac invert_cat :=
  repeat match goal with
  | H : matches (Re.Cat _ _) _ _ _ _ _ |- _ => inversion H; subst; clear H
  end.

Lemma is_char_eq c x : Re.is_char c x = true -> x = c.
Proof. unfold Re.is_char. by intros ->%Ascii.eqb_eq. Qed.

Lemma is_char_ci_e x : Re.is_char_ci "e" x = true -> x = "e"%char \/ x = "E"%char.
Proof.
  destruct x as [[] [] [] [] [] [] [] []]; vm_compute; try done; auto.
Qed.

Lemma at_eol_cases s : Re.at_eol s = true -> s = EmptyString \/ s = nl.
Proof.
  destruct s as [|c [|d s]]; simpl; try done; [by left|].
  intros ->%Ascii.eqb_eq. by right.
Qed.

(** What an optional character has read. *)
Lemma matches_opt_char c st caps w st' caps' :
  matches (Re.Opt (Re.Chars (Re.is_char c))) st caps w st' caps' ->
  w = EmptyString \/ w = String c EmptyString.
Proof.
  inversion 1 as [| | |? ? ? ? ? ? M| | | | | | |]; subst; [|by left].
  inversion M; subst. right.
  match goal with H : Re.is_char _ _ = true |- _ =>
    by apply is_char_eq in H as -> end.
Qed.

Lemma matches_star_chars f st caps w st' caps' :
  matches (Re.Star f) st caps w st' caps' -> PyStr.all_chars f w = true.
Proof. by inversion 1. Qed.

(** What the digits of a number have read. *)
Lemma matches_digits st caps w st' caps' :
  matches (Re.Plus PyStr.is_digit) st caps w st' caps' ->
  w <> EmptyString /\ PyStr.all_chars PyStr.is_digit w = true.
Proof.
  unfold Re.Plus. intros M. invert_matches. rewrite str_app_cons.
  split; [done|]. cbn [PyStr.all_chars].
  by repeat match goal with H : _ = true |- _ => rewrite H; clear H end.
Qed.

(** What the exponent of the numeric pattern has read. *)
Lemma matches_exponent st caps w st' caps' :
  matches
    (Re.Opt (Re.Group 1
       (Re.seq [ Re.Chars (Re.is_char_ci "e");
                 Re.Opt (Re.Chars (fun c => Re.is_char "+" c || Re.is_char "-" c));
                 Re.Plus PyStr.is_digit ])))
    st caps w st' caps' ->
  is_exponent w.
Proof.
  inversion 1 as [| | |? ? ? ? ? ? M| | | | | | |]; subst; [|by left].
  cbv [Re.seq] in M. inversion M as [| | | | | | |? ? ? ? ? ? ? M1| | |]; subst.
  inversion M1 as [| |? ? ? ? ? ? ? ? ? ? Me M2| | | | | | | |]; subst.
  inversion M2 as [| |? ? ? ? ? ? ? ? ? ? Ms M3| | | | | | | |]; subst.
  inversion M3 as [| |? ? ? ? ? ? ? ? ? ? Md M4| | | | | | | |]; subst.
  inversion M4; subst. apply matches_digits in Md as [Hne Hd].
  inversion Me as [|? ? e ? ? He| | | | | | | | |]; subst.
  apply is_char_ci_e in He.
  right. rewrite str_app_cons, str_app_nil_l, str_app_nil_r.
  eexists e, _, _. split; [reflexivity|]. split; [done|].
  split; [|done].
  inversion Ms as [| | |? ? ? ? ? ? Mc| | | | | | |]; subst; [|by left].
  inversion Mc as [|? ? x ? ? Hx| | | | | | | | |]; subst.
  apply orb_prop in Hx as [Hx|Hx];
    [apply (is_char_eq "+") in Hx as ->|apply (is_char_eq "-") in Hx as ->];
    auto.
Qed.

Lemma numeric_string_form s : is_numeric_string s = true -> numeric_form s.
Proof.
  unfold is_numeric_string, Re.match_, Re.match_at.
  destruct (Re.run _ _ _ _) as [[w caps]|] eqn:H; [|done]. intros _.
  apply run_sound in H as (w' & st' & caps' & M & _).
  destruct (matches_reads _ _ _ _ _ _ M) as [E _]. simpl in E. subst s.
  cbv [numeric_re Re.seq] in M.
  inversion M as [| |? ? ? ? ? ? ? ? ? ? Mb M1| | | | | | | |]; subst.
  inversion M1 as [| |? ? ? ? ? ? ? ? ? ? Msg M2| | | | | | | |]; subst.
  inversion M2 as [| |? ? ? ? ? ? ? ? ? ? Mip M3| | | | | | | |]; subst.
  inversion M3 as [| |? ? ? ? ? ? ? ? ? ? Mdot M4| | | | | | | |]; subst.
  inversion M4 as [| |? ? ? ? ? ? ? ? ? ? Mfp M5| | | | | | | |]; subst.
  inversion M5 as [| |? ? ? ? ? ? ? ? ? ? Mex M6| | | | | | | |]; subst.
  inversion M6 as [| |? ? ? ? ? ? ? ? ? ? Meol M7| | | | | | | |]; subst.
  inversion M7; subst. inversion Mb; subst.
  inversion Meol as [| | | | | | | | |? ? Hend|]; subst.
  apply at_eol_cases in Hend.
  apply matches_opt_char in Msg, Mdot.
  apply matches_digits in Mip as [Hne Hip].
  apply matches_exponent in Mex.
  apply matches_star_chars in Mfp.
  clear M M1 M2 M3 M4 M5 M6 M7 Mb Meol.
  rewrite !str_app_nil_l, !str_app_nil_r, !str_app_assoc.
  destruct Mdot as [->| ->].
  - match goal with |- numeric_form (?sg ++ ?ip ++ _ ++ ?fp ++ ?ex ++ ?tl) =>
      exists sg, (ip ++ fp), EmptyString, ex, tl end.
    rewrite !str_app_nil_l, !str_app_assoc, all_chars_app, Hip, Mfp.
    repeat split; try done; [|by left].
    match goal with |- ?a ++ _ <> _ => by destruct a end.
  - match goal with |- numeric_form (?sg ++ ?ip ++ _ ++ ?fp ++ ?ex ++ ?tl) =>
      exists sg, ip, ("." ++ fp), ex, tl; rewrite !str_app_assoc;
      repeat split; try done; right; by exists fp end.
Qed.
Lemma tail_next tl x :
  tl = EmptyString \/ tl = nl ->
  Re.next_char tl = Some x -> PyStr.is_digit x = false.
Proof. by intros [->| ->]; [|intros [= <-]]. Qed.

Lemma exponent_next ex tl x :
  is_exponent ex -> tl = EmptyString \/ tl = nl ->
  Re.next_char (ex ++ tl) = Some x -> PyStr.is_digit x = false.
Proof.
  intros [->|(e & sg & ds & -> & He & _)] Htl; [by apply tail_next|].
  rewrite str_app_cons. intros [= <-]. by destruct He as [->| ->].
Qed.

Lemma fraction_next fr ex tl x :
  is_fraction fr -> is_exponent ex -> tl = EmptyString \/ tl = nl ->
  Re.next_char (fr ++ ex ++ tl) = Some x -> PyStr.is_digit x = false.
Proof.
  intros [->|(fp & -> & _)] Hex Htl;
    [rewrite str_app_nil_l; by apply exponent_next|].
  rewrite str_app_cons. by intros [= <-].
Qed.

Section NumericPattern.
Context {R : Type}.
Implicit Types (k : @Re.cont R) (caps : Re.captures).

(** The last parts of the numeric pattern, on an exponent and the end of
    the text. *)
Lemma exponent_succeeds p ex tl caps k :
  (forall w st caps', is_Some (k w st caps')) ->
  is_exponent ex -> tl = EmptyString \/ tl = nl ->
  is_Some
    (Re.run
       (Re.seq
          [ Re.Opt (Re.Group 1
              (Re.seq [ Re.Chars (Re.is_char_ci "e");
                        Re.Opt (Re.Chars (fun c => Re.is_char "+" c
                                                   || Re.is_char "-" c));
                        Re.Plus PyStr.is_digit ]));
            Re.Eol ])
       (Re.State p (ex ++ tl)) caps k).
Proof.
  intros Hk Hex Htl.
  assert (Hend : Re.at_eol tl = true) by (by destruct Htl as [->| ->]).
  destruct Hex as [->|(e & sg & ds & -> & He & Hsg & Hds & Hd)].
  { rewrite str_app_nil_l. apply opt_succeeds, eol_succeeds; [done|].
    rewrite step_nil. apply Hk. }
  destruct ds as [|d ds]; [done|]. simpl in Hd.
  apply andb_prop in Hd as [Hd Hds'].
  rewrite str_app_cons, str_app_assoc.
  apply opt_taken_succeeds, group_succeeds, chars_succeeds;
    [by destruct He as [->| ->]|].
  assert (Hdigits : forall p' k2,
            (forall w p2 caps', is_Some (k2 w (Re.State p2 tl) caps')) ->
            is_Some (Re.run (Re.seq [Re.Plus PyStr.is_digit])
                       (Re.State p' (String d ds ++ tl)) caps k2)).
  { intros p' k2 Hk2. rewrite str_app_cons.
    apply plus_succeeds; [done|done|by intros x; apply tail_next|].
    rewrite step_nil. apply Hk2. }
  assert (Hrest : forall c w p2 caps',
            is_Some (Re.run (Re.seq [Re.Eol]) (Re.State p2 tl) caps'
                       (fun w2 => k (String c w ++ w2)))).
  { intros c w p2 caps'. apply eol_succeeds; [done|].
    rewrite step_nil. apply Hk. }
  destruct Hsg as [->|[->| ->]].
  - rewrite str_app_nil_l. apply opt_succeeds, Hdigits.
    intros w p2 caps'. apply Hrest.
  - rewrite (str_app_cons "+"), str_app_nil_l.
    apply opt_taken_succeeds, chars_succeeds; [done|]. apply Hdigits.
    intros w p2 caps'. apply Hrest.
  - rewrite (str_app_cons "-"), str_app_nil_l.
    apply opt_taken_succeeds, chars_succeeds; [done|]. apply Hdigits.
    intros w p2 caps'. apply Hrest.
Qed.

(** The numeric pattern after the first digits, on a fraction, an
    exponent and the end of the text. *)
Lemma fraction_succeeds p fr ex tl caps k :
  (forall w st caps', is_Some (k w st caps')) ->
  is_fraction fr -> is_exponent ex -> tl = EmptyString \/ tl = nl ->
  is_Some
    (Re.run
       (Re.seq
          [ Re.Opt (Re.Chars (Re.is_char "."));
            Re.Star PyStr.is_digit;
            Re.Opt (Re.Group 1
              (Re.seq [ Re.Chars (Re.is_char_ci "e");
                        Re.Opt (Re.Chars (fun c => Re.is_char "+" c
                                                   || Re.is_char "-" c));
                        Re.Plus PyStr.is_digit ]));
            Re.Eol ])
       (Re.State p (fr ++ ex ++ tl)) caps k).
Proof.
  intros Hk Hfr Hex Htl.
  pose proof (fun x => exponent_next ex tl x Hex Htl) as Hnext.
  destruct Hfr as [->|(fp & -> & Hfp)].
  - rewrite str_app_nil_l. apply opt_succeeds, star_empty_succeeds; [done|].
    apply exponent_succeeds; [|done..]. intros w st caps'. apply Hk.
  - rewrite (str_app_cons ".").
    apply opt_taken_succeeds, chars_succeeds; [done|].
    apply star_succeeds; [done|done|].
    apply exponent_succeeds; [|done..]. intros w st caps'. apply Hk.
Qed.
End NumericPattern.

Lemma numeric_form_string s : numeric_form s -> is_numeric_string s = true.
Proof.
  intros (sg & ip & fr & ex & tl & -> & Hsg & Hne & Hip & Hfr & Hex & Htl).
  enough (is_Some (Re.match_ numeric_re (sg ++ ip ++ fr ++ ex ++ tl)))
    as [[w caps] H] by (unfold is_numeric_string; by rewrite H).
  unfold Re.match_, Re.match_at, numeric_re.
  destruct ip as [|c ip]; [done|]. simpl in Hip.
  apply andb_prop in Hip as [Hc Hip].
  assert (Hrest : forall p k,
            (forall w st caps, is_Some (k w st caps)) ->
            is_Some
              (Re.run
                 (Re.seq
                    [ Re.Plus PyStr.is_digit;
                      Re.Opt (Re.Chars (Re.is_char "."));
                      Re.Star PyStr.is_digit;
                      Re.Opt (Re.Group 1
                        (Re.seq [ Re.Chars (Re.is_char_ci "e");
                                  Re.Opt (Re.Chars
                                    (fun c => Re.is_char "+" c
                                              || Re.is_char "-" c));
                                  Re.Plus PyStr.is_digit ]));
                      Re.Eol ])
                 (Re.State p (String c ip ++ fr ++ ex ++ tl)) []
                 (k : @Re.cont (string * Re.captures)))).
  { intros p k Hk. rewrite str_app_cons.
    apply plus_succeeds; [done|done|by intros x; apply fraction_next|].
    apply fraction_succeeds; [|done..]. intros w st caps. apply Hk. }
  apply bol_succeeds.
  destruct Hsg as [->| ->].
  - rewrite str_app_nil_l. apply opt_succeeds, Hrest. eauto.
  - rewrite (str_app_cons "-"), str_app_nil_l.
    apply opt_taken_succeeds, chars_succeeds; [done|]. apply Hrest. eauto.
Qed.

(** X11. [is_numeric_string] accepts exactly the decimal numbers as text: an
    optional minus sign, one digit or more, an optional point with the
    digits after it (there may be none), an optional exponent with e in
    either case, and possibly one newline at the very end. *)
Theorem numeric_string_grammar (s : string) :
  is_numeric_string s = true <-> numeric_form s.
Proof. split; [apply numeric_string_form|apply numeric_form_string]. Qed.
(** * Numeric strings are read as floats *)

Lemma lower_app a b : PyStr.lower (a ++ b) = PyStr.lower a ++ PyStr.lower b.
Proof.
  induction a as [|c a IH]; [done|].
  rewrite str_app_cons. simpl. by rewrite IH, str_app_cons.
Qed.

Lemma rstrip_app_blank a b :
  PyStr.all_chars PyStr.is_space b = true ->
  PyStr.rstrip (a ++ b) = PyStr.rstrip a.
Proof.
  intros Hb.
  assert (H0 : PyStr.rstrip b = EmptyString).
  { induction b as [|c b IH]; [done|]. simpl in Hb |- *.
    apply andb_prop in Hb as [Hc Hb]. by rewrite IH, Hc. }
  induction a as [|c a IH]; [by rewrite str_app_nil_l|].
  rewrite str_app_cons. simpl. by rewrite IH.
Qed.

Lemma rstrip_no_blank s :
  PyStr.all_chars (fun c => negb (PyStr.is_space c)) s = true ->
  PyStr.rstrip s = s.
Proof.
  induction s as [|c s IH]; simpl; [done|].
  intros [Hc Hs]%andb_prop. rewrite IH by done.
  apply negb_true_iff in Hc. rewrite Hc. by destruct s.
Qed.

(** A text without blanks, followed by blanks only: [strip] gives the
    text. *)
Lemma strip_no_blank_app s b :
  PyStr.all_chars (fun c => negb (PyStr.is_space c)) s = true ->
  PyStr.all_chars PyStr.is_space b = true ->
  PyStr.strip (s ++ b) = s.
Proof.
  intros Hs Hb. unfold PyStr.strip. destruct s as [|c s].
  - rewrite str_app_nil_l.
    assert (PyStr.lstrip b = EmptyString) as ->; [|done].
    induction b as [|x b IH]; [done|]. simpl in Hb |- *.
    apply andb_prop in Hb as [Hx Hb]. rewrite Hx. by apply IH.
  - assert (PyStr.lstrip (String c s ++ b) = String c s ++ b) as ->.
    { rewrite str_app_cons. simpl in Hs |- *.
      apply andb_prop in Hs as [Hc _]. apply negb_true_iff in Hc.
      by rewrite Hc. }
    by rewrite rstrip_app_blank, rstrip_no_blank.
Qed.

Lemma lower_digits s :
  PyStr.all_chars PyStr.is_digit s = true -> PyStr.lower s = s.
Proof. intros H. by apply lower_plain, digits_are_decimal_chars. Qed.

(** The lower-case form of an exponent. *)
Lemma lower_exponent ex :
  is_exponent ex ->
  PyStr.lower ex = EmptyString
  \/ exists sg d ds,
       PyStr.lower ex = String "e" (sg ++ String d ds)
       /\ (sg = EmptyString \/ sg = "+" \/ sg = "-")
       /\ PyStr.is_digit d = true
       /\ PyStr.all_chars PyStr.is_digit ds = true.
Proof.
  intros [->|(e & sg & ds & -> & He & Hsg & Hds & Hd)]; [by left|].
  right. destruct ds as [|d ds]; [done|].
  exists sg, d, ds. pose proof Hd as Hd'. simpl in Hd'.
  apply andb_prop in Hd' as [Hd1 Hd2].
  repeat split; try done.
  cbn [PyStr.lower]. rewrite lower_app, (lower_digits _ Hd).
  f_equal; [by destruct He as [->| ->]|].
  by destruct Hsg as [->|[->| ->]].
Qed.

Lemma number_is_stripped sg ip fr ex tl :
  (sg = EmptyString \/ sg = "-") ->
  ip <> EmptyString -> PyStr.all_chars PyStr.is_digit ip = true ->
  is_fraction fr -> is_exponent ex -> (tl = EmptyString \/ tl = nl) ->
  PyStr.lower (PyStr.strip (sg ++ ip ++ fr ++ ex ++ tl))
  = sg ++ ip ++ fr ++ PyStr.lower ex.
Proof.
  intros Hsg Hne Hip Hfr Hex Htl.
  assert (Hns : forall c, PyStr.is_digit c = true -> PyStr.is_space c = false).
  { intros c Hc. by destruct (decimal_char_plain c (digit_is_decimal_char c Hc)). }
  assert (Hbody : PyStr.all_chars (fun c => negb (PyStr.is_space c))
                    (sg ++ ip ++ fr ++ ex) = true).
  { assert (Hd : forall s, PyStr.all_chars PyStr.is_digit s = true ->
                   PyStr.all_chars (fun c => negb (PyStr.is_space c)) s = true).
    { induction s as [|c s IH]; simpl; [done|].
      intros [Hc Hs]%andb_prop. by rewrite (Hns c Hc), IH. }
    rewrite !all_chars_app, (Hd ip Hip).
    destruct Hsg as [->| ->];
      (destruct Hfr as [->|(fp & -> & Hfp)];
       [|cbn [PyStr.all_chars]; rewrite (Hd fp Hfp)]);
      (destruct Hex as [->|(e & sg' & ds & -> & He & Hsg' & Hds & Hds')];
       [done|]);
      cbn [PyStr.all_chars]; rewrite all_chars_app, (Hd ds Hds');
      by destruct He as [->| ->]; destruct Hsg' as [->|[->| ->]]. }
  assert (Htail : PyStr.all_chars PyStr.is_space tl = true)
    by (by destruct Htl as [->| ->]).
  replace (sg ++ ip ++ fr ++ ex ++ tl) with ((sg ++ ip ++ fr ++ ex) ++ tl)
    by (by rewrite !str_app_assoc).
  rewrite strip_no_blank_app by done.
  rewrite !lower_app, (lower_digits ip Hip).
  f_equal; [by destruct Hsg as [->| ->]|]. f_equal. f_equal.
  destruct Hfr as [->|(fp & -> & Hfp)]; [done|].
  cbn [PyStr.lower]. by rewrite (lower_digits fp Hfp).
Qed.


Lemma digit_head_sign c r :
  PyStr.is_digit c = true ->
  match String c r with
  | String "-" r' => (true, r')
  | String "+" r' => (false, r')
  | _ => (false, String c r)
  end = (false, String c r).
Proof.
  intros Hc.
  destruct c as [[] [] [] [] [] [] [] []]; try discriminate Hc; reflexivity.
Qed.

Lemma digit_head_point c r :
  PyStr.is_digit c = true \/ c = "e"%char ->
  match String c r with
  | String "." r' => PyFloat.span PyStr.is_digit r'
  | _ => (EmptyString, String c r)
  end = (EmptyString, String c r).
Proof.
  intros [Hc| ->]; [|reflexivity].
  destruct c as [[] [] [] [] [] [] [] []]; try discriminate Hc; reflexivity.
Qed.

Lemma digit_head_eqb c r w :
  PyStr.is_digit c = true ->
  match w with
  | String d _ => PyStr.is_digit d = false
  | EmptyString => True
  end ->
  String.eqb (String c r) w = false.
Proof.
  intros Hc Hw. destruct w as [|d w]; [done|]. simpl.
  destruct (Ascii.eqb_spec c d) as [<-|]; [|done]. by rewrite Hc in Hw.
Qed.

(** [float] reads every text of the numeric form. *)
Lemma of_string_number s :
  numeric_form s -> is_Some (PyFloat.of_string s).
Proof.
  intros (sg & ip & fr & ex & tl & -> & Hsg & Hne & Hip & Hfr & Hex & Htl).
  unfold PyFloat.of_string. rewrite number_is_stripped by done.
  destruct ip as [|c ip]; [done|]. pose proof Hip as Hip'. simpl in Hip'.
  apply andb_prop in Hip' as [Hc Hip'].
  apply lower_exponent in Hex. set (ex' := PyStr.lower ex) in *.
  assert (Hsign :
    match sg ++ String c ip ++ fr ++ ex' with
    | String "-" r => (true, r)
    | String "+" r => (false, r)
    | _ => (false, sg ++ String c ip ++ fr ++ ex')
    end = (if String.eqb sg "-" then true else false,
           String c ip ++ fr ++ ex')).
  { destruct Hsg as [->| ->]; [|reflexivity].
    rewrite str_app_nil_l, str_app_cons. by apply digit_head_sign. }
  rewrite Hsign. rewrite str_app_cons.
  rewrite !(digit_head_eqb c) by done. cbn [orb].
  rewrite <- str_app_cons.
  assert (Hnext : forall x, Re.next_char ex' = Some x -> PyStr.is_digit x = false).
  { intros x. destruct Hex as [->|(sg' & d & ds & -> & _)]; [done|].
    by intros [= <-]. }
  rewrite (span_app PyStr.is_digit (String c ip) (fr ++ ex')); [|done|].
  2: { intros x. destruct Hfr as [->|(fp & -> & _)]; [apply Hnext|].
       rewrite str_app_cons. by intros [= <-]. }
  assert (exists fp,
    match fr ++ ex' with
    | String "." r => PyFloat.span PyStr.is_digit r
    | _ => (EmptyString, fr ++ ex')
    end = (fp, ex')) as [fp ->].
  { destruct Hfr as [->|(fp & -> & Hfp)].
    - exists EmptyString. rewrite str_app_nil_l.
      destruct Hex as [->|(sg' & d & ds & -> & _)]; reflexivity.
    - exists fp. rewrite str_app_cons. by rewrite span_app. }
  cbn [String.eqb andb].
  destruct Hex as [->|(sg' & d & ds & -> & Hsg' & Hd & Hds)]; [done|].
  assert (exists eneg,
    match sg' ++ String d ds with
    | String "-" r' => (true, r')
    | String "+" r' => (false, r')
    | _ => (false, sg' ++ String d ds)
    end = (eneg, String d ds)) as [eneg ->].
  { destruct Hsg' as [->|[->| ->]]; [|by exists false|by exists true].
    exists false. rewrite str_app_nil_l. by apply digit_head_sign. }
  cbn [String.eqb orb PyStr.all_chars]. by rewrite Hd, Hds.
Qed.

(** X12. Every numeric string is a text that [float] reads, so the handler
    for a failed conversion in [round2_if_numeric] is never entered: a
    numeric string is displayed as the float of its two-decimal form,
    unless the expression text holds the word version. *)
Theorem numeric_string_is_always_rounded (s expr_text : string) :
  is_numeric_string s = true ->
  is_Some (PyFloat.of_string s)
  /\ (PyStr.contains "version" (PyStr.lower expr_text) = false ->
      exists x y,
        PyFloat.of_string s = Some x /\ round2 x = Some y
        /\ round2_if_numeric (VStr s) expr_text = Some (VFloat y)).
Proof.
  intros Hs. pose proof Hs as Hform.
  apply numeric_string_form, of_string_number in Hform as [x Hx].
  split; [by exists x|]. intros Hv.
  destruct (round2_total x) as [y Hy]. exists x, y.
  repeat split; try done.
  unfold round2_if_numeric. by rewrite Hv, Hs, Hx, Hy.
Qed.

Lemma numeric_string_is_always_rounded_witness :
  is_numeric_string "-1.5E3" = true
  /\ is_Some (PyFloat.of_string "-1.5E3").
Proof.
  assert (H : is_numeric_string "-1.5E3" = true) by (vm_compute; reflexivity).
  split; [exact H|].
  exact (proj1 (numeric_string_is_always_rounded "-1.5E3" "Uptime" H)).
Defined.

(** * Floats: conversions that are exact *)

Section FloatFacts.
Local Open Scope Z_scope.

(** Powers of two as unknowns of a linear problem. *)
Ltac hide_pow :=
  repeat match goal with
  | |- context [2 ^ ?x] =>
      let v := fresh "pw" in set (v := 2 ^ x) in *; clearbody v
  | H : context [2 ^ ?x] |- _ =>
      let v := fresh "pw" in set (v := 2 ^ x) in *; clearbody v
  end.

Lemma digits2_pos_bounds p :
  2 ^ (Zpos (digits2_pos p) - 1) <= Zpos p < 2 ^ Zpos (digits2_pos p).
Proof.
  induction p as [p IH|p IH|]; simpl digits2_pos.
  - rewrite Pos2Z.inj_succ, Pos2Z.inj_xI.
    replace (Z.succ (Zpos (digits2_pos p)) - 1)
      with (Z.succ (Zpos (digits2_pos p) - 1)) by lia.
    rewrite !Z.pow_succ_r by lia. hide_pow. lia.
  - rewrite Pos2Z.inj_succ. change (Z.pos p~0) with (2 * Z.pos p).
    replace (Z.succ (Zpos (digits2_pos p)) - 1)
      with (Z.succ (Zpos (digits2_pos p) - 1)) by lia.
    rewrite !Z.pow_succ_r by lia. hide_pow. lia.
  - by vm_compute.
Qed.

Lemma digits2_pos_unique p d :
  2 ^ (d - 1) <= Zpos p < 2 ^ d -> Zpos (digits2_pos p) = d.
Proof.
  intros [Hlo Hhi]. pose proof (digits2_pos_bounds p) as [Blo Bhi].
  set (k := Zpos (digits2_pos p)) in *.
  assert (0 < d).
  { destruct (Z_lt_le_dec 0 d); [done|].
    assert (2 ^ d <= 1); [|lia].
    destruct (Z.eq_dec d 0) as [->|]; [done|].
    rewrite Z.pow_neg_r; lia. }
  destruct (Z_lt_le_dec k d) as [Hlt|Hge].
  - assert (2 ^ k <= 2 ^ (d - 1)) by (apply Z.pow_le_mono_r; lia).
    hide_pow. lia.
  - destruct (Z.eq_dec k d) as [|Hne]; [done|].
    assert (2 ^ d <= 2 ^ (k - 1)) by (apply Z.pow_le_mono_r; lia).
    hide_pow. lia.
Qed.

Lemma fexp_normal x : -1021 <= x -> fexp 53 1024 x = x - 53.
Proof. intros H. unfold fexp, emin. lia. Qed.

Lemma loc_of_record_of_loc m l :
  loc_of_shr_record (shr_record_of_loc m l) = l.
Proof. by destruct l as [|[]]. Qed.

(** A mantissa of 53 bits is kept as it is. *)
Lemma shr_fexp_53 m e l :
  2 ^ 52 <= Zpos m < 2 ^ 53 -> -1074 <= e ->
  shr_fexp 53 1024 (Zpos m) e l = (shr_record_of_loc (Zpos m) l, e).
Proof.
  intros Hm He. unfold shr_fexp. simpl Zdigits2.
  rewrite (digits2_pos_unique m 53 Hm), fexp_normal by lia.
  by replace (53 + e - 53 - e) with 0 by lia.
Qed.

(** A mantissa of 54 bits loses its last bit. *)
Lemma shr_fexp_54 m e l :
  2 ^ 53 <= Zpos m < 2 ^ 54 -> -1075 <= e ->
  shr_fexp 53 1024 (Zpos m) e l
  = (shr_1 (shr_record_of_loc (Zpos m) l), e + 1).
Proof.
  intros Hm He. unfold shr_fexp. simpl Zdigits2.
  rewrite (digits2_pos_unique m 54 Hm), fexp_normal by lia.
  by replace (54 + e - 53 - e) with 1 by lia.
Qed.

Lemma floor_scaled_double x e :
  floor_scaled (2 * x) e = floor_scaled x (e + 1).
Proof.
  unfold floor_scaled.
  destruct (Z.leb_spec 0 e) as [He|He].
  - assert ((0 <=? e + 1) = true) as -> by lia.
    rewrite Z.pow_add_r by lia. change (2 ^ 1) with 2. lia.
  - destruct (Z.eq_dec e (-1)) as [->|Hne].
    { change (2 * x / 2 = x * 1). rewrite Z.mul_comm, Z.div_mul; lia. }
    assert ((0 <=? e + 1) = false) as -> by lia.
    replace (- e) with (1 + - (e + 1)) by lia.
    rewrite Z.pow_add_r by lia. change (2 ^ 1) with 2.
    rewrite Z.div_mul_cancel_l; [done| |lia].
    assert (0 < 2 ^ (- (e + 1))) by (apply Z.pow_pos_nonneg; lia). lia.
Qed.

(** The last step of a rounding, on a mantissa of 53 bits or on the
    power of two after them: the value is kept. *)
Lemma round_tail m1 e1 :
  2 ^ 52 <= Zpos m1 <= 2 ^ 53 -> -1074 <= e1 ->
  exists m,
    shr_m (shr_fexp 53 1024 (Zpos m1) e1 loc_Exact).1 = Zpos m
    /\ floor_scaled (Zpos m) (shr_fexp 53 1024 (Zpos m1) e1 loc_Exact).2
       = floor_scaled (Zpos m1) e1
    /\ (shr_fexp 53 1024 (Zpos m1) e1 loc_Exact).2 <= e1 + 1.
Proof.
  intros Hm He. destruct (Z.eq_dec (Zpos m1) (2 ^ 53)) as [E|Hne].
  - rewrite shr_fexp_54 by lia.
    assert (m1 = 9007199254740992%positive) as ->
      by (apply Pos2Z.inj; rewrite E; reflexivity).
    exists (4503599627370496%positive). simpl fst. simpl snd.
    split; [reflexivity|]. split; [|lia].
    change (Z.pos 9007199254740992) with (2 * Z.pos 4503599627370496).
    by rewrite floor_scaled_double.
  - rewrite shr_fexp_53 by lia. exists m1. simpl. split; [done|]. split; [done|lia].
Qed.

(** Rounding a quotient of 53 or 54 bits: the result is finite, and its
    value is that of the quotient, of its successor, or -- for an odd
    quotient only -- of its predecessor. *)
Lemma binary_round_aux_floor s Q e l :
  2 ^ 52 <= Zpos Q < 2 ^ 54 -> -1074 <= e <= 900 ->
  exists m e2 V,
    binary_round_aux 53 1024 s (Zpos Q) e l = S754_finite s m e2
    /\ floor_scaled (Zpos m) e2 = floor_scaled V e
    /\ (V = Zpos Q \/ V = Zpos Q + 1 \/ (V = Zpos Q - 1 /\ Z.odd (Zpos Q) = true)).
Proof.
  intros HQ He. unfold binary_round_aux.
  destruct (Z_lt_le_dec (Zpos Q) (2 ^ 53)) as [H53|H54].
  - rewrite shr_fexp_53 by lia. rewrite loc_of_record_of_loc.
    assert (Hm1 : exists m1,
              round_nearest_even (shr_m (shr_record_of_loc (Zpos Q) l)) l = Zpos m1
              /\ (Zpos m1 = Zpos Q \/ Zpos m1 = Zpos Q + 1)).
    { destruct l as [|[]];
        cbn [round_nearest_even shr_record_of_loc shr_m].
      - exists Q. by split; [|left].
      - destruct (Z.even (Zpos Q)); [exists Q; by split; [|left]|].
        exists (Q + 1)%positive. split; [done|lia].
      - exists Q. by split; [|left].
      - exists (Q + 1)%positive. split; [done|lia]. }
    destruct Hm1 as (m1 & -> & Hm1).
    destruct (round_tail m1 e) as (m & Em & Ef & Ee); [lia..|].
    destruct (shr_fexp 53 1024 (Zpos m1) e loc_Exact) as [mrs e2].
    cbn [fst snd] in *.
    rewrite Em. assert ((e2 <=? 1024 - 53) = true) as -> by lia.
    exists m, e2, (Zpos m1). split; [done|]. split; [done|]. lia.
  - rewrite shr_fexp_54 by lia.
    assert (Hm1 : exists m1,
              round_nearest_even
                (shr_m (shr_1 (shr_record_of_loc (Zpos Q) l)))
                (loc_of_shr_record (shr_1 (shr_record_of_loc (Zpos Q) l)))
              = Zpos m1
              /\ (2 * Zpos m1 = Zpos Q
                  \/ (2 * Zpos m1 = Zpos Q + 1)
                  \/ (2 * Zpos m1 = Zpos Q - 1 /\ Z.odd (Zpos Q) = true))).
    { destruct Q as [p|p|]; [| |by vm_compute in H54].
      - assert (Hodd : Z.odd (Zpos p~1) = true) by done.
        destruct l as [|[]];
          cbn [round_nearest_even shr_record_of_loc shr_m shr_1
                 loc_of_shr_record orb].
        + destruct (Z.even (Zpos p)).
          * exists p. split; [done|]. right. right. split; [lia|done].
          * exists (p + 1)%positive. split; [done|]. right. left. lia.
        + exists (p + 1)%positive. split; [done|]. right. left. lia.
        + exists (p + 1)%positive. split; [done|]. right. left. lia.
        + exists (p + 1)%positive. split; [done|]. right. left. lia.
      - destruct l as [|[]];
          cbn [round_nearest_even shr_record_of_loc shr_m shr_1
                 loc_of_shr_record orb];
          exists p; (split; [done|]); left; lia. }
    destruct Hm1 as (m1 & -> & Hm1).
    destruct (round_tail m1 (e + 1)) as (m & Em & Ef & Ee); [lia..|].
    destruct (shr_fexp 53 1024 (Zpos m1) (e + 1) loc_Exact) as [mrs e2].
    cbn [fst snd] in *.
    rewrite Em. assert ((e2 <=? 1024 - 53) = true) as -> by lia.
    exists m, e2, (2 * Zpos m1). split; [done|].
    split; [by rewrite floor_scaled_double|]. exact Hm1.
Qed.

Lemma int_of_float_finite s m e :
  int_of_float (S754_finite s m e)
  = Some (if s then - floor_scaled (Zpos m) e else floor_scaled (Zpos m) e).
Proof. reflexivity. Qed.

(** The integer part of a quotient of two integers, computed on floats,
    is the integer quotient, as long as both have at most 53 bits. *)
Lemma of_ratio_floor (s : bool) (a b : positive) :
  Zpos a < 2 ^ 53 -> Zpos b < 2 ^ 53 ->
  exists m e,
    PyFloat.of_ratio s a b = S754_finite s m e
    /\ floor_scaled (Zpos m) e = Zpos a / Zpos b.
Proof.
  intros Ha Hb. unfold PyFloat.of_ratio, SFdiv_core_binary, PyFloat.prec,
    PyFloat.emax. simpl Zdigits2.
  pose proof (digits2_pos_bounds a) as [A1 A2].
  pose proof (digits2_pos_bounds b) as [B1 B2].
  set (d1 := Zpos (digits2_pos a)) in *. set (d2 := Zpos (digits2_pos b)) in *.
  assert (Hd1 : 1 <= d1 <= 53).
  { split; [unfold d1; lia|].
    destruct (Z_le_gt_dec d1 53); [done|].
    assert (2 ^ 53 <= 2 ^ (d1 - 1)) by (apply Z.pow_le_mono_r; lia). lia. }
  assert (Hd2 : 1 <= d2 <= 53).
  { split; [unfold d2; lia|].
    destruct (Z_le_gt_dec d2 53); [done|].
    assert (2 ^ 53 <= 2 ^ (d2 - 1)) by (apply Z.pow_le_mono_r; lia). lia. }
  rewrite fexp_normal by lia.
  replace (Z.min (d1 + 0 - (d2 + 0) - 53) (0 - 0)) with (d1 - d2 - 53) by lia.
  replace (0 - 0 - (d1 - d2 - 53)) with (53 + d2 - d1) by lia.
  set (sh := 53 + d2 - d1).
  assert (Hsh : 1 <= sh) by (unfold sh; lia).
  assert (Hm' : match sh with
                | Zpos _ => Z.shiftl (Zpos a) sh
                | 0 => Zpos a
                | Zneg _ => 0
                end = Zpos a * 2 ^ sh).
  { destruct sh eqn:E; try lia. rewrite <- E, Z.shiftl_mul_pow2; lia. }
  rewrite Hm'. set (P := 2 ^ sh).
  assert (HP : Zpos b < P).
  { assert (2 ^ d2 <= P) by (apply Z.pow_le_mono_r; unfold sh; lia). lia. }
  pose proof (Z_div_mod (Zpos a * P) (Zpos b) eq_refl) as Hdiv.
  destruct (Z.div_eucl (Zpos a * P) (Zpos b)) as [Q R]. destruct Hdiv as [HQ HR].
  pose proof (Z_div_mod_eq_full (Zpos a) (Zpos b)) as Hq.
  pose proof (Z.mod_pos_bound (Zpos a) (Zpos b) eq_refl) as Hr.
  set (q := Zpos a / Zpos b) in *. set (r := Zpos a mod Zpos b) in *.
  assert (Hlo : q * P <= Q) by nia.
  assert (Hhi : Q + 1 < (q + 1) * P) by nia.
  assert (HQ52 : 2 ^ 52 <= Q < 2 ^ 54).
  { assert (E1 : 2 ^ (d1 - 1) * P = 2 ^ 52 * 2 ^ d2).
    { unfold P, sh. rewrite <- !Z.pow_add_r by lia. f_equal. lia. }
    assert (E2 : 2 ^ d1 * P = 2 ^ 54 * 2 ^ (d2 - 1)).
    { unfold P, sh. rewrite <- !Z.pow_add_r by lia. f_equal. lia. }
    assert (0 < P) by lia.
    split; nia. }
  destruct Q as [|Qp|Qp]; [lia| |lia].
  destruct (binary_round_aux_floor s Qp (d1 - d2 - 53)
              (new_location (Zpos b) R)) as (m & e & V & -> & Ef & HV);
    [done|lia|].
  exists m, e. split; [done|]. rewrite Ef. unfold floor_scaled.
  assert ((0 <=? d1 - d2 - 53) = false) as -> by lia.
  replace (- (d1 - d2 - 53)) with sh by (unfold sh; lia). fold P.
  assert (HPeven : exists P', P = 2 * P').
  { exists (2 ^ (sh - 1)). unfold P.
    replace sh with (Z.succ (sh - 1)) at 1 by lia.
    rewrite Z.pow_succ_r; lia. }
  destruct HPeven as [P' HP'].
  assert (HV' : q * P <= V < (q + 1) * P).
  { destruct HV as [->|[->|[-> Hodd]]]; [lia|lia|].
    apply Z.odd_spec in Hodd as [k Hk]. nia. }
  symmetry. apply (Z.div_unique V P q (V - q * P)); lia.
Qed.

Lemma true_div_floor (a : Z) (b : positive) :
  0 <= a < 2 ^ 53 -> Zpos b < 2 ^ 53 ->
  exists x, true_div a b = Some x /\ int_of_float x = Some (a / Zpos b).
Proof.
  intros Ha Hb. destruct a as [|p|p]; [|..|lia].
  - exists (S754_zero false). by split.
  - destruct (of_ratio_floor false p b) as (m & e & E & Ef); [lia|done|].
    exists (S754_finite false m e). unfold true_div. rewrite E.
    split; [done|]. by rewrite int_of_float_finite, Ef.
Qed.

(** For a negative dividend the integer part is rounded toward zero. *)
Lemma true_div_floor_neg (a b : positive) :
  Zpos a < 2 ^ 53 -> Zpos b < 2 ^ 53 ->
  exists x, true_div (Zneg a) b = Some x
            /\ int_of_float x = Some (- (Zpos a / Zpos b)).
Proof.
  intros Ha Hb.
  destruct (of_ratio_floor true a b) as (m & e & E & Ef); [lia|done|].
  exists (S754_finite true m e). unfold true_div. rewrite E.
  split; [done|]. by rewrite int_of_float_finite, Ef.
Qed.

Lemma pos_iter_double p k : Zpos (Pos.iter xO p k) = Zpos p * 2 ^ Zpos k.
Proof.
  rewrite <- Z.shiftl_mul_pow2 by lia. simpl.
  by apply (Pos.iter_swap_gen _ _ Zpos xO (Z.mul 2)).
Qed.

(** A float of 53 bits that needs no rounding. *)
Lemma binary_round_aux_exact s m e :
  2 ^ 52 <= Zpos m < 2 ^ 53 -> -1074 <= e <= 971 ->
  binary_round_aux 53 1024 s (Zpos m) e loc_Exact = S754_finite s m e.
Proof.
  intros Hm He. unfold binary_round_aux.
  rewrite shr_fexp_53 by lia. cbn [shr_record_of_loc shr_m loc_of_shr_record
                                  round_nearest_even].
  rewrite shr_fexp_53 by lia. cbn [shr_record_of_loc shr_m].
  by assert ((e <=? 1024 - 53) = true) as -> by lia.
Qed.

(** An integer of at most 53 bits is a float, and comes back from it. *)
Lemma of_Z_exact (n : Z) :
  - 2 ^ 53 < n < 2 ^ 53 ->
  exists x, PyFloat.of_Z n = Some x /\ int_of_float x = Some n.
Proof.
  intros Hn.
  assert (Hpos : forall s p, Zpos p < 2 ^ 53 ->
            exists x,
              match binary_round 53 1024 s p 0 with
              | S754_infinity _ | S754_nan => None
              | x => Some x
              end = Some x
              /\ int_of_float x = Some (if s then - Zpos p else Zpos p)).
  2: { destruct n as [|p|p].
       - exists (S754_zero false). by split.
       - apply (Hpos false p). lia.
       - apply (Hpos true p). lia. }
  clear n Hn. intros s p Hn.
  unfold binary_round, PyFloat.prec, PyFloat.emax.
  pose proof (digits2_pos_bounds p) as [A1 A2].
  set (d := Zpos (digits2_pos p)) in *.
  assert (Hd : 1 <= d <= 53).
  { split; [unfold d; lia|].
    destruct (Z_le_gt_dec d 53); [done|].
    assert (2 ^ 53 <= 2 ^ (d - 1)) by (apply Z.pow_le_mono_r; lia). lia. }
  rewrite fexp_normal by lia. unfold shl_align.
  replace (d + 0 - 53 - 0) with (d - 53) by lia.
  destruct (d - 53) as [|k|k] eqn:Ek; [|lia|].
  - rewrite binary_round_aux_exact; [|split; [|lia]|lia].
    + eexists. split; [reflexivity|].
      rewrite int_of_float_finite.
      assert (floor_scaled (Zpos p) 0 = Zpos p) as ->; [|done].
      change (Zpos p * 1 = Zpos p). lia.
    + replace 52 with (d - 1) by lia. done.
  - assert (Hk : Zpos k = 53 - d) by lia.
    assert (Hmz : Zpos (Pos.iter xO p k) = Zpos p * 2 ^ (53 - d))
      by (by rewrite pos_iter_double, Hk).
    assert (E1 : 2 ^ (d - 1) * 2 ^ (53 - d) = 2 ^ 52).
    { rewrite <- Z.pow_add_r by lia. f_equal. lia. }
    assert (E2 : 2 ^ d * 2 ^ (53 - d) = 2 ^ 53).
    { rewrite <- Z.pow_add_r by lia. f_equal. lia. }
    assert (0 < 2 ^ (53 - d)) by (apply Z.pow_pos_nonneg; lia).
    rewrite binary_round_aux_exact; [|rewrite Hmz; split; nia|lia].
    eexists. split; [reflexivity|].
    rewrite int_of_float_finite. unfold floor_scaled.
    assert ((0 <=? d + 0 - 53) = false) as -> by lia.
    replace (- (d + 0 - 53)) with (53 - d) by lia.
    by rewrite Hmz, Z.div_mul by lia.
Qed.
(** ** Integers beyond the floats *)

(** One shift halves the mantissa. *)
Lemma shr_1_half mrs : 0 <= shr_m mrs -> shr_m (shr_1 mrs) = shr_m mrs / 2.
Proof.
  destruct mrs as [m r s]. cbn [shr_m]. intros Hm.
  destruct m as [|[p|p|]|p]; try lia; cbn [shr_1 shr_m].
  - reflexivity.
  - apply (Z.div_unique _ 2 _ 1); lia.
  - apply (Z.div_unique _ 2 _ 0); lia.
  - reflexivity.
Qed.

Lemma iter_shr_1 k : forall mrs,
  0 <= shr_m mrs ->
  shr_m (SpecFloat.iter_pos shr_1 k mrs) = shr_m mrs / 2 ^ Zpos k.
Proof.
  induction k as [k IH|k IH|]; intros mrs Hm; simpl SpecFloat.iter_pos.
  - assert (H1 : 0 <= shr_m (shr_1 mrs)).
    { rewrite shr_1_half by done. apply Z.div_pos; lia. }
    assert (H2 : 0 <= shr_m (SpecFloat.iter_pos shr_1 k (shr_1 mrs))).
    { rewrite IH by done. apply Z.div_pos; [done|]. apply Z.pow_pos_nonneg; lia. }
    rewrite IH, IH, shr_1_half by done.
    rewrite !Z.div_div by (try apply Z.pow_nonneg; lia).
    f_equal. rewrite Pos2Z.inj_xI.
    replace (2 * Z.pos k + 1) with (1 + Zpos k + Zpos k) by lia.
    rewrite !Z.pow_add_r by lia. change (2 ^ 1) with 2. lia.
  - assert (H2 : 0 <= shr_m (SpecFloat.iter_pos shr_1 k mrs)).
    { rewrite IH by done. apply Z.div_pos; [done|]. apply Z.pow_pos_nonneg; lia. }
    rewrite IH, IH by done.
    rewrite !Z.div_div by (try apply Z.pow_nonneg; lia).
    f_equal. change (Z.pos k~0) with (2 * Z.pos k).
    replace (2 * Z.pos k) with (Zpos k + Zpos k) by lia.
    by rewrite !Z.pow_add_r by lia.
  - rewrite shr_1_half by done. reflexivity.
Qed.

Lemma round_nearest_even_cases m l :
  round_nearest_even m l = m \/ round_nearest_even m l = m + 1.
Proof.
  destruct l as [|[]]; cbn [round_nearest_even]; try tauto.
  destruct (Z.even m); tauto.
Qed.

(** An integer from [2^1024] on is beyond the floats. *)
Lemma binary_round_overflow s p :
  2 ^ 1024 <= Zpos p -> binary_round 53 1024 s p 0 = S754_infinity s.
Proof.
  intros Hp. unfold binary_round.
  pose proof (digits2_pos_bounds p) as [A1 A2].
  set (d := Zpos (digits2_pos p)) in *.
  assert (Hd : 1025 <= d).
  { destruct (Z_lt_le_dec d 1025); [|done].
    assert (2 ^ d <= 2 ^ 1024) by (apply Z.pow_le_mono_r; lia). lia. }
  rewrite fexp_normal by lia. unfold shl_align.
  replace (d + 0 - 53 - 0) with (d - 53) by lia.
  destruct (d - 53) as [|k|k] eqn:Ek; [lia| |lia].
  unfold binary_round_aux. unfold shr_fexp at 1. simpl Zdigits2. fold d.
  rewrite fexp_normal by lia.
  replace (d + 0 - 53 - 0) with (Zpos k) by lia. cbn [shr].
  set (mrs := SpecFloat.iter_pos shr_1 k (shr_record_of_loc (Zpos p) loc_Exact)).
  assert (Hm : 2 ^ 52 <= shr_m mrs < 2 ^ 53).
  { unfold mrs. rewrite iter_shr_1 by (cbn; lia).
    cbn [shr_record_of_loc shr_m].
    assert (E1 : 2 ^ Zpos k * 2 ^ 52 = 2 ^ (d - 1)).
    { rewrite <- Z.pow_add_r by lia. f_equal. lia. }
    assert (E2 : 2 ^ Zpos k * 2 ^ 53 = 2 ^ d).
    { rewrite <- Z.pow_add_r by lia. f_equal. lia. }
    assert (0 < 2 ^ Zpos k) by (apply Z.pow_pos_nonneg; lia).
    split.
    - apply Z.div_le_lower_bound; [done|]. rewrite E1. done.
    - apply Z.div_lt_upper_bound; [done|]. rewrite E2. done. }
  assert (exists m1,
            round_nearest_even (shr_m mrs) (loc_of_shr_record mrs) = Zpos m1
            /\ 2 ^ 52 <= Zpos m1 <= 2 ^ 53) as (m1 & -> & Hm1).
  { destruct (round_nearest_even_cases (shr_m mrs) (loc_of_shr_record mrs))
      as [-> | ->].
    - destruct (shr_m mrs) as [|q|q]; [lia| |lia]. exists q. lia.
    - destruct (shr_m mrs + 1) as [|q|q] eqn:E; [lia| |lia]. exists q. lia. }
  destruct (Z.eq_dec (Zpos m1) (2 ^ 53)) as [E|Hne].
  - rewrite shr_fexp_54 by lia.
    assert (m1 = 9007199254740992%positive) as ->
      by (apply Pos2Z.inj; rewrite E; reflexivity).
    cbn [shr_record_of_loc shr_1 shr_m].
    by assert ((0 + Zpos k + 1 <=? 1024 - 53) = false) as -> by lia.
  - rewrite shr_fexp_53 by lia. cbn [shr_record_of_loc shr_m].
    by assert ((0 + Zpos k <=? 1024 - 53) = false) as -> by lia.
Qed.

Lemma of_Z_overflow (n : Z) : 2 ^ 1024 <= Z.abs n -> PyFloat.of_Z n = None.
Proof.
  intros Hn. unfold PyFloat.of_Z, binary_normalize, PyFloat.prec, PyFloat.emax.
  destruct n as [|p|p].
  - by vm_compute in Hn.
  - by rewrite binary_round_overflow.
  - by rewrite binary_round_overflow.
Qed.

(** An [int] beyond the limit on the digits is beyond the floats. *)
Lemma str_raises_overflow (v : value) :
  str_raises v = true -> exists n, v = VInt n /\ PyFloat.of_Z n = None.
Proof.
  destruct v as [n| | |]; try done. cbn [str_raises]. intros Hn.
  exists n. split; [done|]. apply of_Z_overflow.
  apply Z.leb_le in Hn.
  assert (2 ^ 1024 <= 10 ^ int_max_str_digits) by (apply Z.leb_le; by vm_compute).
  lia.
Qed.

End FloatFacts.

(** * The rule processor *)

Section ProcessorFacts.
Variable eval : evaluator.
Variable variables : gmap string value.
Variable output_mode : string.
Variable debug : bool.

Lemma process_lines_app st before after :
  process_lines eval variables output_mode debug st (before ++ after)
  = match process_lines eval variables output_mode debug st before with
    | Continue st' =>
        process_lines eval variables output_mode debug st' after
    | Abort st' => Abort st'
    end.
Proof.
  revert st. induction before as [|raw before IH]; intros st; [done|].
  simpl.
  destruct (process_line eval variables output_mode debug st raw);
    [apply IH|done].
Qed.

Lemma process_line_skip_lines st raw before after :
  (forall st',
     process_line eval variables output_mode debug st' raw = Continue st') ->
  process_lines eval variables output_mode debug st (before ++ raw :: after)
  = process_lines eval variables output_mode debug st (before ++ after).
Proof.
  intros Hskip. rewrite !process_lines_app.
  destruct (process_lines eval variables output_mode debug st before)
    as [st'|st']; [|done].
  simpl. by rewrite Hskip.
Qed.

Lemma parse_config_line_malformed raw :
  length (PyStr.split_bars raw) <> 4 -> parse_config_line raw = None.
Proof.
  unfold parse_config_line.
  destruct (PyStr.split_bars raw) as [|a [|b [|c [|d [|e l]]]]]; simpl; done.
Qed.

Lemma process_line_malformed st raw :
  is_rule_candidate raw -> length (PyStr.split_bars raw) <> 4 ->
  process_line eval variables output_mode debug st raw = Continue st.
Proof.
  intros [Hne Hrule] Hparts. unfold process_line.
  apply String.eqb_neq in Hne. rewrite Hne, Hrule.
  by rewrite parse_config_line_malformed.
Qed.

Lemma process_line_comment st raw :
  is_plain_comment raw ->
  process_line eval variables output_mode debug st raw
  = Continue (process_comment output_mode st raw).
Proof.
  intros (Hne & Hc & Hd). unfold process_line.
  apply String.eqb_neq in Hne. by rewrite Hne, Hc, Hd.
Qed.

Lemma process_comment_header st raw name :
  category_of raw = Some name ->
  process_comment output_mode st raw
  = if String.eqb name (current_category st) then st
    else RunState (printed st ++ [category_line output_mode name])
           (recommendation_pairs st) name.
Proof.
  intros Hcat. pose proof (category_of_nonempty _ _ Hcat) as Hne.
  unfold category_of in Hcat. unfold process_comment.
  destruct (Re.match_ category_re raw) as [[w caps]|]; [|done].
  injection Hcat as ->. apply String.eqb_neq in Hne. rewrite Hne. simpl.
  destruct (String.eqb name (current_category st)); [done|]. simpl.
  unfold category_line. by destruct (String.eqb output_mode "csv").
Qed.

Lemma header_is_plain_comment w1 rest_ :
  PyStr.all_chars PyStr.is_space w1 = true ->
  PyStr.contains "|||" (w1 ++ "#" ++ rest_) = false ->
  is_plain_comment (w1 ++ "#" ++ rest_).
Proof.
  intros Hw1 Hd.
  assert (E : PyStr.lstrip (w1 ++ "#" ++ rest_) = String "#" rest_).
  { apply lstrip_blanks; [done|]. by intros c [= <-]. }
  repeat split; [|by rewrite E|done].
  unfold PyStr.strip. rewrite E. by apply rstrip_nonempty.
Qed.

(** C7. Malformed-line resilience. A line that is not blank, is no
    comment and does not split into exactly four fields is skipped: it
    leaves the state of the run as it is (nothing printed, no
    recommendation), and the lines after it are processed as if it were
    not there. A line of three fields is such a line. *)
Theorem malformed_line_skipped (raw : string) :
  is_rule_candidate raw ->
  length (PyStr.split_bars raw) <> 4 ->
  (forall st,
     process_line eval variables output_mode debug st raw = Continue st)
  /\ (forall st before after,
        process_lines eval variables output_mode debug st
          (before ++ raw :: after)
        = process_lines eval variables output_mode debug st
            (before ++ after))
  /\ (forall before after show_recommendations,
        evaluate_and_print eval variables output_mode debug
          (before ++ raw :: after) show_recommendations
        = evaluate_and_print eval variables output_mode debug
            (before ++ after) show_recommendations).
Proof.
  intros Hrule Hparts.
  assert (Hskip : forall st,
            process_line eval variables output_mode debug st raw
            = Continue st)
    by (intros st; by apply process_line_malformed).
  split; [done|]. split.
  - intros st before after. by apply process_line_skip_lines.
  - intros before after show. unfold evaluate_and_print.
    by rewrite process_line_skip_lines.
Qed.

(** C8. A category header prints a category change exactly when the
    category it names differs from the active one, and the active
    category is set to that name in the same step; otherwise the state
    stays as it is. Two consecutive headers that name the same category,
    which is not yet the active one, print one category change. *)
Theorem category_change_when_different (st : run_state) (raw name : string) :
  is_plain_comment raw ->
  category_of raw = Some name ->
  let changed :=
    RunState (printed st ++ [category_line output_mode name])
      (recommendation_pairs st) name in
  process_line eval variables output_mode debug st raw
    = Continue (if String.eqb name (current_category st) then st else changed)
  /\ (forall raw', is_plain_comment raw' -> category_of raw' = Some name ->
        name <> current_category st ->
        process_lines eval variables output_mode debug st [raw; raw']
        = Continue changed).
Proof.
  intros Hc Hname changed.
  assert (H1 : process_line eval variables output_mode debug st raw
    = Continue (if String.eqb name (current_category st) then st else changed)).
  { rewrite process_line_comment by done.
    by rewrite (process_comment_header _ _ name). }
  split; [done|].
  intros raw' Hc' Hname' Hdiff. simpl. rewrite H1.
  apply String.eqb_neq in Hdiff. rewrite Hdiff.
  rewrite process_line_comment by done.
  rewrite (process_comment_header _ _ name) by done.
  simpl. by rewrite String.eqb_refl.
Qed.

(** C10. Header detection is case-insensitive on the keyword and tolerant
    of blanks. A line made of blanks, [#], blanks, the word Category in
    any letter case, blanks, a colon and a text with a non-blank part,
    and without the rule delimiter, is a category header; the category
    is that text without the blanks around it (the name of a line has no
    line break in it: a line breaks at its end only). The name is
    compared with the active category as it is, letter case included: a
    header that names memory changes the active category Memory. *)
Theorem category_header_detection
    (st : run_state) (w1 w2 kw w3 text : string) :
  PyStr.all_chars PyStr.is_space w1 = true ->
  PyStr.all_chars PyStr.is_space w2 = true ->
  PyStr.all_chars PyStr.is_space w3 = true ->
  PyStr.lower kw = "category" ->
  PyStr.strip text <> EmptyString ->
  PyStr.all_chars PyStr.is_dot (PyStr.strip text) = true ->
  let raw := w1 ++ "#" ++ w2 ++ kw ++ w3 ++ ":" ++ text in
  let name := PyStr.strip text in
  PyStr.contains "|||" raw = false ->
  category_of raw = Some name
  /\ process_line eval variables output_mode debug st raw
     = Continue (if String.eqb name (current_category st) then st
                 else RunState (printed st ++ [category_line output_mode name])
                        (recommendation_pairs st) name)
  /\ process_line eval variables output_mode debug
       (RunState [] [] "Memory") "# category: memory"
     = Continue (RunState [category_line output_mode "memory"] [] "memory").
Proof.
  intros Hw1 Hw2 Hw3 Hkw Hne Hdot raw name Hd.
  assert (Hcat : category_of raw = Some name) by by apply category_of_header.
  split; [done|]. split.
  - rewrite process_line_comment by by apply header_is_plain_comment.
    by rewrite (process_comment_header _ _ name).
  - rewrite process_line_comment
      by (repeat split; vm_compute; [discriminate|reflexivity..]).
    by rewrite (process_comment_header _ _ "memory")
      by (vm_compute; reflexivity).
Qed.

Lemma process_line_rule st raw label comp expr output_text :
  is_rule_candidate raw ->
  parse_config_line raw = Some (label, comp, expr, output_text) ->
  process_line eval variables output_mode debug st raw
  = process_rule eval variables output_mode debug st
      label comp expr output_text.
Proof.
  intros [Hne Hrule] Hparse. unfold process_line.
  apply String.eqb_neq in Hne. by rewrite Hne, Hrule, Hparse.
Qed.

(** The loop body on a rule, in one equation: the exception of a
    conversion to text in the substitution or in the debug text of the
    value; otherwise the trace of debug mode, the metric line, and the
    recommendation pair when the condition is met; or the exception of
    showing the value, before the metric line. *)
Lemma process_rule_spec st label comp expr output_text :
  let parsed_expr := substitute_expr_variables expr variables in
  let v := derived_value eval variables expr in
  let comp_text := PyStr.strip comp in
  let ok := condition_ok eval comp_text v in
  process_rule eval variables output_mode debug st label comp expr output_text
  = match rule_abort_trace variables debug expr v with
    | Some trace =>
        Abort
          (RunState (printed st ++ trace)
             (recommendation_pairs st) (current_category st))
    | None =>
        match metric_line output_mode label expr v with
        | Some line =>
            Continue
              (RunState
                 (printed st ++ trace_lines debug expr parsed_expr v ++ [line]
                  ++ match_lines debug ok label comp_text)
                 (recommendation_pairs st
                  ++ (if ok then [(line, output_text)] else []))
                 (current_category st))
        | None =>
            Abort
              (RunState (printed st ++ trace_lines debug expr parsed_expr v)
                 (recommendation_pairs st) (current_category st))
        end
    end.
Proof.
  intros parsed_expr v comp_text ok.
  unfold process_rule, metric_line, rule_abort_trace.
  fold parsed_expr.
  change (match eval parsed_expr (build_safe_eval_env ∅) with
          | Some v => v
          | None => VStr parsed_expr
          end) with v.
  fold comp_text. fold ok.
  destruct st as [out pairs cat].
  destruct (substitution_raises expr variables).
  { destruct debug; unfold print_if, print; simpl;
      rewrite ?app_nil_r; reflexivity. }
  destruct debug, (str_raises v); simpl.
  1:{ unfold print_if, print; simpl. by rewrite <- app_assoc. }
  all: destruct (String.eqb output_mode "csv"), ok;
    try destruct (round2_if_numeric v expr);
    unfold print_if, print, trace_lines, match_lines; simpl;
    rewrite <- ?app_assoc, ?app_nil_r; reflexivity.
Qed.

(** A rule that no conversion to text leaves and whose metric line can be
    shown: the line is printed, and a recommendation pair is appended
    exactly when the condition field is not empty and the compiled
    condition evaluates, without an exception, to a true value against
    the derived value. *)
Lemma rule_recommendation_iff st label comp expr output_text line :
  let v := derived_value eval variables expr in
  rule_abort_trace variables debug expr v = None ->
  metric_line output_mode label expr v = Some line ->
  exists st',
    process_rule eval variables output_mode debug st
      label comp expr output_text = Continue st'
    /\ In line (printed st')
    /\ (recommendation_pairs st'
        = (recommendation_pairs st
           ++ (if condition_ok eval (PyStr.strip comp) v
               then [(line, output_text)] else []))%list)
    /\ (PyStr.strip comp = EmptyString ->
        recommendation_pairs st' = recommendation_pairs st)
    /\ (eval (build_condition_expression (PyStr.strip comp) "v")
          (build_safe_eval_env
             {[ "re" := ReModule; "v" := Bound v; "_" := Bound v ]}) = None ->
        recommendation_pairs st' = recommendation_pairs st).
Proof.
  intros v Htrace Hline. rewrite process_rule_spec. fold v.
  rewrite Htrace, Hline.
  eexists. split; [reflexivity|]. simpl. repeat split.
  - rewrite !in_app_iff. simpl. tauto.
  - intros E. rewrite E. unfold condition_ok. simpl. by rewrite app_nil_r.
  - intros E. unfold condition_ok. rewrite E.
    destruct (negb _); by rewrite app_nil_r.
Qed.

(** C6, as amended. A rule whose expression, once the variables are
    substituted, cannot be evaluated is not aborted: the substituted text
    is its derived value. The metric line shows that text as it is in csv
    mode, when the expression text has "version" in it in any letter
    case, and when the text is no numeric string; in pretty mode a
    numeric string of an expression without "version" is always shown
    rounded to two decimals, as a float. The condition is then checked
    against the text and the loop goes on with the next line. *)
Theorem failed_expression_falls_back_to_text
    (st : run_state) (label comp expr output_text : string) :
  let parsed_expr := substitute_expr_variables expr variables in
  let sep := if String.eqb output_mode "csv" then "," else ": " in
  let ok := condition_ok eval (PyStr.strip comp) (VStr parsed_expr) in
  substitution_raises expr variables = false ->
  eval parsed_expr (build_safe_eval_env ∅) = None ->
  derived_value eval variables expr = VStr parsed_expr
  /\ exists shown st',
       process_rule eval variables output_mode debug st
         label comp expr output_text = Continue st'
       /\ (if String.eqb output_mode "csv"
              || PyStr.contains "version" (PyStr.lower expr)
              || negb (is_numeric_string parsed_expr)
           then shown = parsed_expr
           else exists x y,
                  PyFloat.of_string parsed_expr = Some x
                  /\ round2 x = Some y /\ shown = PyFloat.repr y)
       /\ printed st'
          = (printed st
             ++ trace_lines debug expr parsed_expr (VStr parsed_expr)
             ++ [(label ++ sep ++ shown)%string]
             ++ match_lines debug ok label (PyStr.strip comp))%list
       /\ recommendation_pairs st'
          = (recommendation_pairs st
             ++ (if ok then [((label ++ sep ++ shown)%string, output_text)]
                 else []))%list
       /\ current_category st' = current_category st.
Proof.
  intros parsed_expr sep ok Hsub Hfail. subst sep ok.
  assert (Hv : derived_value eval variables expr = VStr parsed_expr).
  { unfold derived_value. fold parsed_expr. by rewrite Hfail. }
  split; [done|].
  rewrite process_rule_spec, Hv. fold parsed_expr.
  unfold rule_abort_trace. rewrite Hsub.
  replace (debug && str_raises (VStr parsed_expr)) with false
    by by destruct debug.
  unfold metric_line, round2_if_numeric. cbn [str_raises].
  destruct (String.eqb output_mode "csv") eqn:Hmode.
  { exists parsed_expr. eexists. split; [reflexivity|]. simpl.
    repeat split; auto. }
  destruct (PyStr.contains "version" (PyStr.lower expr)) eqn:Hver; simpl.
  { exists parsed_expr. eexists. split; [reflexivity|]. simpl.
    repeat split; auto. }
  destruct (is_numeric_string parsed_expr) eqn:Hnum.
  2:{ exists parsed_expr. eexists. split; [reflexivity|]. simpl.
      repeat split; auto. }
  pose proof Hnum as Hform.
  apply numeric_string_form, of_string_number in Hform as [x Hx].
  destruct (round2_total x) as [y Hy]. rewrite Hx, Hy.
  exists (PyFloat.repr y). eexists. split; [reflexivity|]. simpl.
  repeat split; try done. by exists x, y.
Qed.
End ProcessorFacts.

(** * Display rounding *)

(** C4. The version exception to display rounding. A string value is
    either left as it is, or it passes [is_numeric_string], the expression
    text does not contain "version" in any letter case, and the result is
    the value rounded to two decimals; display rounding of a string never
    raises. With "version" in the expression text, and also when the
    string is not numeric, the value stays as it is. The string 5.7.31 is
    shown as 5.7.31, and a rule on the variable version with that value
    prints it unrounded. *)
Theorem version_exception_display_rounding (s expr_text : string) :
  (round2_if_numeric (VStr s) expr_text = Some (VStr s)
   \/ (is_numeric_string s = true
       /\ PyStr.contains "version" (PyStr.lower expr_text) = false
       /\ exists x y, PyFloat.of_string s = Some x /\ round2 x = Some y
            /\ round2_if_numeric (VStr s) expr_text = Some (VFloat y)))
  /\ (PyStr.contains "version" (PyStr.lower expr_text) = true ->
      round2_if_numeric (VStr s) expr_text = Some (VStr s))
  /\ (is_numeric_string s = false ->
      round2_if_numeric (VStr s) expr_text = Some (VStr s))
  /\ option_map py_str (round2_if_numeric (VStr "5.7.31") expr_text)
     = Some "5.7.31"
  /\ evaluate_and_print Frag.py_eval {[ "version" := VStr "5.7.31" ]}
       "pretty" false ["MySQL Version ||| ||| version ||| (none)"] false
     = Finished ["MySQL Version: 5.7.31"].
Proof.
  assert (H5 : is_numeric_string "5.7.31" = false) by (vm_compute; reflexivity).
  split; [|split; [|split; [|split]]].
  - unfold round2_if_numeric.
    destruct (PyStr.contains "version" (PyStr.lower expr_text)); simpl; [by left|].
    destruct (is_numeric_string s); [|by left].
    destruct (PyFloat.of_string s) as [x|] eqn:Hx; [|by left].
    destruct (round2 x) as [y|] eqn:Hy; [|by left].
    right. repeat split. by exists x, y.
  - unfold round2_if_numeric. by intros ->.
  - unfold round2_if_numeric. intros ->. by rewrite andb_false_r.
  - unfold round2_if_numeric. rewrite H5, andb_false_r. reflexivity.
  - vm_compute. reflexivity.
Qed.

(** * The scenarios *)

Lemma py_eval_extends : extends_py_eval Frag.py_eval.
Proof. by intros text env v H. Qed.

(** C1, as amended. In pretty mode, without recommendations, the variable
    table with Threads_connected = "12" and the single rule line
    [Active Threads ||| ||| Threads_connected ||| (none)] print exactly
    the metric line [Active Threads: 12.0]: the value 12 is shown as the
    float that display rounding makes of it. *)
Theorem pretty_scenario_active_threads (eval : evaluator) :
  extends_py_eval eval ->
  evaluate_and_print eval {[ "Threads_connected" := VStr "12" ]} "pretty" false
    ["Active Threads ||| ||| Threads_connected ||| (none)"] false
  = Finished ["Active Threads: 12.0"].
Proof.
  intros Hext. unfold evaluate_and_print. cbn [process_lines].
  rewrite (process_line_rule _ _ _ _ _ _
             "Active Threads" EmptyString "Threads_connected" "(none)");
    [|split; by vm_compute|by vm_compute].
  rewrite process_rule_spec.
  assert (Hv : derived_value eval {[ "Threads_connected" := VStr "12" ]}
                 "Threads_connected" = VInt 12).
  { unfold derived_value.
    replace (substitute_expr_variables "Threads_connected"
               {[ "Threads_connected" := VStr "12" ]}) with "12" by by vm_compute.
    by rewrite (Hext "12" _ (VInt 12)) by by vm_compute. }
  rewrite Hv.
  replace (rule_abort_trace _ _ _ _) with (@None (list string))
    by by vm_compute.
  replace (metric_line "pretty" "Active Threads" "Threads_connected" (VInt 12))
    with (Some "Active Threads: 12.0") by by vm_compute.
  reflexivity.
Qed.

(** C1 fails as stated: the line printed is not [Active Threads: 12]. *)
Lemma pretty_scenario_not_bare_12 :
  evaluate_and_print Frag.py_eval {[ "Threads_connected" := VStr "12" ]}
    "pretty" false ["Active Threads ||| ||| Threads_connected ||| (none)"] false
  <> Finished ["Active Threads: 12"].
Proof. by vm_compute. Qed.

Lemma pretty_scenario_active_threads_witness :
  extends_py_eval Frag.py_eval
  /\ evaluate_and_print Frag.py_eval {[ "Threads_connected" := VStr "12" ]}
       "pretty" false ["Active Threads ||| ||| Threads_connected ||| (none)"] false
     = Finished ["Active Threads: 12.0"].
Proof.
  split; [exact py_eval_extends|].
  apply (pretty_scenario_active_threads Frag.py_eval py_eval_extends).
Defined.

(** C2, as amended. In csv mode, with recommendations, the variable table
    with Uptime = "30" and the single rule line
    [Uptime too low ||| < 60 ||| Uptime ||| Consider increasing uptime]
    print the metric line [Uptime too low,30], then the header of the
    recommendation section, and in it [Uptime too low,30] and
    [Recommendation,Consider increasing uptime]: csv mode shows the value
    30 as it is. *)
Theorem csv_scenario_uptime (eval : evaluator) :
  extends_py_eval eval ->
  evaluate_and_print eval {[ "Uptime" := VStr "30" ]} "csv" false
    ["Uptime too low ||| < 60 ||| Uptime ||| Consider increasing uptime"] true
  = Finished [ "Uptime too low,30";
               nl ++ nl ++ "RECOMMENDATIONS:";
               "Uptime too low,30";
               "Recommendation,Consider increasing uptime" ].
Proof.
  intros Hext. unfold evaluate_and_print. cbn [process_lines].
  rewrite (process_line_rule _ _ _ _ _ _
             "Uptime too low" "< 60" "Uptime" "Consider increasing uptime");
    [|split; by vm_compute|by vm_compute].
  rewrite process_rule_spec.
  assert (Hv : derived_value eval {[ "Uptime" := VStr "30" ]} "Uptime" = VInt 30).
  { unfold derived_value.
    replace (substitute_expr_variables "Uptime" {[ "Uptime" := VStr "30" ]})
      with "30" by by vm_compute.
    by rewrite (Hext "30" _ (VInt 30)) by by vm_compute. }
  rewrite Hv.
  replace (rule_abort_trace _ _ _ _) with (@None (list string))
    by by vm_compute.
  replace (PyStr.strip "< 60") with "< 60" by by vm_compute.
  assert (Hok : condition_ok eval "< 60" (VInt 30) = true).
  { unfold condition_ok.
    replace (build_condition_expression "< 60" "v") with "v < 60" by by vm_compute.
    by rewrite (Hext "v < 60" _ (VBool true)) by by vm_compute. }
  rewrite Hok. reflexivity.
Qed.

(** C2 fails as stated: no line [Uptime too low,30.0] is printed. *)
Lemma csv_scenario_no_30_0 :
  exists out,
    evaluate_and_print Frag.py_eval {[ "Uptime" := VStr "30" ]} "csv" false
      ["Uptime too low ||| < 60 ||| Uptime ||| Consider increasing uptime"] true
    = Finished out
    /\ ~ In "Uptime too low,30.0" out.
Proof.
  eexists. split; [by vm_compute|].
  simpl. intros [H|[H|[H|[H|[]]]]]; discriminate H.
Qed.

Lemma csv_scenario_uptime_witness :
  extends_py_eval Frag.py_eval
  /\ evaluate_and_print Frag.py_eval {[ "Uptime" := VStr "30" ]} "csv" false
       ["Uptime too low ||| < 60 ||| Uptime ||| Consider increasing uptime"] true
     = Finished [ "Uptime too low,30";
                  nl ++ nl ++ "RECOMMENDATIONS:";
                  "Uptime too low,30";
                  "Recommendation,Consider increasing uptime" ].
Proof.
  split; [exact py_eval_extends|].
  apply (csv_scenario_uptime Frag.py_eval py_eval_extends).
Defined.

(** C6 fails as stated: in pretty mode the text 007, which cannot be
    evaluated, is not shown as it is but rounded, as 7.0. *)
Lemma failed_expression_rounded_in_pretty_mode :
  substitute_expr_variables "x" {[ "x" := VStr "007" ]} = "007"
  /\ Frag.py_eval "007" (build_safe_eval_env ∅) = None
  /\ evaluate_and_print Frag.py_eval {[ "x" := VStr "007" ]} "pretty" false
       ["X ||| ||| x ||| (none)"] false
     = Finished ["X: 7.0"]
  /\ "X: 7.0" <> "X: 007".
Proof.
  split; [vm_compute; reflexivity|].
  split; [vm_compute; reflexivity|].
  split; [vm_compute; reflexivity|discriminate].
Qed.

Lemma failed_expression_falls_back_to_text_witness :
  substitution_raises "x" {[ "x" := VStr "007" ]} = false
  /\ Frag.py_eval (substitute_expr_variables "x" {[ "x" := VStr "007" ]})
       (build_safe_eval_env ∅) = None
  /\ derived_value Frag.py_eval {[ "x" := VStr "007" ]} "x"
     = VStr (substitute_expr_variables "x" {[ "x" := VStr "007" ]}).
Proof.
  assert (H0 : substitution_raises "x" {[ "x" := VStr "007" ]} = false)
    by (vm_compute; reflexivity).
  assert (H : Frag.py_eval (substitute_expr_variables "x" {[ "x" := VStr "007" ]})
                (build_safe_eval_env ∅) = None) by (vm_compute; reflexivity).
  split; [exact H0|]. split; [exact H|].
  exact (proj1 (failed_expression_falls_back_to_text Frag.py_eval
                  {[ "x" := VStr "007" ]} "pretty" false initial_state
                  "X" EmptyString "x" "(none)" H0 H)).
Defined.

(** C5 at a failing input. In pretty mode a rule whose value is the
    integer [10^400] raises OverflowError in the display rounding: the
    metric line is not printed, although the condition field is empty,
    the run ends there and the next rule is not processed. In csv mode the
    same lines print their metric lines. *)
Theorem display_overflow_aborts_run :
  PyFloat.of_Z (10 ^ 400) = None
  /\ derived_value Frag.py_eval ∅ big_literal = VInt (10 ^ 400)
  /\ evaluate_and_print Frag.py_eval ∅ "pretty" false
       [ "Big ||| ||| " ++ big_literal ++ " ||| (none)";
         "Small ||| ||| 1 ||| (none)" ] false
     = Raised []
  /\ evaluate_and_print Frag.py_eval ∅ "csv" false
       [ "Big ||| ||| " ++ big_literal ++ " ||| (none)";
         "Small ||| ||| 1 ||| (none)" ] false
     = Finished ["Big," ++ big_literal; "Small,1"].
Proof.
  split; [vm_compute; reflexivity|].
  split; [vm_compute; reflexivity|].
  split; vm_compute; reflexivity.
Qed.

Lemma malformed_line_skipped_witness :
  is_rule_candidate "a ||| b ||| c"
  /\ length (PyStr.split_bars "a ||| b ||| c") <> 4
  /\ process_line Frag.py_eval ∅ "pretty" false initial_state "a ||| b ||| c"
     = Continue initial_state.
Proof.
  assert (H1 : is_rule_candidate "a ||| b ||| c")
    by (split; vm_compute; [discriminate|reflexivity]).
  assert (H2 : length (PyStr.split_bars "a ||| b ||| c") <> 4)
    by (vm_compute; discriminate).
  split; [exact H1|]. split; [exact H2|].
  exact (proj1 (malformed_line_skipped Frag.py_eval ∅ "pretty" false
                  "a ||| b ||| c" H1 H2) initial_state).
Defined.

Lemma category_change_when_different_witness :
  is_plain_comment "# Category: Memory"
  /\ category_of "# Category: Memory" = Some "Memory"
  /\ process_line Frag.py_eval ∅ "pretty" false initial_state "# Category: Memory"
     = Continue (RunState [nl ++ "Memory"] [] "Memory").
Proof.
  assert (H1 : is_plain_comment "# Category: Memory")
    by (repeat split; vm_compute; [discriminate|reflexivity..]).
  assert (H2 : category_of "# Category: Memory" = Some "Memory")
    by (vm_compute; reflexivity).
  split; [exact H1|]. split; [exact H2|].
  exact (proj1 (category_change_when_different Frag.py_eval ∅ "pretty" false
                  initial_state "# Category: Memory" "Memory" H1 H2)).
Defined.

Lemma category_header_detection_witness :
  category_of ("  " ++ "#" ++ " " ++ "CATEGORY" ++ " " ++ ":" ++ "  Buffer Pool  ")
  = Some "Buffer Pool".
Proof.
  refine (proj1 (category_header_detection Frag.py_eval ∅ "pretty" false
                   initial_state "  " " " "CATEGORY" " " "  Buffer Pool  "
                   _ _ _ _ _ _ _)).
  all: vm_compute; try reflexivity; discriminate.
Defined.

(** * Properties of a whole run *)

Section RunFacts.
Variable eval : evaluator.
Variable variables : gmap string value.
Variable output_mode : string.
Variable debug : bool.

Lemma process_comment_grows st raw :
  exists out,
    printed (process_comment output_mode st raw) = (printed st ++ out)%list
    /\ recommendation_pairs (process_comment output_mode st raw)
       = recommendation_pairs st.
Proof.
  unfold process_comment.
  destruct (Re.match_ category_re raw) as [[w caps]|];
    [|exists []; by rewrite app_nil_r].
  destruct (negb _ && negb _); [|exists []; by rewrite app_nil_r].
  destruct (String.eqb output_mode "csv"); simpl; eauto.
Qed.

Lemma process_rule_grows st label comp expr output_text :
  exists out pairs,
    printed (final_state (process_rule eval variables output_mode debug st
                            label comp expr output_text))
    = (printed st ++ out)%list
    /\ recommendation_pairs
         (final_state (process_rule eval variables output_mode debug st
                         label comp expr output_text))
       = (recommendation_pairs st ++ pairs)%list
    /\ Forall (fun pair => In (fst pair) out) pairs.
Proof.
  rewrite process_rule_spec.
  destruct (rule_abort_trace _ _ _ _) as [trace|]; simpl.
  { eexists. exists []. split; [reflexivity|]. split; [by rewrite app_nil_r|].
    constructor. }
  destruct (metric_line _ _ _ _) as [line|]; simpl.
  - eexists. eexists. split; [reflexivity|]. split; [reflexivity|].
    destruct (condition_ok _ _ _); [|constructor].
    constructor; [|constructor]. simpl. rewrite !in_app_iff. simpl. tauto.
  - eexists. exists []. split; [reflexivity|]. split; [by rewrite app_nil_r|].
    constructor.
Qed.

Lemma process_line_grows st raw :
  exists out pairs,
    printed (final_state (process_line eval variables output_mode debug st raw))
    = (printed st ++ out)%list
    /\ recommendation_pairs
         (final_state (process_line eval variables output_mode debug st raw))
       = (recommendation_pairs st ++ pairs)%list
    /\ Forall (fun pair => In (fst pair) out) pairs.
Proof.
  unfold process_line.
  destruct (String.eqb _ _).
  { exists [], []. simpl. by rewrite !app_nil_r. }
  destruct (PyStr.startswith _ _).
  { destruct (negb _); simpl.
    - destruct (process_comment_grows st raw) as (out & E1 & E2).
      exists out, []. rewrite E1, E2, app_nil_r. by repeat split.
    - exists [], []. by rewrite !app_nil_r. }
  destruct (parse_config_line raw) as [[[[label comp] expr] output_text]|].
  - apply process_rule_grows.
  - exists [], []. simpl. by rewrite !app_nil_r.
Qed.

Lemma process_lines_grows (lines : list string) (st : run_state) :
  exists out pairs,
    printed (final_state (process_lines eval variables output_mode debug st lines))
    = (printed st ++ out)%list
    /\ recommendation_pairs
         (final_state (process_lines eval variables output_mode debug st lines))
       = (recommendation_pairs st ++ pairs)%list
    /\ Forall (fun pair => In (fst pair) out) pairs.
Proof.
  revert st. induction lines as [|raw lines IH]; intros st; simpl.
  { exists [], []. by rewrite !app_nil_r. }
  destruct (process_line_grows st raw) as (out1 & pairs1 & E1 & E2 & F1).
  destruct (process_line eval variables output_mode debug st raw) as [st'|st'];
    simpl in *.
  - destruct (IH st') as (out2 & pairs2 & E3 & E4 & F2).
    exists (out1 ++ out2)%list, (pairs1 ++ pairs2)%list.
    rewrite E3, E4, E1, E2, <- !app_assoc. repeat split.
    apply Forall_app. split.
    + eapply Forall_impl; [exact F1|]. intros p Hp. apply in_app_iff. by left.
    + eapply Forall_impl; [exact F2|]. intros p Hp. apply in_app_iff. by right.
  - exists out1, pairs1. by repeat split.
Qed.

(** X1. The run is append-only: whatever the lines are, and whether the loop
    ends normally or by an exception, what had been printed stays first
    and in order, and so do the recommendation pairs collected before;
    and the metric line of each new pair is among the new printed
    texts. *)
Theorem run_is_append_only (lines : list string) (st : run_state) :
  exists out pairs,
    printed (final_state (process_lines eval variables output_mode debug st lines))
    = (printed st ++ out)%list
    /\ recommendation_pairs
         (final_state (process_lines eval variables output_mode debug st lines))
       = (recommendation_pairs st ++ pairs)%list
    /\ Forall (fun pair => In (fst pair) out) pairs.
Proof. apply process_lines_grows. Qed.
End RunFacts.

(** ** The recommendation section, lines passed over, categories *)

Section RunTheorems.
Variable eval : evaluator.
Variable variables : gmap string value.
Variable output_mode : string.
Variable debug : bool.

Lemma recommendation_lines_length pair :
  length (recommendation_lines output_mode pair) = entries_per_pair output_mode.
Proof.
  unfold recommendation_lines, entries_per_pair. destruct pair.
  by destruct (String.eqb output_mode "csv").
Qed.

Lemma recommendation_body_length pairs :
  length (concat (map (recommendation_lines output_mode) pairs))
  = entries_per_pair output_mode * length pairs.
Proof.
  induction pairs as [|pair pairs IH]; simpl; [lia|].
  rewrite length_app, recommendation_lines_length, IH. lia.
Qed.

(** X2. The recommendation section comes after everything else and changes
    nothing before it. A run whose loop ends normally prints, without
    recommendations, what the loop printed and nothing more; with
    recommendations it prints the same texts and then the section, for
    the pairs that the loop collected, in their order: nothing when there
    is no pair, otherwise the header and for each pair the metric line
    and the recommendation after [Recommendation,] (csv), or the metric
    line in bold, the recommendation and an empty text (pretty). Every
    metric line that the section repeats was printed by the loop. A run
    whose loop is left by an exception prints what the loop printed and
    no section. *)
Theorem recommendation_section_is_appended (lines : list string) :
  match process_lines eval variables output_mode debug initial_state lines with
  | Continue st =>
      let pairs := recommendation_pairs st in
      let section :=
        match pairs with
        | [] => []
        | _ =>
            (nl ++ nl ++ "RECOMMENDATIONS:")
            :: concat
                 (map (fun pair : string * string =>
                         if String.eqb output_mode "csv"
                         then [pair.1; "Recommendation," ++ pair.2]
                         else [ANSI_BOLD ++ pair.1 ++ ANSI_RESET; pair.2;
                               EmptyString])
                      pairs)
        end in
      evaluate_and_print eval variables output_mode debug lines false
      = Finished (printed st)
      /\ evaluate_and_print eval variables output_mode debug lines true
         = Finished (printed st ++ section)
      /\ Forall (fun pair => In pair.1 (printed st)) pairs
      /\ length section
         = match pairs with
           | [] => 0
           | _ => 1 + entries_per_pair output_mode * length pairs
           end
  | Abort st =>
      forall show_recommendations,
        evaluate_and_print eval variables output_mode debug lines
          show_recommendations
        = Raised (printed st)
  end.
Proof.
  unfold evaluate_and_print.
  destruct (process_lines_grows eval variables output_mode debug lines
              initial_state) as (out & pairs & E1 & E2 & F).
  destruct (process_lines _ _ _ _ _ _) as [st|st]; simpl in *; [|done].
  assert (S0 : recommendation_section output_mode false
                 (recommendation_pairs st) = []).
  { unfold recommendation_section. by destruct (recommendation_pairs st). }
  assert (S1 : forall ps,
            map (fun pair : string * string =>
                   if String.eqb output_mode "csv"
                   then [pair.1; "Recommendation," ++ pair.2]
                   else [ANSI_BOLD ++ pair.1 ++ ANSI_RESET; pair.2; EmptyString])
                ps
            = map (recommendation_lines output_mode) ps).
  { intros ps. apply map_ext. by intros [a b]. }
  rewrite S0, app_nil_r, S1. split; [done|].
  rewrite E1, E2. split; [|split; [done|]].
  - unfold recommendation_section. by destruct pairs.
  - destruct pairs as [|pair pairs]; [done|].
    change (S (length (concat (map (recommendation_lines output_mode)
                                 (pair :: pairs))))
            = 1 + entries_per_pair output_mode * length (pair :: pairs)).
    by rewrite recommendation_body_length.
Qed.

Lemma process_line_inert st raw :
  is_inert raw ->
  process_line eval variables output_mode debug st raw = Continue st.
Proof.
  unfold process_line. intros [Hblank|(Hc & [Hd|Hcat])].
  - by rewrite Hblank.
  - destruct (String.eqb _ _); [done|]. by rewrite Hc, Hd.
  - destruct (String.eqb _ _); [done|]. rewrite Hc.
    destruct (negb _); [|done].
    unfold process_comment. unfold category_of in Hcat.
    by destruct (Re.match_ category_re raw) as [[w caps]|].
Qed.

(** X3. Blank lines, disabled rules (comments that hold the rule delimiter)
    and comments that are no category header are passed over: nothing is
    evaluated or printed for them, and the run is the run without
    them. *)
Theorem inert_line_is_passed_over (raw : string) :
  is_inert raw ->
  (forall st,
     process_line eval variables output_mode debug st raw = Continue st)
  /\ (forall before after show_recommendations,
        evaluate_and_print eval variables output_mode debug
          (before ++ raw :: after) show_recommendations
        = evaluate_and_print eval variables output_mode debug
            (before ++ after) show_recommendations).
Proof.
  intros Hraw.
  assert (Hskip : forall st,
            process_line eval variables output_mode debug st raw
            = Continue st)
    by (intros st; by apply process_line_inert).
  split; [done|].
  intros before after show. unfold evaluate_and_print.
  by rewrite process_line_skip_lines.
Qed.

Lemma process_line_category st raw :
  current_category
    (final_state (process_line eval variables output_mode debug st raw))
  = match header_name raw with
    | Some name => name
    | None => current_category st
    end.
Proof.
  unfold process_line, header_name.
  destruct (String.eqb _ _); [done|].
  destruct (PyStr.startswith _ _); simpl.
  - destruct (negb _); simpl; [|done].
    destruct (category_of raw) as [name|] eqn:Hcat.
    + rewrite (process_comment_header _ _ _ name Hcat).
      destruct (String.eqb name (current_category st)) eqn:E; [|done].
      by apply String.eqb_eq in E.
    + unfold process_comment. unfold category_of in Hcat.
      by destruct (Re.match_ category_re raw) as [[w caps]|].
  - destruct (parse_config_line raw) as [[[[label comp] expr] output_text]|];
      [|done].
    rewrite process_rule_spec.
    destruct (rule_abort_trace _ _ _ _); [done|].
    by destruct (metric_line _ _ _ _).
Qed.

(** X4. The active category depends on the header lines only: when the loop
    has gone through the lines it is the category named by the last
    header, or the one it was before when there was no header. Rule lines,
    the variables, the evaluator and the output mode have no part in
    it. *)
Theorem active_category_is_last_header (lines : list string) (st st' : run_state) :
  process_lines eval variables output_mode debug st lines = Continue st' ->
  current_category st' = last_category (current_category st) lines.
Proof.
  revert st. induction lines as [|raw lines IH]; intros st; simpl.
  { by intros [= <-]. }
  pose proof (process_line_category st raw) as Hcat.
  destruct (process_line eval variables output_mode debug st raw) as [st1|st1];
    [|done].
  intros H. apply IH in H. simpl in Hcat. by rewrite H, Hcat.
Qed.
End RunTheorems.

Lemma inert_line_is_passed_over_witness :
  is_inert "# Uptime too low ||| < 60 ||| Uptime ||| Raise it"
  /\ process_line Frag.py_eval ∅ "pretty" false initial_state
       "# Uptime too low ||| < 60 ||| Uptime ||| Raise it"
     = Continue initial_state.
Proof.
  assert (H : is_inert "# Uptime too low ||| < 60 ||| Uptime ||| Raise it")
    by (right; split; [|left]; vm_compute; reflexivity).
  split; [exact H|].
  exact (proj1 (inert_line_is_passed_over Frag.py_eval ∅ "pretty" false
                  "# Uptime too low ||| < 60 ||| Uptime ||| Raise it" H)
           initial_state).
Defined.

Lemma active_category_is_last_header_witness :
  process_lines Frag.py_eval ∅ "csv" false initial_state
    ["# Category: Memory"; "# a note"; "# Category: Threads"; "not a rule"]
  = Continue (RunState ["Category,Memory"; "Category,Threads"] [] "Threads")
  /\ last_category EmptyString
       ["# Category: Memory"; "# a note"; "# Category: Threads"; "not a rule"]
     = "Threads".
Proof.
  assert (H : process_lines Frag.py_eval ∅ "csv" false initial_state
                ["# Category: Memory"; "# a note"; "# Category: Threads";
                 "not a rule"]
              = Continue (RunState ["Category,Memory"; "Category,Threads"] []
                            "Threads"))
    by (vm_compute; reflexivity).
  split; [exact H|].
  symmetry.
  exact (active_category_is_last_header Frag.py_eval ∅ "csv" false _ _ _ H).
Defined.

(** ** Debug mode *)

Section DebugFacts.
Variable eval : evaluator.
Variable variables : gmap string value.
Variable output_mode : string.

Lemma process_line_debug st_d st raw :
  debug_refines st_d st ->
  match process_line eval variables output_mode true st_d raw,
        process_line eval variables output_mode false st raw with
  | Continue a, Continue b => debug_refines a b
  | Abort a, Abort b => debug_refines a b
  | _, _ => False
  end.
Proof.
  intros (Hp & Hr & Hc). unfold process_line.
  destruct (String.eqb _ _); [done|].
  destruct (PyStr.startswith _ _).
  - destruct (negb _); [|done].
    unfold process_comment.
    destruct (Re.match_ category_re raw) as [[w caps]|]; [|done].
    rewrite Hc. destruct (negb _ && negb _); [|done].
    destruct (String.eqb output_mode "csv"); simpl;
      (split; [by apply sublist_app|done]).
  - destruct (parse_config_line raw) as [[[[label comp] expr] output_text]|];
      [|done].
    rewrite !process_rule_spec. unfold rule_abort_trace.
    destruct (substitution_raises expr variables).
    { repeat split; [|done..]. simpl. rewrite app_nil_r.
      by apply sublist_inserts_r. }
    cbn [andb].
    destruct (str_raises (derived_value eval variables expr)) eqn:Hlimit.
    { assert (Hnone : metric_line output_mode label expr
                        (derived_value eval variables expr) = None).
      { unfold metric_line. rewrite Hlimit.
        destruct (String.eqb output_mode "csv"); [done|].
        destruct (str_raises_overflow _ Hlimit) as (n & -> & Hn).
        simpl. by rewrite Hn. }
      rewrite Hnone. repeat split; [|done..]. simpl. rewrite app_nil_r.
      by apply sublist_inserts_r. }
    destruct (metric_line _ _ _ _) as [line|]; simpl.
    + repeat split; [|by rewrite Hr|done].
      apply sublist_app; [done|].
      do 3 apply sublist_cons. apply sublist_skip.
      unfold match_lines. simpl. apply sublist_nil_l.
    + repeat split; [|done..].
      rewrite app_nil_r. by apply sublist_inserts_r.
Qed.

Lemma process_lines_debug lines : forall st_d st,
  debug_refines st_d st ->
  match process_lines eval variables output_mode true st_d lines,
        process_lines eval variables output_mode false st lines with
  | Continue a, Continue b => debug_refines a b
  | Abort a, Abort b => debug_refines a b
  | _, _ => False
  end.
Proof.
  induction lines as [|raw lines IH]; intros st_d st H; simpl; [done|].
  pose proof (process_line_debug st_d st raw H) as H1.
  destruct (process_line eval variables output_mode true st_d raw) as [a|a],
           (process_line eval variables output_mode false st raw) as [b|b];
    try done.
  by apply IH.
Qed.

(** X6. Debug mode only adds texts. With and without it the loop ends the
    same way (normally, or by an exception), and what it has printed
    without debug mode is among what it has printed in debug mode, in
    the same order. When it ends normally it has collected the same
    recommendation pairs, so that both runs print, after the texts of
    the loop, the same recommendation section; when it is left by an
    exception, both runs end by it, with the texts of the loop. *)
Theorem debug_mode_only_adds_output (lines : list string) (show_recommendations : bool) :
  match process_lines eval variables output_mode true initial_state lines,
        process_lines eval variables output_mode false initial_state lines with
  | Continue with_debug, Continue without =>
      printed without `sublist_of` printed with_debug
      /\ recommendation_pairs with_debug = recommendation_pairs without
      /\ exists section,
           evaluate_and_print eval variables output_mode true lines
             show_recommendations
           = Finished (printed with_debug ++ section)
           /\ evaluate_and_print eval variables output_mode false lines
                show_recommendations
              = Finished (printed without ++ section)
           /\ section
              = recommendation_section output_mode show_recommendations
                  (recommendation_pairs without)
  | Abort with_debug, Abort without =>
      printed without `sublist_of` printed with_debug
      /\ evaluate_and_print eval variables output_mode true lines
           show_recommendations
         = Raised (printed with_debug)
      /\ evaluate_and_print eval variables output_mode false lines
           show_recommendations
         = Raised (printed without)
  | _, _ => False
  end.
Proof.
  unfold evaluate_and_print.
  assert (H0 : debug_refines initial_state initial_state) by by repeat split.
  pose proof (process_lines_debug lines initial_state initial_state H0) as H.
  destruct (process_lines eval variables output_mode true initial_state lines)
    as [a|a],
    (process_lines eval variables output_mode false initial_state lines)
    as [b|b]; try done.
  - destruct H as (Hp & Hr & Hc). split; [done|]. split; [done|].
    eexists. split; [by rewrite <- Hr|]. by split.
  - by destruct H as (Hp & Hr & Hc).
Qed.
End DebugFacts.

(** * When display rounding raises *)

Lemma round2_if_numeric_none (v : value) (expr_text : string) :
  round2_if_numeric v expr_text = None
  <-> exists n, v = VInt n /\ PyFloat.of_Z n = None.
Proof.
  split.
  - destruct v as [n|x|b|s]; simpl.
    + destruct (PyFloat.of_Z n) as [x|] eqn:Hn; [|eauto].
      by destruct (round2_total x) as [y ->].
    + by destruct (round2_total x) as [y ->].
    + destruct b; by vm_compute.
    + destruct (negb _ && _); [|done].
      destruct (PyFloat.of_string s) as [x|]; [|done].
      by destruct (round2 x).
  - intros (n & -> & Hn). simpl. by rewrite Hn.
Qed.

(** X7. Display rounding raises for one kind of value only: an [int] that
    [float] rejects as too large. For a [float], a [bool] and a [str] it
    always returns. *)
Theorem display_rounding_raises_only_on_int_overflow (v : value) (expr_text : string) :
  round2_if_numeric v expr_text = None
  <-> exists n, v = VInt n /\ PyFloat.of_Z n = None.
Proof. apply round2_if_numeric_none. Qed.

(** * When a run ends by an exception *)

Section AbortFacts.
Variable eval : evaluator.
Variable variables : gmap string value.
Variable output_mode : string.
Variable debug : bool.

Lemma str_raises_int (v : value) :
  str_raises v = true
  <-> exists n, v = VInt n /\ (10 ^ int_max_str_digits <= Z.abs n)%Z.
Proof.
  split.
  - destruct v as [n| | |]; try done. cbn [str_raises].
    intros H%Z.leb_le. by exists n.
  - intros (n & -> & H). cbn [str_raises]. by apply Z.leb_le.
Qed.

(** The loop body on a rule is left by an exception exactly in three
    cases, whatever the state. *)
Lemma process_rule_abort st label comp expr output_text :
  (exists st',
     process_rule eval variables output_mode debug st
       label comp expr output_text = Abort st')
  <-> (substitution_raises expr variables = true
       \/ exists n,
            derived_value eval variables expr = VInt n
            /\ (((output_mode = "csv" \/ debug = true)
                 /\ (10 ^ int_max_str_digits <= Z.abs n)%Z)
                \/ (output_mode <> "csv" /\ PyFloat.of_Z n = None))).
Proof.
  rewrite process_rule_spec. unfold rule_abort_trace, metric_line.
  set (v := derived_value eval variables expr).
  destruct (substitution_raises expr variables).
  { split; [by left|eauto]. }
  destruct (str_raises v) eqn:Hlimit.
  - pose proof (proj1 (str_raises_int v) Hlimit) as (n & Hv & Hn).
    destruct (str_raises_overflow v Hlimit) as (n' & Hv' & Hn').
    split.
    + intros _. right. exists n. split; [done|].
      destruct (String.eqb output_mode "csv") eqn:Hmode.
      * apply String.eqb_eq in Hmode. left. split; [by left|done].
      * apply String.eqb_neq in Hmode. right. split; [done|].
        rewrite Hv' in Hv. by injection Hv as ->.
    + intros _. destruct debug; [simpl; eauto|]. cbn [andb].
      destruct (String.eqb output_mode "csv"); [eauto|].
      rewrite Hv'. simpl. rewrite Hn'. eauto.
  - rewrite andb_false_r.
    destruct (String.eqb output_mode "csv") eqn:Hmode.
    + apply String.eqb_eq in Hmode. split; [by intros [st' H]|].
      intros [H|(n & Hv & [[_ Hn]|[Hne _]])]; [done| |done].
      assert (str_raises v = true) by (apply str_raises_int; eauto).
      congruence.
    + apply String.eqb_neq in Hmode.
      destruct (round2_if_numeric v expr) as [d|] eqn:Hr.
      * split; [by intros [st' H]|].
        intros [H|(n & Hv & [[[Hcsv|Hdebug] Hn]|[_ Hn]])]; [done|done| |].
        -- assert (str_raises v = true) by (apply str_raises_int; eauto).
           congruence.
        -- assert (round2_if_numeric v expr = None)
             by (apply round2_if_numeric_none; eauto).
           congruence.
      * apply round2_if_numeric_none in Hr as (n & Hv & Hn).
        split; [|eauto]. intros _. right. exists n. split; [done|].
        right. by split.
Qed.

Lemma process_line_abort st raw :
  (exists st',
     process_line eval variables output_mode debug st raw = Abort st')
  <-> raising_rule eval variables output_mode debug raw.
Proof.
  unfold process_line, raising_rule, is_rule_candidate.
  destruct (String.eqb_spec (PyStr.strip raw) EmptyString) as [Hblank|Hblank].
  { split; [by intros [st' H]|]. by intros [[H _] _]. }
  destruct (PyStr.startswith "#" (PyStr.lstrip raw)) eqn:Hc.
  { split; [intros [st' H]; by destruct (negb _)|]. by intros [[_ H] _]. }
  destruct (parse_config_line raw) as [[[[label comp] expr] output_text]|]
    eqn:Hparse.
  - rewrite process_rule_abort. split.
    + intros H. split; [done|]. by exists label, comp, expr, output_text.
    + intros (_ & l & c & e & o & [= <- <- <- <-] & H). done.
  - split; [by intros [st' H]|]. by intros (_ & l & c & e & o & H & _).
Qed.

Lemma process_line_outcome st raw :
  exists st',
    process_line eval variables output_mode debug st raw = Continue st'
    \/ process_line eval variables output_mode debug st raw = Abort st'.
Proof.
  destruct (process_line eval variables output_mode debug st raw) as [st'|st'];
    eauto.
Qed.

Lemma process_lines_abort lines : forall st,
  (exists st',
     process_lines eval variables output_mode debug st lines = Abort st')
  <-> exists raw,
        In raw lines /\ raising_rule eval variables output_mode debug raw.
Proof.
  induction lines as [|raw lines IH]; intros st; simpl.
  { split; [by intros [st' H]|by intros (raw & [] & _)]. }
  pose proof (process_line_abort st raw) as Hline.
  destruct (process_line eval variables output_mode debug st raw)
    as [st1|st1].
  - rewrite IH. split.
    + intros (raw' & Hin & H). exists raw'. split; [by right|done].
    + intros (raw' & [<-|Hin] & H); [|by exists raw'].
      apply Hline in H as [st' H]. done.
  - split; [|eauto]. intros _. exists raw. split; [by left|].
    apply Hline. eauto.
Qed.

(** X8. A run ends by an exception exactly when one of its lines is a rule
    at which a conversion raises outside every handler: the substitution
    converts an [int] variable of more than 4300 digits to text; or the
    derived value is an [int] of more than 4300 digits and the metric
    line of csv mode or the debug text shows it; or the derived value is
    an [int] too large for a [float] and display rounding converts it,
    outside csv mode. Given that [print] does not fail and that [eval]
    returns an [int], a [float], a [bool] or a [str], or raises an
    exception that its handler catches. *)
Theorem run_raises_exactly_at_a_raising_rule
    (lines : list string) (show_recommendations : bool) :
  (exists out,
     evaluate_and_print eval variables output_mode debug lines
       show_recommendations
     = Raised out)
  <-> exists raw,
        In raw lines /\ raising_rule eval variables output_mode debug raw.
Proof.
  rewrite <- (process_lines_abort lines initial_state).
  unfold evaluate_and_print.
  destruct (process_lines _ _ _ _ _ _) as [st|st].
  - split; [by intros [out H]|by intros [st' H]].
  - split; eauto.
Qed.
End AbortFacts.

Lemma run_raises_exactly_at_a_raising_rule_witness :
  exists out,
    evaluate_and_print power_eval ∅ "csv" false
      ["Big ||| ||| 10**4300 ||| (none)"; "Small ||| ||| 1 ||| (none)"] true
    = Raised out.
Proof.
  apply (proj2 (run_raises_exactly_at_a_raising_rule power_eval ∅ "csv" false
                  ["Big ||| ||| 10**4300 ||| (none)";
                   "Small ||| ||| 1 ||| (none)"] true)).
  exists "Big ||| ||| 10**4300 ||| (none)". split; [by left|].
  split; [split; vm_compute; [discriminate|reflexivity]|].
  exists "Big", EmptyString, "10**4300", "(none)".
  split; [vm_compute; reflexivity|]. right. exists (10 ^ 4300)%Z.
  split; [vm_compute; reflexivity|]. left. split; [by left|].
  apply Z.leb_le. vm_compute. reflexivity.
Defined.

Section CsvRuns.
Variable eval : evaluator.
Variable variables : gmap string value.
Variable debug : bool.

Lemma process_line_csv_continues st raw :
  within_digit_limit eval variables raw ->
  exists st', process_line eval variables "csv" debug st raw = Continue st'.
Proof.
  intros Hraw. unfold process_line.
  destruct (String.eqb _ _); [eauto|].
  destruct (PyStr.startswith _ _); [destruct (negb _); eauto|].
  destruct (parse_config_line raw) as [[[[label comp] expr] output_text]|]
    eqn:Hparse; [|eauto].
  destruct (Hraw _ _ _ _ Hparse) as [Hsub Hlimit].
  rewrite process_rule_spec. unfold rule_abort_trace, metric_line.
  rewrite Hsub, Hlimit, andb_false_r. simpl. eauto.
Qed.

(** X5. In csv mode the float conversion of display rounding plays no part:
    a run whose conversions to text stay within the limit on the digits
    (no substitution of an [int] variable of more than 4300 digits, no
    derived value that is such an [int]) ends normally, however large
    its values are as numbers. Given that [print] does not fail and that
    [eval] returns an [int], a [float], a [bool] or a [str], or raises an
    exception that its handler catches. *)
Theorem csv_run_finishes_within_digit_limit
    (lines : list string) (show_recommendations : bool) :
  Forall (within_digit_limit eval variables) lines ->
  exists out,
    evaluate_and_print eval variables "csv" debug lines show_recommendations
    = Finished out.
Proof.
  intros Hlines. unfold evaluate_and_print.
  enough (forall st, exists st',
            process_lines eval variables "csv" debug st lines = Continue st')
    as H by (destruct (H initial_state) as [st' ->]; eauto).
  induction Hlines as [|raw lines Hraw Hlines IH]; intros st; simpl; [eauto|].
  destruct (process_line_csv_continues st raw Hraw) as [st1 ->]. apply IH.
Qed.
End CsvRuns.

Lemma csv_run_finishes_within_digit_limit_witness :
  Forall (within_digit_limit Frag.py_eval ∅)
    ["Big ||| ||| " ++ big_literal ++ " ||| (none)"]
  /\ exists out,
       evaluate_and_print Frag.py_eval ∅ "csv" false
         ["Big ||| ||| " ++ big_literal ++ " ||| (none)"] false
       = Finished out.
Proof.
  assert (H : Forall (within_digit_limit Frag.py_eval ∅)
                ["Big ||| ||| " ++ big_literal ++ " ||| (none)"]).
  { constructor; [|constructor].
    intros label comp expr output_text Hparse.
    vm_compute in Hparse. injection Hparse as <- <- <- <-.
    split; vm_compute; reflexivity. }
  split; [exact H|].
  exact (csv_run_finishes_within_digit_limit Frag.py_eval ∅ false _ false H).
Defined.

(** * Splitting a line into fields *)

Lemma split_bars_delimiter rest :
  PyStr.split_bars ("|||" ++ rest) = EmptyString :: PyStr.split_bars rest.
Proof. reflexivity. Qed.

Lemma split_bars_char c rest :
  PyStr.startswith "|||" (String c rest) = false ->
  PyStr.split_bars (String c rest)
  = match PyStr.split_bars rest with
    | f :: fs => String c f :: fs
    | [] => [String c EmptyString]
    end.
Proof.
  intros H.
  destruct c as [[] [] [] [] [] [] [] []]; try reflexivity.
  destruct rest as [|c2 rest]; [reflexivity|].
  destruct c2 as [[] [] [] [] [] [] [] []]; try reflexivity.
  destruct rest as [|c3 rest]; [reflexivity|].
  destruct c3 as [[] [] [] [] [] [] [] []]; try reflexivity. done.
Qed.

Lemma startswith_bars_or_char s :
  (exists rest, s = "|||" ++ rest) \/ PyStr.startswith "|||" s = false.
Proof.
  destruct s as [|c1 [|c2 [|c3 s]]]; cbn [PyStr.startswith].
  - by right.
  - right. by rewrite andb_false_r.
  - right. by rewrite !andb_false_r.
  - destruct (Ascii.eqb_spec "|" c1) as [<-|]; [|by right].
    destruct (Ascii.eqb_spec "|" c2) as [<-|]; [|by right].
    destruct (Ascii.eqb_spec "|" c3) as [<-|]; [|by right].
    left. by exists s.
Qed.

(** Whether a delimiter starts at the head of a field that a delimiter
    follows can be read off the field and two bars. *)
Lemma startswith_before_delimiter c a rest :
  PyStr.startswith "|||" (String c a ++ "|||" ++ rest)
  = PyStr.startswith "|||" (String c a ++ "||").
Proof.
  destruct a as [|c2 [|c3 a]]; reflexivity.
Qed.

Lemma split_bars_cut a rest :
  cut_free a ->
  PyStr.split_bars (a ++ "|||" ++ rest) = a :: PyStr.split_bars rest.
Proof.
  unfold cut_free. induction a as [|c a IH]; intros H.
  - reflexivity.
  - rewrite str_app_cons in H. cbn [PyStr.contains] in H.
    apply orb_false_elim in H as [H1 H2].
    rewrite str_app_cons, split_bars_char.
    + by rewrite IH.
    + rewrite <- str_app_cons. rewrite startswith_before_delimiter.
      rewrite str_app_cons. exact H1.
Qed.

Lemma split_bars_last d :
  PyStr.contains "|||" d = false -> PyStr.split_bars d = [d].
Proof.
  induction d as [|c d IH]; intros H; [done|].
  cbn [PyStr.contains] in H. apply orb_false_elim in H as [H1 H2].
  rewrite split_bars_char by exact H1. by rewrite IH.
Qed.

Lemma fields_of_split s fs : fields_of s fs -> PyStr.split_bars s = fs.
Proof.
  induction 1 as [d Hd|a rest fs Ha _ IH].
  - by apply split_bars_last.
  - by rewrite split_bars_cut, IH.
Qed.

Lemma split_fields_of n : forall s,
  String.length s <= n -> fields_of s (PyStr.split_bars s).
Proof.
  induction n as [|n IH]; intros s Hlen.
  { destruct s; [by constructor|simpl in Hlen; lia]. }
  destruct (startswith_bars_or_char s) as [[rest ->]|Hs].
  - rewrite split_bars_delimiter.
    apply (fields_cut EmptyString); [done|].
    apply IH. rewrite !str_app_cons, str_app_nil_l in Hlen. simpl in Hlen. lia.
  - destruct s as [|c s]; [by constructor|].
    rewrite split_bars_char by done.
    assert (Hrest : fields_of s (PyStr.split_bars s))
      by (apply IH; simpl in Hlen; lia).
    inversion Hrest as [d Hd E1 E2|a rest fs Ha Hf E1 E2].
    + apply fields_last. cbn [PyStr.contains]. by rewrite Hs, Hd.
    + rewrite <- str_app_cons. apply fields_cut; [|done].
      unfold cut_free in *. rewrite str_app_cons. cbn [PyStr.contains].
      rewrite Ha, orb_false_r. rewrite <- str_app_cons.
      rewrite <- E1, <- str_app_cons, startswith_before_delimiter in Hs.
      exact Hs.
Qed.

(** [split] and the fields: the fields of a line are what [split] returns,
    and with the delimiter put back between them they are the line. *)
Lemma split_bars_fields s fs : PyStr.split_bars s = fs <-> fields_of s fs.
Proof.
  split; [|apply fields_of_split].
  intros <-. by apply (split_fields_of (String.length s)).
Qed.

(** * Stripping twice *)

Lemma rstrip_fixed t :
  (forall u v, t = u ++ v -> v <> EmptyString ->
     PyStr.all_chars PyStr.is_space v = false) ->
  PyStr.rstrip t = t.
Proof.
  induction t as [|c t IH]; intros H; [done|].
  simpl. rewrite IH.
  - destruct t as [|d t]; [|done].
    pose proof (H EmptyString (String c EmptyString) eq_refl) as Hc.
    simpl in Hc. rewrite andb_true_r in Hc. by rewrite Hc.
  - intros u v -> Hv. by apply (H (String c u) v).
Qed.

Lemma strip_idempotent s : PyStr.strip (PyStr.strip s) = PyStr.strip s.
Proof.
  destruct (PyStr.strip s) as [|c t] eqn:E; [done|].
  destruct (strip_spec s) as (a & b & _ & _ & _ & Hfirst & Hlast);
    [by rewrite E|].
  rewrite E in Hfirst, Hlast.
  unfold PyStr.strip.
  assert (PyStr.lstrip (String c t) = String c t) as ->.
  { simpl. by rewrite (Hfirst c). }
  by apply rstrip_fixed.
Qed.

Lemma fields_of_cons s a f fs :
  fields_of s (a :: f :: fs) ->
  exists rest, s = a ++ "|||" ++ rest /\ cut_free a /\ fields_of rest (f :: fs).
Proof. inversion 1; subst. eauto. Qed.

Lemma fields_of_one s d :
  fields_of s [d] -> s = d /\ PyStr.contains "|||" d = false.
Proof.
  inversion 1 as [|? ? ? ? Hf]; subst; [done|]. inversion Hf.
Qed.

(** X9. A rule line is parsed exactly when it is four fields with three
    delimiters between them, each delimiter read at the first place where
    one starts; the parts of the rule are then those fields without the
    blanks around them. *)
Theorem parse_config_line_fields
    (raw label comp expr output_text : string) :
  parse_config_line raw = Some (label, comp, expr, output_text)
  <-> exists a b c d,
        fields_of raw [a; b; c; d]
        /\ raw = a ++ "|||" ++ b ++ "|||" ++ c ++ "|||" ++ d
        /\ label = PyStr.strip a /\ comp = PyStr.strip b
        /\ expr = PyStr.strip c /\ output_text = PyStr.strip d.
Proof.
  unfold parse_config_line. split.
  - destruct (PyStr.split_bars raw) as [|a [|b [|c [|d [|x l]]]]] eqn:E;
      try done.
    intros [= <- <- <- <-]. apply split_bars_fields in E.
    exists a, b, c, d. repeat split; [done|].
    apply fields_of_cons in E as (r1 & -> & _ & E).
    apply fields_of_cons in E as (r2 & -> & _ & E).
    apply fields_of_cons in E as (r3 & -> & _ & E).
    by apply fields_of_one in E as [-> _].
  - intros (a & b & c & d & Hf & _ & -> & -> & -> & ->).
    apply split_bars_fields in Hf. by rewrite Hf.
Qed.

(** X10. The parts of a parsed rule have no blanks around them: stripping one
    again, as the loop does with the condition, changes nothing. *)
Theorem parsed_fields_are_stripped
    (raw label comp expr output_text : string) :
  parse_config_line raw = Some (label, comp, expr, output_text) ->
  PyStr.strip label = label /\ PyStr.strip comp = comp
  /\ PyStr.strip expr = expr /\ PyStr.strip output_text = output_text.
Proof.
  unfold parse_config_line.
  destruct (PyStr.split_bars raw) as [|a [|b [|c [|d [|x l]]]]]; try done.
  intros [= <- <- <- <-]. by rewrite !strip_idempotent.
Qed.

Lemma parsed_fields_are_stripped_witness :
  parse_config_line "Uptime too low ||| < 60 ||| Uptime ||| Raise it"
  = Some ("Uptime too low", "< 60", "Uptime", "Raise it")
  /\ PyStr.strip "< 60" = "< 60".
Proof.
  assert (H : parse_config_line "Uptime too low ||| < 60 ||| Uptime ||| Raise it"
              = Some ("Uptime too low", "< 60", "Uptime", "Raise it"))
    by (vm_compute; reflexivity).
  split; [exact H|].
  exact (proj1 (proj2 (parsed_fields_are_stripped _ _ _ _ _ H))).
Defined.

(** * Which variables a substitution sees *)

Lemma token_is_identifier p w after : token_at p w after -> is_identifier w = true.
Proof. by intros [H _]. Qed.

Lemma substituted_agree vars1 vars2 p s out :
  (forall w, is_identifier w = true -> vars1 !! w = vars2 !! w) ->
  substituted vars1 p s out -> substituted vars2 p s out.
Proof.
  intros Hagree. induction 1 as [p|p w after out v Htok Hv _ IH
                               |p w after out Htok Hv _ IH|p c s out Hno _ IH].
  - constructor.
  - apply substituted_variable; [done| |done].
    by rewrite <- (Hagree w (token_is_identifier _ _ _ Htok)).
  - apply substituted_other; [done| |done].
    by rewrite <- (Hagree w (token_is_identifier _ _ _ Htok)).
  - by apply substituted_char.
Qed.

Lemma substituted_unchanged variables p s out :
  (forall w, is_identifier w = true -> variables !! w = None) ->
  substituted variables p s out -> out = s.
Proof.
  intros Hnone. induction 1 as [p|p w after out v Htok Hv _ IH
                              |p w after out Htok Hv _ IH|p c s out Hno _ IH].
  - done.
  - by rewrite (Hnone w (token_is_identifier _ _ _ Htok)) in Hv.
  - by rewrite IH.
  - by rewrite IH.
Qed.

(** Each match of the identifier pattern in a scan is an identifier. *)
Lemma scan_hits_identifiers : forall s p skip w,
  In (Re.Hit w) (Re.scan ident_re p s skip) -> is_identifier w = true.
Proof.
  induction s as [|c s IH]; intros p skip w; simpl; [done|].
  destruct skip as [|n]; [|apply IH].
  destruct (Re.match_at ident_re (Re.State p (String c s)))
    as [[[|a w'] caps]|] eqn:Hm; simpl.
  - intros [H|H]; [done|by eapply IH].
  - intros [[= <-]|H]; [|by eapply IH].
    by apply ident_match_token in Hm as (after & _ & Hid & _).
  - intros [H|H]; [done|by eapply IH].
Qed.

Lemma substitution_raises_agree vars1 vars2 expr :
  (forall w, is_identifier w = true -> vars1 !! w = vars2 !! w) ->
  substitution_raises expr vars1 = substitution_raises expr vars2.
Proof.
  intros Hagree. unfold substitution_raises, Re.pieces.
  pose proof (scan_hits_identifiers expr None 0) as Hid.
  induction (Re.scan ident_re None expr 0) as [|pc l IH]; [done|].
  simpl. rewrite IH by (intros w Hw; apply Hid; by right). f_equal.
  destruct pc as [c|w]; [done|].
  by rewrite (Hagree w) by (apply Hid; by left).
Qed.

(** X13. A variable is looked up by the identifier tokens of the expression
    only, so a key that is no identifier (one with a dash or a point in
    it, or one that starts with a digit) is never used: two tables that
    agree on the identifiers give the same substitution of every
    expression and the same run on every rule file. *)
Theorem only_identifier_keys_are_used (vars1 vars2 : gmap string value) :
  (forall w, is_identifier w = true -> vars1 !! w = vars2 !! w) ->
  (forall expr,
     substitute_expr_variables expr vars1 = substitute_expr_variables expr vars2)
  /\ (forall eval output_mode debug lines show_recommendations,
        evaluate_and_print eval vars1 output_mode debug lines
          show_recommendations
        = evaluate_and_print eval vars2 output_mode debug lines
            show_recommendations).
Proof.
  intros Hagree.
  assert (Hsub : forall expr,
            substitute_expr_variables expr vars1
            = substitute_expr_variables expr vars2).
  { intros expr.
    apply (substituted_functional vars2 None expr);
      [|apply substitute_substituted].
    apply (substituted_agree vars1); [done|apply substitute_substituted]. }
  split; [done|].
  intros eval output_mode debug lines show. unfold evaluate_and_print.
  assert (Hline : forall st raw,
            process_line eval vars1 output_mode debug st raw
            = process_line eval vars2 output_mode debug st raw).
  { intros st raw. unfold process_line, process_rule.
    destruct (String.eqb _ _); [done|].
    destruct (PyStr.startswith _ _); [done|].
    destruct (parse_config_line raw) as [[[[label comp] expr] output_text]|];
      [|done].
    by rewrite Hsub, (substitution_raises_agree vars1 vars2). }
  assert (Hlines : forall st,
            process_lines eval vars1 output_mode debug st lines
            = process_lines eval vars2 output_mode debug st lines).
  { induction lines as [|raw lines IH]; intros st; simpl; [done|].
    rewrite Hline.
    destruct (process_line eval vars2 output_mode debug st raw); [apply IH|done]. }
  by rewrite Hlines.
Qed.

Lemma only_identifier_keys_are_used_witness :
  substitute_expr_variables "max-connections * 2"
    {[ "max-connections" := VInt 100 ]}
  = substitute_expr_variables "max-connections * 2" ∅.
Proof.
  refine (proj1 (only_identifier_keys_are_used
                   {[ "max-connections" := VInt 100 ]} ∅ _) _).
  intros w Hw. rewrite lookup_empty. apply lookup_singleton_ne.
  intros <-. vm_compute in Hw. discriminate.
Defined.

(** X14. Without a variable to substitute the expression stays as it is: this
    holds for the empty table and for every table in which no key is an
    identifier. *)
Theorem substitution_without_variables
    (variables : gmap string value) (expr : string) :
  (forall w, is_identifier w = true -> variables !! w = None) ->
  substitute_expr_variables expr variables = expr.
Proof.
  intros Hnone.
  apply (substituted_unchanged variables None); [done|].
  apply substitute_substituted.
Qed.

Lemma substitution_without_variables_witness :
  substitute_expr_variables "Uptime / 3600" ∅ = "Uptime / 3600".
Proof.
  apply substitution_without_variables. intros w _. apply lookup_empty.
Defined.

(** * The condition compiler *)

Lemma matches_lit lit : forall st caps w st' caps',
  matches (Re.Lit lit) st caps w st' caps' -> w = lit.
Proof.
  induction lit as [|c lit IH]; intros st caps w st' caps' M; simpl in M.
  - by inversion M.
  - inversion M as [| |? ? ? ? ? ? ? ? ? ? Mc Ml| | | | | | | |]; subst.
    apply IH in Ml as ->. inversion Mc as [|? ? x ? ? Hx| | | | | | | | |]; subst.
    by apply is_char_eq in Hx as ->.
Qed.

(** A condition that one of the two regex patterns matches starts with
    the operator of the pattern. *)
Lemma regex_condition_prefix op text r :
  Re.match_ (regex_condition_re op) text = Some r ->
  exists rest_, text = op ++ rest_.
Proof.
  unfold Re.match_, Re.match_at. intros H.
  apply run_sound in H as (w & st' & caps' & M & _).
  destruct (matches_reads _ _ _ _ _ _ M) as [E _]. simpl in E. subst text.
  cbv [regex_condition_re Re.seq] in M.
  inversion M as [| |? ? ? ? ? ? ? ? ? ? Ml _| | | | | | | |]; subst.
  apply matches_lit in Ml as ->. rewrite str_app_assoc. eauto.
Qed.

Lemma regex_condition_none op text :
  PyStr.startswith op text = false ->
  Re.match_ (regex_condition_re op) text = None.
Proof.
  intros H. destruct (Re.match_ _ _) as [r|] eqn:E; [|done].
  apply regex_condition_prefix in E as [rest_ ->].
  assert (PyStr.startswith op (op ++ rest_) = true); [|congruence].
  clear H. induction op as [|c op IH]; [done|].
  rewrite str_app_cons. simpl. by rewrite Ascii.eqb_refl, IH.
Qed.

Lemma startswith_cons a p b s :
  PyStr.startswith (String a p) (String b s)
  = Ascii.eqb a b && PyStr.startswith p s.
Proof. reflexivity. Qed.

(** X15. A comparison that starts with an operator sign is applied to the
    value: the value alias is put before it. This holds for the signs
    [<], [>], [!] and [=] unless a tilde follows the sign. *)
Theorem leading_operator_is_applied_to_value
    (comp_text value_alias : string) (c : ascii) (rhs : string) :
  PyStr.strip comp_text = String c rhs ->
  (c = "<" \/ c = ">" \/ c = "!" \/ c = "=")%char ->
  PyStr.startswith "~" rhs = false ->
  build_condition_expression comp_text value_alias
  = value_alias ++ " " ++ String c rhs.
Proof.
  intros Htext Hc Hrhs. unfold build_condition_expression. rewrite Htext.
  rewrite !regex_condition_none.
  - by destruct Hc as [->|[->|[->| ->]]].
  - by rewrite startswith_cons, Hrhs, andb_false_r.
  - by rewrite startswith_cons, Hrhs, andb_false_r.
Qed.

Lemma leading_operator_is_applied_to_value_witness :
  build_condition_expression "  >= 100 " "v" = "v >= 100".
Proof.
  apply (leading_operator_is_applied_to_value "  >= 100 " "v" ">" "= 100");
    [vm_compute; reflexivity|auto|vm_compute; reflexivity].
Defined.

(** X16. A condition that starts with no operator sign, no point and neither
    of the words eq and ne is taken as a full expression: it is returned
    as it is, stripped. *)
Theorem plain_condition_is_kept (comp_text value_alias : string) :
  (forall c rest_, PyStr.strip comp_text = String c rest_ ->
     c <> "<" /\ c <> ">" /\ c <> "!" /\ c <> "=" /\ c <> ".")%char ->
  PyStr.startswith "eq " (PyStr.strip comp_text) = false ->
  PyStr.startswith "ne " (PyStr.strip comp_text) = false ->
  build_condition_expression comp_text value_alias = PyStr.strip comp_text.
Proof.
  intros Hc Heq Hne. unfold build_condition_expression.
  rewrite Heq, Hne.
  destruct (PyStr.strip comp_text) as [|c rest_] eqn:Htext; [done|].
  destruct (Hc c rest_ eq_refl) as (H1 & H2 & H3 & H4 & H5).
  rewrite !regex_condition_none.
  - rewrite !startswith_cons.
    destruct (Ascii.eqb_spec "." c) as [<-|_]; [done|]. cbn [andb].
    unfold Re.match_, Re.match_at, leading_operator_re.
    cbn [Re.seq Re.run Re.prev Re.rest]. unfold Re.is_char.
    destruct (Ascii.eqb_spec "<" c) as [<-|_]; [done|].
    destruct (Ascii.eqb_spec ">" c) as [<-|_]; [done|].
    destruct (Ascii.eqb_spec "!" c) as [<-|_]; [done|].
    destruct (Ascii.eqb_spec "=" c) as [<-|_]; [done|]. done.
  - rewrite startswith_cons.
    destruct (Ascii.eqb_spec "!" c) as [<-|_]; [done|]. done.
  - rewrite startswith_cons.
    destruct (Ascii.eqb_spec "=" c) as [<-|_]; [done|]. done.
Qed.

Lemma plain_condition_is_kept_witness :
  build_condition_expression " v > 5 and v < 10 " "v" = "v > 5 and v < 10".
Proof.
  apply (plain_condition_is_kept " v > 5 and v < 10 " "v");
    [|vm_compute; reflexivity..].
  assert (E : PyStr.strip " v > 5 and v < 10 " = "v > 5 and v < 10")
    by (vm_compute; reflexivity).
  rewrite E. intros c rest_ [= <- _]. repeat split; discriminate.
Defined.
Section Steps2.
Context {R : Type}.
Implicit Types (k : @Re.cont R) (caps : Re.captures) (l : list Re.regex).

Lemma step_lit lit : forall l p s caps k res,
  Re.run (Re.seq l) (Re.State (prev_after p lit) s) caps
    (fun w2 => k (lit ++ w2)) = Some res ->
  Re.run (Re.seq (Re.Lit lit :: l)) (Re.State p (lit ++ s)) caps k = Some res.
Proof.
  induction lit as [|c lit IH]; intros l p s caps k res H.
  - exact H.
  - specialize (IH l (Some c) s caps (fun w => k (String c w)) res H).
    rewrite str_app_cons. cbn [Re.Lit Re.seq Re.run Re.rest] in IH |- *.
    unfold Re.is_char at 1. rewrite Ascii.eqb_refl. exact IH.
Qed.

Lemma step_group_star n f l p w s' caps k res :
  PyStr.all_chars f w = true ->
  (forall c, Re.next_char s' = Some c -> f c = false) ->
  Re.run (Re.seq l) (Re.State (prev_after p w) s') ((n, w) :: caps)
    (fun w2 => k (w ++ w2)) = Some res ->
  Re.run (Re.seq (Re.Group n (Re.Star f) :: l)) (Re.State p (w ++ s')) caps k
  = Some res.
Proof. intros Hw Hn H. simpl. by apply star_greedy. Qed.
End Steps2.

(** A text with a slash in it is not letters up to the end of the
    line. *)
Lemma slash_before_end x f : forall a r,
  PyStr.all_chars PyStr.is_alpha a = true -> Re.at_eol r = true ->
  x ++ "/" ++ f <> a ++ r.
Proof.
  induction x as [|y x IH]; intros [|c a] r Ha Hr E.
  - rewrite !str_app_nil_l in E. subst r. by destruct f.
  - rewrite str_app_nil_l, !str_app_cons in E. injection E as <- _. done.
  - rewrite str_app_nil_l, str_app_cons in E. subst r.
    destruct x; [done|]. by destruct x.
  - rewrite !str_app_cons in E. injection E as <- E.
    simpl in Ha. apply andb_prop in Ha as [_ Ha]. by apply (IH a r).
Qed.

(** The pattern of a regex condition on a condition of that form: the
    first group is the text between the first slash and the last one. *)
Lemma regex_condition_match op ws pat flags :
  PyStr.all_chars PyStr.is_space ws = true ->
  pat <> EmptyString -> PyStr.all_chars PyStr.is_dot pat = true ->
  PyStr.all_chars PyStr.is_alpha flags = true ->
  exists w,
    Re.match_ (regex_condition_re op) (op ++ ws ++ "/" ++ pat ++ "/" ++ flags)
    = Some (w, [(2, flags); (1, pat)]).
Proof.
  intros Hws Hne Hpat Hflags. eexists.
  unfold Re.match_, Re.match_at, regex_condition_re.
  apply step_lit.
  apply step_star; [done|by intros c [= <-]|].
  rewrite (str_app_cons "/"), str_app_nil_l. apply step_chars; [done|].
  apply step_group_lazy; [done|done| |].
  - rewrite (str_app_cons "/"), str_app_nil_l. apply step_chars; [done|].
    rewrite <- (str_app_nil_r flags) at 1.
    apply step_group_star; [done|by intros c [=]|].
    apply step_eol; [done|]. rewrite step_nil. reflexivity.
  - intros u v -> Hu Hv.
    destruct (Re.run _ _ _ _) as [res|] eqn:Hrun; [|done]. exfalso.
    apply run_sound in Hrun as (w & st' & caps' & M & _).
    cbv [Re.seq] in M. invert_matches.
    match goal with
    | E : String _ (?a ++ ?r) = _, Ha : PyStr.all_chars PyStr.is_alpha ?a = true,
      Hr : Re.at_eol _ = true |- _ =>
        destruct v as [|y v]; [done|]; rewrite str_app_cons in E;
        injection E as _ E; symmetry in E;
        by apply (slash_before_end _ _ _ _ Ha Hr) in E
    end.
Qed.

Lemma flags_expr_letter_i flags :
  flags_expr flags
  = if PyStr.contains "i" (PyStr.lower flags) then "re.I" else "0".
Proof. unfold flags_expr. by destruct flags. Qed.

(** X17. A regex condition: the operator [=~] or [!~], blanks, and a pattern
    between slashes with letters as flags after it. The pattern is what
    stands between the first slash and the last one, so it may hold
    slashes itself; it is searched in the text of the value, without
    regard to letter case when one of the flags is the letter i, and the
    other flags are ignored. The operator [!~] negates the test. *)
Theorem regex_condition_is_compiled
    (comp_text value_alias ws pat flags : string) :
  PyStr.all_chars PyStr.is_space ws = true ->
  pat <> EmptyString -> PyStr.all_chars PyStr.is_dot pat = true ->
  PyStr.all_chars PyStr.is_alpha flags = true ->
  (PyStr.strip comp_text = "=~" ++ ws ++ "/" ++ pat ++ "/" ++ flags ->
   build_condition_expression comp_text value_alias
   = "re.search(r'" ++ pat ++ "', str(" ++ value_alias ++ "), "
     ++ (if PyStr.contains "i" (PyStr.lower flags) then "re.I" else "0")
     ++ ") is not None")
  /\ (PyStr.strip comp_text = "!~" ++ ws ++ "/" ++ pat ++ "/" ++ flags ->
      build_condition_expression comp_text value_alias
      = "re.search(r'" ++ pat ++ "', str(" ++ value_alias ++ "), "
        ++ (if PyStr.contains "i" (PyStr.lower flags) then "re.I" else "0")
        ++ ") is None").
Proof.
  intros Hws Hne Hpat Hflags.
  split; intros Htext; unfold build_condition_expression; rewrite Htext.
  - destruct (regex_condition_match "=~" ws pat flags) as [w ->]; [done..|].
    cbn [Re.group Nat.eqb]. by rewrite flags_expr_letter_i.
  - rewrite regex_condition_none by reflexivity.
    destruct (regex_condition_match "!~" ws pat flags) as [w ->]; [done..|].
    cbn [Re.group Nat.eqb]. by rewrite flags_expr_letter_i.
Qed.

Lemma regex_condition_is_compiled_witness :
  build_condition_expression "=~ /^5\.[0-9]/xi" "v"
  = "re.search(r'^5\.[0-9]', str(v), re.I) is not None".
Proof.
  refine (proj1 (regex_condition_is_compiled "=~ /^5\.[0-9]/xi" "v"
                   " " "^5\.[0-9]" "xi" _ _ _ _) _);
    vm_compute; try reflexivity; discriminate.
Defined.

(** X18. The words eq and ne stand for the comparisons [==] and [!=] of the
    value with what follows them. *)
Theorem equality_words_are_compiled
    (comp_text value_alias rhs : string) :
  (PyStr.strip comp_text = "eq " ++ rhs ->
   build_condition_expression comp_text value_alias
   = value_alias ++ " == " ++ PyStr.strip rhs)
  /\ (PyStr.strip comp_text = "ne " ++ rhs ->
      build_condition_expression comp_text value_alias
      = value_alias ++ " != " ++ PyStr.strip rhs).
Proof.
  assert (Hslice : forall a b c, PyStr.slice (String a (String b (String c rhs))) 3 None = rhs).
  { intros a b c. rewrite slice_to_end. reflexivity. }
  split; intros Htext; unfold build_condition_expression; rewrite Htext.
  - rewrite !regex_condition_none by reflexivity.
    change ("eq " ++ rhs) with (String "e" (String "q" (String " " rhs))).
    by rewrite Hslice.
  - rewrite !regex_condition_none by reflexivity.
    change ("ne " ++ rhs) with (String "n" (String "e" (String " " rhs))).
    by rewrite Hslice.
Qed.

Lemma equality_words_are_compiled_witness :
  build_condition_expression "eq  'ON'" "v" = "v == 'ON'".
Proof.
  exact (proj1 (equality_words_are_compiled "eq  'ON'" "v" " 'ON'")
           ltac:(vm_compute; reflexivity)).
Defined.

(** * Variables from files *)

Lemma span_spec f s :
  s = (PyFloat.span f s).1 ++ (PyFloat.span f s).2
  /\ PyStr.all_chars f (PyFloat.span f s).1 = true
  /\ no_head f (PyFloat.span f s).2.
Proof.
  induction s as [|c s (IH1 & IH2 & IH3)]; simpl; [by repeat split|].
  destruct (f c) eqn:Hc.
  - destruct (PyFloat.span f s) as [a b]. simpl in *.
    rewrite Hc, IH2, str_app_cons. by rewrite <- IH1.
  - repeat split. intros x [= <-]. done.
Qed.

(** The pattern of a variables line on a line that starts with an
    identifier: the key is the longest identifier, the value the rest of
    the line after the blanks. *)
Lemma kv_re_match c r ws value tail :
  PyStr.ident_start c = true ->
  PyStr.all_chars PyStr.ident_char r = true ->
  no_head PyStr.ident_char (ws ++ value ++ tail) ->
  PyStr.all_chars PyStr.is_space ws = true ->
  no_head PyStr.is_space (value ++ tail) ->
  PyStr.all_chars PyStr.is_dot value = true ->
  no_head PyStr.is_dot tail ->
  exists w,
    Re.match_ kv_re (String c r ++ ws ++ value ++ tail)
    = Some (w, [(2, value); (1, String c r)]).
Proof.
  intros Hc Hr Hr' Hws Hws' Hv Hv'. eexists.
  unfold Re.match_, Re.match_at, kv_re.
  change (Re.run (Re.seq (Re.Group 1 (Re.seq ?l') :: ?l)) ?st ?caps ?k)
    with (Re.run (Re.seq l') st caps
            (fun w st' caps' =>
               Re.run (Re.seq l) st' ((1, w) :: caps')
                 (fun w2 => k (w ++ w2)))).
  rewrite str_app_cons. apply step_chars; [done|].
  apply step_star; [done|done|]. rewrite step_nil.
  apply step_star; [done|done|].
  apply step_group_star; [done|done|]. rewrite step_nil.
  rewrite !str_app_nil_r. reflexivity.
Qed.

Lemma read_kv_line_spec (raw key value : string) :
  read_kv_line raw = Some (key, value)
  <-> exists ws tail,
        rstrip_newlines raw = key ++ ws ++ value ++ tail
        /\ is_identifier key = true
        /\ no_head PyStr.ident_char (ws ++ value ++ tail)
        /\ PyStr.all_chars PyStr.is_space ws = true
        /\ no_head PyStr.is_space (value ++ tail)
        /\ PyStr.all_chars PyStr.is_dot value = true
        /\ no_head PyStr.is_dot tail.
Proof.
  assert (Hback : forall key value ws tail,
            rstrip_newlines raw = key ++ ws ++ value ++ tail ->
            is_identifier key = true ->
            no_head PyStr.ident_char (ws ++ value ++ tail) ->
            PyStr.all_chars PyStr.is_space ws = true ->
            no_head PyStr.is_space (value ++ tail) ->
            PyStr.all_chars PyStr.is_dot value = true ->
            no_head PyStr.is_dot tail ->
            read_kv_line raw = Some (key, value)).
  { intros k v ws tail E Hid H1 H2 H3 H4 H5. unfold read_kv_line. rewrite E.
    destruct k as [|c r]; [done|]. simpl in Hid.
    apply andb_prop in Hid as [Hc Hr].
    by destruct (kv_re_match c r ws v tail) as [w ->]. }
  split; [|intros (ws & tail & E & H1 & H2 & H3 & H4 & H5 & H6);
            by apply (Hback key value ws tail)].
  intros H.
  destruct (rstrip_newlines raw) as [|c s] eqn:E.
  { unfold read_kv_line in H. by rewrite E in H. }
  destruct (PyStr.ident_start c) eqn:Hc.
  2: { unfold read_kv_line in H. rewrite E in H.
       unfold Re.match_, Re.match_at, kv_re in H.
       cbn [Re.seq Re.run Re.rest Re.prev] in H. by rewrite Hc in H. }
  destruct (span_spec PyStr.ident_char s) as (E1 & A1 & N1).
  destruct (PyFloat.span PyStr.ident_char s) as [r s1]. simpl in *.
  destruct (span_spec PyStr.is_space s1) as (E2 & A2 & N2).
  destruct (PyFloat.span PyStr.is_space s1) as [ws s2]. simpl in *.
  destruct (span_spec PyStr.is_dot s2) as (E3 & A3 & N3).
  destruct (PyFloat.span PyStr.is_dot s2) as [v tail]. simpl in *.
  subst s2 s1 s.
  assert (H' : read_kv_line raw = Some (String c r, v)).
  { apply (Hback _ _ ws tail); try done; simpl; by rewrite ?Hc. }
  rewrite H' in H. injection H as <- <-.
  exists ws, tail. repeat split; try done. simpl. by rewrite Hc.
Qed.

(** X19. What a line of a variables file assigns. The line, without the
    newlines at its end, must start with a letter or an underscore; the
    key is then the longest identifier at its start, and the value is
    what follows the blanks after the key, up to the end of the line
    (or up to a newline inside it). Blanks at the end of the value are
    kept. Every other line assigns nothing. *)
Theorem kv_line_key_and_value (raw key value : string) :
  read_kv_line raw = Some (key, value)
  <-> exists ws tail,
        rstrip_newlines raw = key ++ ws ++ value ++ tail
        /\ is_identifier key = true
        /\ no_head PyStr.ident_char (ws ++ value ++ tail)
        /\ PyStr.all_chars PyStr.is_space ws = true
        /\ no_head PyStr.is_space (value ++ tail)
        /\ PyStr.all_chars PyStr.is_dot value = true
        /\ no_head PyStr.is_dot tail.
Proof. apply read_kv_line_spec. Qed.

Lemma no_head_app f a b : a <> EmptyString -> no_head f (a ++ b) -> no_head f a.
Proof. destruct a as [|c a]; [done|]. intros _ H x [= <-]. by apply (H c). Qed.

Lemma read_kv_lines_app kv l1 l2 :
  read_kv_lines kv (l1 ++ l2) = read_kv_lines (read_kv_lines kv l1) l2.
Proof. revert kv. induction l1 as [|raw l1 IH]; intros kv; simpl; [done|apply IH]. Qed.

Lemma read_kv_lines_clean lines : forall kv,
  file_entries kv -> file_entries (read_kv_lines kv lines).
Proof.
  induction lines as [|raw lines IH]; intros kv Hkv; simpl; [done|].
  apply IH. destruct (read_kv_line raw) as [[key value]|] eqn:E; [|done].
  apply read_kv_line_spec in E
    as (ws & tail & _ & Hid & _ & _ & Hv1 & Hv2 & _).
  intros k v. destruct (decide (k = key)) as [->|Hne].
  - rewrite lookup_insert_eq. intros [= <-]. split; [done|].
    exists value. repeat split; [done|].
    destruct value as [|c value]; [by intros x|].
    by apply (no_head_app _ _ tail).
  - rewrite lookup_insert_ne by done. apply Hkv.
Qed.

Lemma read_files_clean fs names : forall kv kv',
  file_entries kv -> read_files fs kv names = Loaded kv' -> file_entries kv'.
Proof.
  induction names as [|name names IH]; intros kv kv' Hkv; simpl.
  { by intros [= <-]. }
  destruct (String.eqb _ _); [by apply IH|].
  destruct (PyStr.contains _ _); [done|].
  destruct (fs _) as [lines|]; [|done].
  apply IH. by apply read_kv_lines_clean.
Qed.

(** X20. The variables that come from files: every key is an identifier, and
    every value is a string, the text of one line without a newline in
    it and without a blank at its start. *)
Theorem file_variables_are_identifiers_and_strings
    (fs : file_system) (filelist_arg : string) (debug : bool)
    (kv : gmap string value) :
  (get_mysql_kv_from_files fs filelist_arg debug).2 = Loaded kv ->
  file_entries kv.
Proof.
  unfold get_mysql_kv_from_files. simpl. intros H.
  apply (read_files_clean fs (split_commas filelist_arg) ∅ kv); [|done].
  intros key v. by rewrite lookup_empty.
Qed.

Lemma file_variables_are_identifiers_and_strings_witness :
  is_identifier "Uptime" = true
  /\ exists s, VStr "12345" = VStr s
       /\ PyStr.all_chars PyStr.is_dot s = true
       /\ no_head PyStr.is_space s.
Proof.
  pose (fs := fun name : string =>
          if String.eqb name "status.txt"
          then Some ["Uptime   12345" ++ nl; "Threads_running 4" ++ nl]
          else None).
  apply (file_variables_are_identifiers_and_strings fs " status.txt" false
           (<[ "Threads_running" := VStr "4" ]>
              (<[ "Uptime" := VStr "12345" ]> ∅)));
    [vm_compute; reflexivity|].
  rewrite lookup_insert_ne by done. apply lookup_insert_eq.
Defined.

Lemma read_kv_lines_other kv lines key :
  (forall raw, In raw lines -> key_of raw <> Some key) ->
  read_kv_lines kv lines !! key = kv !! key.
Proof.
  revert kv. induction lines as [|raw lines IH]; intros kv Hno; simpl; [done|].
  rewrite IH by (intros r Hr; apply Hno; by right).
  pose proof (Hno raw (or_introl eq_refl)) as Hraw. unfold key_of in Hraw.
  destruct (read_kv_line raw) as [[k v]|]; [|done].
  apply lookup_insert_ne. intros ->. by apply Hraw.
Qed.

(** X21. Of the lines that assign a key, the last one wins, whatever the
    table held before and whatever the earlier lines assigned; a key that
    no line assigns keeps what it had. *)
Theorem last_assignment_wins
    (kv : gmap string value) (lines : list string) (key : string) :
  (forall before raw after value,
     lines = (before ++ raw :: after)%list ->
     read_kv_line raw = Some (key, value) ->
     (forall r, In r after -> key_of r <> Some key) ->
     read_kv_lines kv lines !! key = Some (VStr value))
  /\ ((forall raw, In raw lines -> key_of raw <> Some key) ->
      read_kv_lines kv lines !! key = kv !! key).
Proof.
  split; [|apply read_kv_lines_other].
  intros before raw after value -> Hraw Hafter.
  rewrite read_kv_lines_app. simpl. rewrite Hraw.
  rewrite read_kv_lines_other by done. apply lookup_insert_eq.
Qed.

(** How a name of the file list is read: a blank name gives no line; any
    other name is a file that can be opened, and gives its lines. *)
Lemma read_files_lines fs names all_lines : forall kv,
  Forall2 (fun name lines =>
             (PyStr.strip name = EmptyString /\ lines = [])
             \/ (PyStr.strip name <> EmptyString
                 /\ PyStr.contains NUL (PyStr.strip name) = false
                 /\ fs (PyStr.strip name) = Some lines))
    names all_lines ->
  read_files fs kv names = Loaded (read_kv_lines kv (concat all_lines)).
Proof.
  intros kv H. revert kv.
  induction H as [|name lines names all_lines Hname _ IH]; intros kv; simpl;
    [done|].
  destruct Hname as [[-> ->]|(Hne & Hnul & Hfs)]; [apply IH|].
  apply String.eqb_neq in Hne. rewrite Hne, Hnul, Hfs.
  by rewrite read_kv_lines_app, IH.
Qed.

(** X22. Several files are read as one: the result is that of the loop over
    the lines of the first file, then those of the second, and so on, so
    a later file overrides an earlier one. Blanks around a name are
    dropped, and an empty name between two commas is skipped. *)
Theorem files_are_read_in_order
    (fs : file_system) (filelist_arg : string) (debug : bool)
    (all_lines : list (list string)) :
  Forall2 (fun name lines =>
             (PyStr.strip name = EmptyString /\ lines = [])
             \/ (PyStr.strip name <> EmptyString
                 /\ PyStr.contains NUL (PyStr.strip name) = false
                 /\ fs (PyStr.strip name) = Some lines))
    (split_commas filelist_arg) all_lines ->
  (get_mysql_kv_from_files fs filelist_arg debug).2
  = Loaded (read_kv_lines ∅ (concat all_lines)).
Proof. intros H. by apply read_files_lines. Qed.

Lemma files_are_read_in_order_witness :
  (get_mysql_kv_from_files
     (fun name => if String.eqb name "a" then Some ["x 1" ++ nl]
                  else if String.eqb name "b" then Some ["x 2" ++ nl]
                  else None)
     "a, ,b" false).2
  = Loaded (read_kv_lines ∅ (concat [["x 1" ++ nl]; []; ["x 2" ++ nl]])).
Proof.
  apply files_are_read_in_order.
  change (split_commas "a, ,b") with ["a"; " "; "b"].
  constructor; [right|constructor; [by left|constructor; [right|constructor]]].
  all: repeat split; vm_compute; try reflexivity; discriminate.
Defined.

(** X23. The load ends by [sys.exit(1)] exactly when one of the files cannot
    be opened; the message names the first such file, and the names
    before it are blank or are files that can be opened. *)
Theorem missing_file_ends_the_load
    (fs : file_system) (filelist_arg : string) (debug : bool)
    (message : string) :
  (get_mysql_kv_from_files fs filelist_arg debug).2 = Exit1 message
  <-> exists before name after,
        split_commas filelist_arg = (before ++ name :: after)%list
        /\ Forall (fun n =>
                     PyStr.strip n = EmptyString
                     \/ (PyStr.contains NUL (PyStr.strip n) = false
                         /\ is_Some (fs (PyStr.strip n)))) before
        /\ PyStr.strip name <> EmptyString
        /\ PyStr.contains NUL (PyStr.strip name) = false
        /\ fs (PyStr.strip name) = None
        /\ message = "cannot open " ++ PyStr.strip name.
Proof.
  unfold get_mysql_kv_from_files. simpl.
  generalize (split_commas filelist_arg) (∅ : gmap string value).
  intros names. induction names as [|n names IH]; intros kv; simpl.
  { split; [done|]. intros (before & name & after & E & _). by destruct before. }
  destruct (String.eqb (PyStr.strip n) EmptyString) eqn:Hblank.
  { apply String.eqb_eq in Hblank. rewrite IH. split.
    - intros (before & name & after & -> & Hb & H).
      exists (n :: before), name, after. split; [done|].
      split; [constructor; [by left|done]|done].
    - intros (before & name & after & E & Hb & Hne & H).
      destruct before as [|b before]; simpl in E; injection E as -> ->; [done|].
      exists before, name, after. split; [done|].
      split; [by inversion Hb|done]. }
  apply String.eqb_neq in Hblank.
  destruct (PyStr.contains NUL (PyStr.strip n)) eqn:Hnul.
  { split; [done|]. intros (before & name & after & E & Hb & Hne & Hn & H).
    destruct before as [|b before]; simpl in E; injection E as -> ->;
      [congruence|].
    inversion Hb as [|? ? [?|[? _]] _]; subst; congruence. }
  destruct (fs (PyStr.strip n)) as [lines|] eqn:Hfs.
  - rewrite IH. split.
    + intros (before & name & after & -> & Hb & H).
      exists (n :: before), name, after. split; [done|].
      split; [constructor; [right; by rewrite Hfs|done]|done].
    + intros (before & name & after & E & Hb & Hne & Hn & Hf & H).
      destruct before as [|b before]; simpl in E; injection E as -> ->;
        [congruence|].
      exists before, name, after. split; [done|].
      split; [by inversion Hb|done].
  - split.
    + intros [= <-]. exists [], n, names. by repeat split.
    + intros (before & name & after & E & Hb & Hne & Hn & Hf & ->).
      destruct before as [|b before]; simpl in E; injection E as -> ->; [done|].
      inversion Hb as [|? ? [?|[_ [? ?]]] _]; subst; congruence.
Qed.

(** * The substring helper with a length *)






(** * What does not depend on the output mode *)

Section OutputModes.
Variable eval : evaluator.
Variable variables : gmap string value.
Variable debug : bool.

Lemma process_line_decisions mode1 mode2 st1 st2 raw :
  map snd (recommendation_pairs st1) = map snd (recommendation_pairs st2) ->
  current_category st1 = current_category st2 ->
  match process_line eval variables mode1 debug st1 raw,
        process_line eval variables mode2 debug st2 raw with
  | Continue st1', Continue st2' =>
      map snd (recommendation_pairs st1') = map snd (recommendation_pairs st2')
      /\ current_category st1' = current_category st2'
  | _, _ => True
  end.
Proof.
  intros Hp Hc. unfold process_line.
  destruct (String.eqb _ _); [done|].
  destruct (PyStr.startswith _ _).
  { destruct (negb _); [|done]. unfold process_comment.
    destruct (Re.match_ category_re raw) as [[w caps]|]; [|done].
    rewrite Hc. destruct (negb _ && negb _); [|done].
    by destruct (String.eqb mode1 "csv"), (String.eqb mode2 "csv"). }
  destruct (parse_config_line raw) as [[[[label comp] expr] output_text]|];
    [|done].
  rewrite !process_rule_spec.
  destruct (rule_abort_trace _ _ _ _); [done|].
  destruct (metric_line mode1 _ _ _) as [line1|]; [|done].
  destruct (metric_line mode2 _ _ _) as [line2|]; [|done].
  simpl. rewrite !map_app, Hp. by destruct (condition_ok _ _ _).
Qed.

(** X26. The output mode changes how a line is shown, never what is decided:
    two runs over the same lines that differ in the output mode only,
    and that both go through, end with the recommendations of the same
    rules, in the same order, and in the same category. *)
Theorem decisions_do_not_depend_on_output_mode
    (mode1 mode2 : string) (lines : list string) (st1 st2 : run_state) :
  process_lines eval variables mode1 debug initial_state lines = Continue st1 ->
  process_lines eval variables mode2 debug initial_state lines = Continue st2 ->
  map snd (recommendation_pairs st1) = map snd (recommendation_pairs st2)
  /\ current_category st1 = current_category st2.
Proof.
  assert (H : forall s1 s2,
            map snd (recommendation_pairs s1) = map snd (recommendation_pairs s2) ->
            current_category s1 = current_category s2 ->
            process_lines eval variables mode1 debug s1 lines = Continue st1 ->
            process_lines eval variables mode2 debug s2 lines = Continue st2 ->
            map snd (recommendation_pairs st1)
            = map snd (recommendation_pairs st2)
            /\ current_category st1 = current_category st2).
  2: { by apply H. }
  induction lines as [|raw lines IH]; intros s1 s2 Hp Hc; simpl.
  { by intros [= <-] [= <-]. }
  pose proof (process_line_decisions mode1 mode2 s1 s2 raw Hp Hc) as Hline.
  destruct (process_line eval variables mode1 debug s1 raw) as [s1'|]; [|done].
  destruct (process_line eval variables mode2 debug s2 raw) as [s2'|]; [|done].
  destruct Hline as [Hp' Hc']. by apply IH.
Qed.
End OutputModes.

Lemma decisions_do_not_depend_on_output_mode_witness :
  map snd (recommendation_pairs
             (RunState ["Uptime: 30.0"] [("Uptime: 30.0", "Raise it")] EmptyString))
  = map snd (recommendation_pairs
               (RunState ["Uptime,30"] [("Uptime,30", "Raise it")] EmptyString)).
Proof.
  refine (proj1 (decisions_do_not_depend_on_output_mode Frag.py_eval
                   {[ "Uptime" := VInt 30 ]} false "pretty" "csv"
                   ["Uptime ||| < 60 ||| Uptime ||| Raise it"] _ _ _ _));
    vm_compute; reflexivity.
Defined.

(** * Rules without a comparison *)

Section NoComparison.
Variable eval : evaluator.
Variable variables : gmap string value.
Variable output_mode : string.
Variable debug : bool.

Lemma process_line_no_comparison st raw :
  (forall label comp expr output_text,
     parse_config_line raw = Some (label, comp, expr, output_text) ->
     comp = EmptyString) ->
  recommendation_pairs
    (final_state (process_line eval variables output_mode debug st raw))
  = recommendation_pairs st.
Proof.
  intros Hraw. unfold process_line.
  destruct (String.eqb _ _); [done|].
  destruct (PyStr.startswith _ _).
  { destruct (negb _); [|done]. simpl.
    by destruct (process_comment_grows output_mode st raw) as (out & _ & ->). }
  destruct (parse_config_line raw) as [[[[label comp] expr] output_text]|]
    eqn:Hparse; [|done].
  rewrite (Hraw _ _ _ _ eq_refl), process_rule_spec.
  destruct (rule_abort_trace _ _ _ _); [done|].
  destruct (metric_line _ _ _ _); simpl; [|done].
  by rewrite app_nil_r.
Qed.

(** X29. Metrics that are only shown: when the comparison field of every
    rule of a file is empty, no recommendation is collected, so the run
    prints the same with and without the recommendation section. *)
Theorem rules_without_comparison_recommend_nothing (lines : list string) :
  (forall raw label comp expr output_text,
     In raw lines ->
     parse_config_line raw = Some (label, comp, expr, output_text) ->
     comp = EmptyString) ->
  evaluate_and_print eval variables output_mode debug lines true
  = evaluate_and_print eval variables output_mode debug lines false.
Proof.
  intros Hlines. unfold evaluate_and_print.
  assert (H : forall st,
            recommendation_pairs
              (final_state (process_lines eval variables output_mode debug st lines))
            = recommendation_pairs st).
  { induction lines as [|raw lines IH]; intros st; simpl; [done|].
    pose proof (process_line_no_comparison st raw) as Hline.
    destruct (process_line eval variables output_mode debug st raw) as [st'|st'];
      simpl in *.
    - rewrite IH; [apply Hline|]; intros; eapply Hlines; eauto.
    - apply Hline. intros; eapply Hlines; eauto. }
  specialize (H initial_state).
  destruct (process_lines _ _ _ _ _ _) as [st|st]; simpl in *; [|done].
  by rewrite H.
Qed.
End NoComparison.

Lemma rules_without_comparison_recommend_nothing_witness :
  evaluate_and_print Frag.py_eval {[ "Uptime" := VInt 30 ]} "csv" false
    ["Uptime ||| ||| Uptime ||| Raise it"] true
  = evaluate_and_print Frag.py_eval {[ "Uptime" := VInt 30 ]} "csv" false
      ["Uptime ||| ||| Uptime ||| Raise it"] false.
Proof.
  apply rules_without_comparison_recommend_nothing.
  intros raw label comp expr output_text [<-|[]].
  vm_compute. congruence.
Defined.

(** * The uptime helper *)

Section UptimeFacts.
Local Open Scope Z_scope.

Lemma pretty_uptime_value (n : Z) :
  - 2 ^ 53 < n < 2 ^ 53 ->
  pretty_uptime n
  = Some (uptime_text (Z.quot n 86400) (n mod 86400 / 3600)
            (n mod 3600 / 60) (n mod 60)).
Proof.
  intros Hn. unfold pretty_uptime.
  destruct (of_Z_exact n Hn) as (x & -> & Hx). cbn [mbind option_bind].
  rewrite Hx. cbn [mbind option_bind].
  destruct (true_div_floor (n mod 3600) 60) as (x1 & -> & Hx1);
    [pose proof (Z.mod_pos_bound n 3600); lia|done|].
  cbn [mbind option_bind]. rewrite Hx1. cbn [mbind option_bind].
  destruct (true_div_floor (n mod 86400) 3600) as (x2 & -> & Hx2);
    [pose proof (Z.mod_pos_bound n 86400); lia|done|].
  cbn [mbind option_bind]. rewrite Hx2. cbn [mbind option_bind].
  assert (Hdays : exists x3, true_div n 86400 = Some x3
                     /\ int_of_float x3 = Some (Z.quot n 86400)).
  { destruct n as [|p|p].
    - exists (S754_zero false). by split.
    - destruct (true_div_floor (Zpos p) 86400) as (x3 & E & E'); [lia|done|].
      exists x3. split; [done|]. rewrite E'. f_equal.
      symmetry. apply Z.quot_div_nonneg; lia.
    - destruct (true_div_floor_neg p 86400) as (x3 & E & E'); [lia|done|].
      exists x3. split; [done|]. rewrite E'. f_equal.
      change (Zneg p) with (- Zpos p). rewrite Z.quot_opp_l by lia.
      f_equal. symmetry. apply Z.quot_div_nonneg; lia. }
  destruct Hdays as (x3 & -> & Hx3).
  cbn [mbind option_bind]. rewrite Hx3. cbn [mbind option_bind].
  reflexivity.
Qed.

(** X27. For an uptime below 2^53 seconds the helper shows the days, hours,
    minutes and seconds that add up to it, with hours below 24 and
    minutes and seconds below 60: the float divisions on the way lose
    nothing. The text starts at the first unit that is not zero. *)
Theorem pretty_uptime_splits_the_seconds (n : Z) :
  0 <= n < 2 ^ 53 ->
  exists d h m s,
    pretty_uptime n = Some (uptime_text d h m s)
    /\ n = 86400 * d + 3600 * h + 60 * m + s
    /\ 0 <= d /\ 0 <= h < 24 /\ 0 <= m < 60 /\ 0 <= s < 60.
Proof.
  intros Hn.
  exists (n / 86400), (n mod 86400 / 3600), (n mod 3600 / 60), (n mod 60).
  split.
  { rewrite pretty_uptime_value by lia. do 2 f_equal.
    apply Z.quot_div_nonneg; lia. }
  pose proof (Z.div_mod n 86400). pose proof (Z.mod_pos_bound n 86400).
  pose proof (Z.div_mod (n mod 86400) 3600).
  pose proof (Z.mod_pos_bound (n mod 86400) 3600).
  pose proof (Z.div_mod (n mod 3600) 60).
  pose proof (Z.mod_pos_bound (n mod 3600) 60).
  assert (n mod 86400 mod 3600 = n mod 3600)
    by (apply (Z.mod_mod_divide n 86400 3600); by exists 24).
  assert (n mod 3600 mod 60 = n mod 60)
    by (apply (Z.mod_mod_divide n 3600 60); by exists 60).
  assert (0 <= n / 86400) by (apply Z.div_pos; lia).
  lia.
Qed.

Lemma pretty_uptime_splits_the_seconds_witness :
  exists d h m s,
    pretty_uptime 90061 = Some (uptime_text d h m s)
    /\ 90061 = 86400 * d + 3600 * h + 60 * m + s
    /\ 0 <= d /\ 0 <= h < 24 /\ 0 <= m < 60 /\ 0 <= s < 60.
Proof. apply pretty_uptime_splits_the_seconds. lia. Defined.

(** X28. A negative argument is not refused: the days are dropped and the
    rest is counted back from midnight, so the helper shows hours,
    minutes and seconds only, those that it shows for the argument
    modulo 86400. *)
Theorem pretty_uptime_negative_wraps (n : Z) :
  - 2 ^ 53 < n < 0 ->
  pretty_uptime n = pretty_uptime (n mod 86400)
  /\ pretty_uptime n
     = Some (uptime_text 0 (n mod 86400 / 3600) (n mod 3600 / 60) (n mod 60)).
Proof.
  intros Hn. pose proof (Z.mod_pos_bound n 86400).
  rewrite !pretty_uptime_value by lia.
  assert (n mod 86400 mod 86400 = n mod 86400) as -> by (apply Z.mod_mod; lia).
  assert (n mod 86400 mod 3600 = n mod 3600) as ->
    by (apply (Z.mod_mod_divide n 86400 3600); by exists 24).
  assert (n mod 86400 mod 60 = n mod 60) as ->
    by (apply (Z.mod_mod_divide n 86400 60); by exists 1440).
  assert (Z.quot (n mod 86400) 86400 = 0) as ->
    by (apply Z.quot_small; lia).
  assert (Hq : Z.quot n 86400 <= 0).
  { apply Z.quot_le_upper_bound; lia. }
  unfold uptime_text.
  assert ((0 <? Z.quot n 86400) = false) as -> by lia.
  by split.
Qed.

Lemma pretty_uptime_negative_wraps_witness :
  pretty_uptime (-1) = pretty_uptime 86399.
Proof. apply (pretty_uptime_negative_wraps (-1)). lia. Defined.
End UptimeFacts.
